(** * The [usage] scheduler plugin (pkg/scheduler/plugins/usage/usage.go)

    A shallow embedding of the plugin: the resolution of its arguments
    ([New] and the threshold section of [OnSessionOpen]), the bootstrap of
    the utilization snapshots, and the two callbacks the plugin registers
    ([predicateFn], [nodeOrderFn]).

    Go's [float64] is the kernel's binary64 type [float] with its primitive
    operations, which [FloatAxioms] specifies by the IEEE 754 operations
    of [SpecFloat]; Go's [int] and [int64] are [Z] with the 64-bit
    wrap-around written out; a Go [map[string]T] is a [gmap string T].

    The definitions come first: the plugin, then the notions the
    properties of binary64 rounding are stated with.  The properties
    follow: the order and the rounding of binary64 numbers, then the
    resolution of the arguments, the filter, the score and the bootstrap. *)

From Stdlib Require Import ZArith Floats String List Lia Bool.
From stdpp Require Import gmap strings list fin_maps.

Local Open Scope Z_scope.
Set Warnings "-register-all".

(** ** Machine arithmetic *)

(** Two's complement wrap-around of a 64-bit signed integer. *)
Definition wrap64 (z : Z) : Z := (z + 2 ^ 63) mod 2 ^ 64 - 2 ^ 63.

(** [a * b] on [int64]. *)
Definition int64_mul (a b : Z) : Z := wrap64 (a * b).

(** The conversion [float64(z)] of an integer: round to nearest, ties to
    even, as IEEE 754 and the Go specification prescribe. *)
Definition float64_of_int (z : Z) : float :=
  SF2Prim (binary_normalize prec emax z 0 false).

(** [k8sFramework.MaxNodeScore], an [int64] constant of the Kubernetes
    scheduling framework. *)
Definition MaxNodeScore : Z := 100.

(** ** Plugin arguments *)

(** The dynamic values ([interface{}]) found in the plugin arguments once
    the scheduler configuration has been decoded.  A nested mapping is a
    [map[interface{}]interface{}]: it is kept as the list of its bindings,
    which [range] visits in an unspecified order. *)
Inductive value : Type :=
| VNil
| VBool (b : bool)
| VInt (z : Z)
| VFloat (f : float)
| VString (s : string)
| VList (l : list value)
| VMap (kvs : list (value * value)).

(** [framework.Arguments] *)
Abbreviation Arguments := (gmap string value).

(** Modelled from the spec: [Arguments.GetInt], which belongs to the
    framework package.  "read as an integer-valued argument [...]; on
    absence or wrong type, keep default (no error raised)". *)
Definition GetInt (args : Arguments) (ptr : Z) (key : string) : Z :=
  match args !! key with
  | Some (VInt z) => z
  | _ => ptr
  end.

(** ** The data of package [api] the plugin reads *)
Module api.

(** Modelled from the spec: [api.NodeUsage], declared in package [api].
    "per node, two mappings from samplePeriod-label to average utilization
    percentage (one for CPU, one for memory)". *)
Record NodeUsage : Type := {
  CPUUsageAvg : gmap string float;
  MEMUsageAvg : gmap string float
}.

(** Modelled from the spec: [api.NodeInfo], declared in package [api]; the
    plugin reads its name and its utilization snapshot. *)
Record NodeInfo : Type := {
  Name : string;
  ResourceUsage : NodeUsage
}.

(** Modelled from the spec: [api.TaskInfo], declared in package [api]:
    "opaque identity (namespace+name for task)", used in messages only. *)
Record TaskInfo : Type := {
  Namespace : string;
  TaskName : string
}.

End api.
Import api.

(** [m[k]] on a [map[string]float64]: a missing key reads as [0]. *)
Definition index (m : gmap string float) (k : string) : float :=
  default 0%float (m !! k).

(** ** The plugin *)

Definition PluginName : string := "usage".
Definition cpuUsageAvgPrefix : string := "CPUUsageAvg.".
Definition memUsageAvgPrefix : string := "MEMUsageAvg.".
Definition thresholdSection : string := "thresholds".

Definition AVG : string := "average".
Definition COMMON : string := "common".
Definition MAX : string := "max".

Record usagePlugin : Type := {
  pluginArguments : Arguments;
  weight : Z;
  usageType : string;
  cpuThresholds : float;
  memThresholds : float;
  SamplePeriods : string
}.

(** [New]; the warnings it logs are diagnostics only and are left out. *)
Definition New (args : Arguments) : usagePlugin :=
  {| pluginArguments := args;
     weight := GetInt args 1 "usage.weight";
     usageType :=
       match args !! "type" with
       | Some (VString average) => average
       | _ => AVG
       end;
     cpuThresholds := 80;
     memThresholds := 80;
     SamplePeriods :=
       match args !! "period" with
       | Some (VString samplePeriods) => samplePeriods
       | _ => "10m"
       end |}.

Definition Name (up : usagePlugin) : string := PluginName.

(** The error a predicate returns; the two messages of [predicateFn] are
    kept as the data they format. *)
Inductive error : Type :=
| ErrCpuUsage (plugin node : string) (usage threshold : float)
| ErrMemUsage (plugin node : string) (usage threshold : float).

(** One iteration of [for k, v := range args]: both type assertions
    discard their [ok] result, so a key that is not a string reads as the
    empty string and a value that is not an [int] reads as [0]. *)
Definition thresholdStep (up : usagePlugin) (kv : value * value) : usagePlugin :=
  let key := match kv.1 with VString s => s | _ => EmptyString end in
  let value := match kv.2 with VInt z => z | _ => 0 end in
  if String.eqb key "cpu" then
    {| pluginArguments := pluginArguments up; weight := weight up;
       usageType := usageType up;
       cpuThresholds := float64_of_int value;
       memThresholds := memThresholds up;
       SamplePeriods := SamplePeriods up |}
  else if String.eqb key "mem" then
    {| pluginArguments := pluginArguments up; weight := weight up;
       usageType := usageType up;
       cpuThresholds := cpuThresholds up;
       memThresholds := float64_of_int value;
       SamplePeriods := SamplePeriods up |}
  else up.

(** The bindings [range] runs over: those of the section when it is a
    nested mapping, none otherwise (the failed assertion yields a nil map). *)
Definition thresholdArgs (argsValue : value) : list (value * value) :=
  match argsValue with
  | VMap kvs => kvs
  | _ => []
  end.

(** The part of [OnSessionOpen] that resolves the thresholds. *)
Definition resolveThresholds (up : usagePlugin) : usagePlugin :=
  match pluginArguments up !! thresholdSection with
  | Some argsValue => fold_left thresholdStep (thresholdArgs argsValue) up
  | None => up
  end.

(** The closure [predicateFn]: [None] is the nil error (the node passes). *)
Definition predicateFn (up : usagePlugin) (task : TaskInfo) (node : NodeInfo)
  : option error :=
  if negb (String.eqb (SamplePeriods up) "") then
    let cpu := index (CPUUsageAvg (ResourceUsage node)) (SamplePeriods up) in
    let mem := index (MEMUsageAvg (ResourceUsage node)) (SamplePeriods up) in
    if (cpuThresholds up <? cpu)%float then
      Some (ErrCpuUsage (Name up) (api.Name node) cpu (cpuThresholds up))
    else if (memThresholds up <? mem)%float then
      Some (ErrMemUsage (Name up) (api.Name node) mem (memThresholds up))
    else None
  else None.

(** The closure [nodeOrderFn]: the score and the error, which is always nil. *)
Definition nodeOrderFn (up : usagePlugin) (task : TaskInfo) (node : NodeInfo)
  : float * option error :=
  if String.eqb (SamplePeriods up) "" then (0%float, None)
  else
    match CPUUsageAvg (ResourceUsage node) !! SamplePeriods up with
    | None => (0%float, None)
    | Some cpuUsage =>
        let score := ((100 - cpuUsage) / 100)%float in
        let score :=
          (score * float64_of_int (int64_mul MaxNodeScore (weight up)))%float in
        (score, None)
    end.

(** ** Sessions, the cache and the process-wide state *)

(** What the process does that other components observe, in order. *)
Inductive Event : Type :=
| EvSetPeriod (period : string)
| EvGetMetricsData
| EvLogError (msg : string).

(** Modelled from the spec: the implementations of the [cache.Cache]
    interface, declared in package [cache]: "a cache object exposing a
    metrics-refresh operation and (when the concrete type matches) direct
    per-node utilization state".  [SchedulerCache] is the scheduler's own,
    with its field [Nodes]; [OtherCache] is any other implementation. *)
Inductive Cache : Type :=
| SchedulerCache (Nodes : gmap string NodeInfo)
| OtherCache.

(** The state shared by all sessions of a scheduler process: the variable
    [source.Period] ("a shared/global current sampling period indicator
    that starts empty"), the cache, and the trace of what was done. *)
Record Process : Type := {
  Period : string;
  cache : Cache;
  trace : list Event
}.

(** Modelled from the spec: [framework.Session], declared in package
    [framework]: "a session object exposing a node collection with per-node
    utilization snapshots, a mechanism to register predicate and scoring
    callbacks".  Its map [Nodes] is read for logging only and is left out;
    its cache is the one of the process. *)
Record Session : Type := {
  NodeList : list NodeInfo;
  predicateFns : gmap string (TaskInfo -> NodeInfo -> option error);
  nodeOrderFns : gmap string (TaskInfo -> NodeInfo -> float * option error)
}.

(** How a call ends: normally, or with a run-time panic, which leaves only
    the state of the process behind. *)
Inductive outcome (A : Type) : Type :=
| Done (a : A)
| Panic (w : Process).
Arguments Done {A} a.
Arguments Panic {A} w.

(** The loop [for index, node := range ssn.NodeList]: every node takes the
    snapshot of the cache's node of the same name.  [Nodes] maps names to
    pointers ([map[string]*api.NodeInfo]), so a name the cache does not
    hold reads as nil and taking its [ResourceUsage] panics ([None]). *)
Fixpoint copyUsage (Nodes : gmap string NodeInfo) (nl : list NodeInfo)
  : option (list NodeInfo) :=
  match nl with
  | [] => Some []
  | node :: rest =>
      match Nodes !! api.Name node with
      | None => None
      | Some cached =>
          match copyUsage Nodes rest with
          | None => None
          | Some rest' =>
              Some ({| api.Name := api.Name node;
                       ResourceUsage := ResourceUsage cached |} :: rest')
          end
      end
  end.

Definition setPeriod (p : string) (w : Process) : Process :=
  {| Period := p; cache := cache w; trace := trace w ++ [EvSetPeriod p] |}.

Definition logError (msg : string) (w : Process) : Process :=
  {| Period := Period w; cache := cache w; trace := trace w ++ [EvLogError msg] |}.

(** Modelled from the spec: [ssn.AddPredicateFn] and [ssn.AddNodeOrderFn],
    methods of the session: "registers FilterEvaluator and ScoreEvaluator
    with the session", each under the name of the plugin. *)
Definition register (up : usagePlugin) (ssn : Session) : Session :=
  {| NodeList := NodeList ssn;
     predicateFns := <[Name up := predicateFn up]> (predicateFns ssn);
     nodeOrderFns := <[Name up := nodeOrderFn up]> (nodeOrderFns ssn) |}.

Definition withNodeList (nl : list NodeInfo) (ssn : Session) : Session :=
  {| NodeList := nl;
     predicateFns := predicateFns ssn;
     nodeOrderFns := nodeOrderFns ssn |}.

Section Plugin.

(** The metrics refresh of the scheduler cache belongs to package [cache]
    and is a parameter here: it reads [source.Period] and rewrites the
    nodes the cache holds. *)
Variable refreshNodes : string -> gmap string NodeInfo -> gmap string NodeInfo.

(** [ssn.GetCache().GetMetricsData()] *)
Definition GetMetricsData (w : Process) : Process :=
  {| Period := Period w;
     cache :=
       match cache w with
       | SchedulerCache Nodes => SchedulerCache (refreshNodes (Period w) Nodes)
       | OtherCache => OtherCache
       end;
     trace := trace w ++ [EvGetMetricsData] |}.

(** The guard of the bootstrap: the arguments have a threshold section
    and [source.Period] is still empty. *)
Definition bootstraps (up : usagePlugin) (w : Process) : bool :=
  match pluginArguments up !! thresholdSection with
  | Some _ => String.eqb (Period w) ""
  | None => false
  end.

(** The body of [if source.Period == ""]. *)
Definition bootstrap (up : usagePlugin) (ssn : Session) (w : Process)
  : outcome (Session * Process) :=
  let w := setPeriod (SamplePeriods up) w in
  let w := GetMetricsData w in
  match cache w with
  | SchedulerCache Nodes =>
      match copyUsage Nodes (NodeList ssn) with
      | Some nl => Done (withNodeList nl ssn, w)
      | None => Panic w
      end
  | OtherCache => Done (ssn, logError "chane cache to schedulerCache error" w)
  end.

(** [OnSessionOpen]: the thresholds are resolved, the bootstrap runs under
    its guard, and the two closures are registered.  The logging at the
    verbosity levels 4 and 5 is left out.  The [ok] of the assertion on
    the section is a variable of its own, so the bootstrap is guarded by
    the presence of the section (and by [source.Period]) only. *)
Definition OnSessionOpen (up : usagePlugin) (ssn : Session) (w : Process)
  : outcome (usagePlugin * Session * Process) :=
  match pluginArguments up !! thresholdSection with
  | Some argsValue =>
      let up := fold_left thresholdStep (thresholdArgs argsValue) up in
      if String.eqb (Period w) "" then
        match bootstrap up ssn w with
        | Done (ssn, w) => Done (up, register up ssn, w)
        | Panic w => Panic w
        end
      else Done (up, register up ssn, w)
  | None => Done (up, register up ssn, w)
  end.

Definition OnSessionClose (up : usagePlugin) (ssn : Session) : Session := ssn.

(** The life of a scheduler process: one plugin is built and opened per
    session, in order; a panic ends the process. *)
Fixpoint run (sessions : list (Arguments * Session)) (w : Process) : Process :=
  match sessions with
  | [] => w
  | (args, ssn) :: rest =>
      match OnSessionOpen (New args) ssn w with
      | Done (_, _, w') => run rest w'
      | Panic w' => w'
      end
  end.

(** The process once the indicator is set and the metrics are refreshed. *)
Definition refreshed (up : usagePlugin) (w : Process) : Process :=
  GetMetricsData (setPeriod (SamplePeriods up) w).

End Plugin.

(** How many times the metrics refresh was invoked. *)
Fixpoint refreshes (t : list Event) : nat :=
  match t with
  | [] => 0%nat
  | EvGetMetricsData :: t => S (refreshes t)
  | _ :: t => refreshes t
  end.

(** ** Sample data, from the example of the arguments in the source *)

Definition sampleTask : TaskInfo :=
  {| Namespace := "default"; TaskName := "job-0" |}.

Definition sampleNode (name : string) (cpu mem : float) : NodeInfo :=
  {| api.Name := name;
     ResourceUsage := {| CPUUsageAvg := {["10m" := cpu]};
                         MEMUsageAvg := {["10m" := mem]} |} |}.

(** A node for which no utilization has been sampled yet. *)
Definition freshNode (name : string) : NodeInfo :=
  {| api.Name := name;
     ResourceUsage := {| CPUUsageAvg := ∅; MEMUsageAvg := ∅ |} |}.

Definition thresholdsOf (cpu mem : value) : value :=
  VMap [(VString "cpu", cpu); (VString "mem", mem)].

Definition sampleArgs : Arguments :=
  <["usage.weight" := VInt 10]>
    (<["type" := VString "average"]>
       (<["thresholds" := thresholdsOf (VInt 70) (VInt 70)]>
          (<["period" := VString "10m"]> ∅))).

Definition samplePlugin : usagePlugin := resolveThresholds (New sampleArgs).

Definition emptySession (nl : list NodeInfo) : Session :=
  {| NodeList := nl; predicateFns := ∅; nodeOrderFns := ∅ |}.

(** A value that is an [int], as the assertion [v.(int)] sees it. *)
Definition isInt (v : value) : bool :=
  match v with VInt _ => true | _ => false end.

(** The integer the assertion [v.(int)] yields once its [ok] is discarded. *)
Definition asInt (v : value) : Z :=
  match v with VInt z => z | _ => 0 end.

(** A plugin whose arguments set the CPU threshold to -1. *)
Definition negativeThresholdArgs : Arguments :=
  <["thresholds" := VMap [(VString "cpu", VInt (-1))]]> ∅.

(** A process that has just started: no sampling period, nothing done yet. *)
Definition startedProcess (c : Cache) : Process :=
  {| Period := ""; cache := c; trace := [] |}.

(** Arguments with a threshold section and the empty sample period. *)
Definition emptyPeriodArgs : Arguments :=
  <["thresholds" := thresholdsOf (VInt 70) (VInt 70)]> (<["period" := VString ""]> ∅).

(** The score of a node whose CPU reading is [u], for the plugin with the
    weight [z] and the defaults otherwise. *)
Definition scoreOf (z : Z) (u : float) : float :=
  fst (nodeOrderFn (New (<["usage.weight" := VInt z]> ∅)) sampleTask
         (sampleNode "n" u 0)).

(** ** Binary64 rounding: the notions the proofs are stated with *)

(** Position of [N] in the interval from [m * g] to [(m + 1) * g]. *)
Definition inb (g m : Z) (l : location) (N : Z) : Prop :=
  match l with
  | loc_Exact => N = m * g
  | loc_Inexact Lt => m * g < N /\ 2 * N < (2 * m + 1) * g
  | loc_Inexact Eq => 2 * N = (2 * m + 1) * g
  | loc_Inexact Gt => (2 * m + 1) * g < 2 * N /\ N < (m + 1) * g
  end.

Definition inb_rec (g : Z) (mrs : shr_record) (N : Z) : Prop :=
  0 <= shr_m mrs /\ inb g (shr_m mrs) (loc_of_shr_record mrs) N.

(** The canonical exponent and the binary64 format *)
Definition canonical (mo : positive) (eo : Z) : Prop :=
  fexp prec emax (Zpos (digits2_pos mo) + eo) = eo.

Definition float_of_pair (s : bool) (mo : positive) (eo : Z) : spec_float :=
  if eo <=? emax - prec then S754_finite s mo eo else S754_infinity s.

Section GridDefinitions.

Variables K E : Z.

(** The spacing, in units of [2 ^ (- E) / K], of the multiples of [2 ^ e]. *)
Definition grid (e : Z) : Z := K * 2 ^ (e + E).

(** The canonical exponent of the value that [m] and [e] locate. *)
Definition cexp (m e : Z) : Z := fexp prec emax (Zdigits2 m + e).

(** [N] is given by its position [l] after [m * grid e], finely enough. *)
Definition located (m e : Z) (l : location) (N : Z) : Prop :=
  0 <= m /\ 0 <= e + E /\ e <= cexp m e /\ inb (grid e) m l N.

(** [V] is the multiple of [g] nearest to [N], the even one on a tie. *)
Definition rounds (g N V : Z) : Prop :=
  exists (m' : Z) (l' : location),
    0 <= m' /\ inb g m' l' N /\ V = round_nearest_even m' l' * g.

(** [o] is the binary64 value of magnitude [V] and sign [s]. *)
Definition represents (s : bool) (V : Z) (o : spec_float) : Prop :=
  (V = 0 /\ o = S754_zero s)
  \/ exists (mo : positive) (eo : Z),
       canonical mo eo /\ Zpos mo * grid eo = V /\ o = float_of_pair s mo eo.

(** The value infinity stands for: the first power of two out of range. *)
Definition top : Z := 2 ^ 52 * grid 972.

(** The value of a number, in units of the grid. *)
Definition sval (x : spec_float) : Z :=
  match x with
  | S754_zero _ => 0
  | S754_nan => 0
  | S754_infinity s => cond_Zopp s top
  | S754_finite s m e => cond_Zopp s (Zpos m * grid e)
  end.

Definition SFis_nan (x : spec_float) : bool :=
  match x with S754_nan => true | _ => false end.

(** Zero or finite. *)
Definition SFis_fin (x : spec_float) : bool :=
  match x with S754_zero _ | S754_finite _ _ _ => true | _ => false end.

(** [o] is the binary64 number nearest to the value of magnitude [N] and
    sign [s]. *)
Definition approx (s : bool) (N : Z) (o : spec_float) : Prop :=
  exists (m e : Z) (l : location) (V : Z),
    located m e l N /\ rounds (grid (cexp m e)) N V /\ represents s V o.

End GridDefinitions.

(** The unit in which the values of the arguments are measured. *)
Definition E0 : Z := 4096.

(** The representation of 1.0 and of 100.0 *)
Definition SFone : spec_float := S754_finite false 4503599627370496 (-52).
Definition SFhundred : spec_float := S754_finite false 7036874417766400 (-46).

(** The largest finite number *)
Definition SFmax : spec_float := S754_finite false 9007199254740991 971.

(** * Properties *)

Example samplePlugin_fields :
  (weight samplePlugin, usageType samplePlugin, SamplePeriods samplePlugin,
   cpuThresholds samplePlugin, memThresholds samplePlugin)
  = (10, "average"%string, "10m"%string, 70%float, 70%float).
Proof. vm_compute. reflexivity. Qed.

Example sample_node_a :
  predicateFn samplePlugin sampleTask (sampleNode "a" 50 40) = None
  /\ nodeOrderFn samplePlugin sampleTask (sampleNode "a" 50 40) = (500%float, None).
Proof. split; vm_compute; reflexivity. Qed.

Example sample_node_b :
  predicateFn samplePlugin sampleTask (sampleNode "b" 85 40)
  = Some (ErrCpuUsage "usage" "b" 85 70).
Proof. vm_compute. reflexivity. Qed.

(** ** Comparison of binary64 values *)

Lemma SFcompare_swap (x y : spec_float) :
  SFcompare y x = option_map CompOpp (SFcompare x y).
Proof.
  destruct x as [sx|sx| |sx mx ex], y as [sy|sy| |sy my ey]; simpl;
    try reflexivity;
    try (destruct sx; reflexivity); try (destruct sy; reflexivity);
    try (destruct sx, sy; reflexivity).
  assert (Hm : Pos.compare_cont Eq my mx = CompOpp (Pos.compare_cont Eq mx my))
    by (symmetry; apply (Pos.compare_cont_antisym mx my Eq)).
  destruct sx, sy; simpl; try reflexivity;
    rewrite (Z.compare_antisym ex ey), Hm;
    destruct (ex ?= ey); simpl; try reflexivity;
    destruct (Pos.compare_cont Eq mx my); reflexivity.
Qed.

(** Two values that compare equal are not strictly ordered, either way. *)
Lemma eqb_not_ltb (x y : float) :
  (x =? y)%float = true -> (x <? y)%float = false /\ (y <? x)%float = false.
Proof.
  rewrite FloatAxioms.eqb_spec, !FloatAxioms.ltb_spec. unfold SFeqb, SFltb.
  rewrite (SFcompare_swap (Prim2SF x) (Prim2SF y)).
  destruct (SFcompare (Prim2SF x) (Prim2SF y)) as [[]|]; simpl; intuition congruence.
Qed.

Lemma ltb_irrefl (x : float) : (x <? x)%float = false.
Proof.
  rewrite FloatAxioms.ltb_spec. unfold SFltb.
  pose proof (SFcompare_swap (Prim2SF x) (Prim2SF x)) as H.
  destruct (SFcompare (Prim2SF x) (Prim2SF x)) as [[]|]; simpl in *; congruence.
Qed.

Lemma period_nonempty (s : string) : s <> ""%string -> String.eqb s "" = false.
Proof. intros H. apply String.eqb_neq. exact H. Qed.

(** ** Binary64 rounding *)

Lemma digits2_size (p : positive) : digits2_pos p = Pos.size p.
Proof. induction p as [p IH|p IH|]; simpl; try rewrite IH; reflexivity. Qed.

Lemma digits2_bounds (p : positive) :
  2 ^ (Zpos (digits2_pos p) - 1) <= Zpos p < 2 ^ Zpos (digits2_pos p).
Proof.
  rewrite digits2_size. split.
  - pose proof (Pos.size_le p) as H.
    apply Pos2Z.pos_le_pos in H. rewrite Pos2Z.inj_pow, (Pos2Z.inj_xO p) in H.
    replace (Z.pos (Pos.size p)) with (Z.succ (Z.pos (Pos.size p) - 1)) in H by lia.
    rewrite Z.pow_succ_r in H by lia. lia.
  - pose proof (Pos.size_gt p) as H.
    apply Pos2Z.pos_lt_pos in H. rewrite Pos2Z.inj_pow in H. exact H.
Qed.

Lemma fexp_eq (e : Z) : fexp prec emax e = Z.max (e - 53) (-1074).
Proof. reflexivity. Qed.

Lemma Zdigits2_pos (p : positive) : Zdigits2 (Zpos p) = Zpos (digits2_pos p).
Proof. reflexivity. Qed.

Lemma Zdigits2_bounds (m : Z) :
  0 < m -> 0 < Zdigits2 m /\ 2 ^ (Zdigits2 m - 1) <= m < 2 ^ Zdigits2 m.
Proof.
  destruct m as [|p|p]; try lia. intros _. simpl.
  split; [lia | apply digits2_bounds].
Qed.

Lemma pow2_lt_exp (a b : Z) : 0 <= b -> 2 ^ a < 2 ^ b -> a < b.
Proof.
  intros Hb H. destruct (Z.lt_ge_cases a b) as [|Hge]; [assumption|].
  assert (2 ^ b <= 2 ^ a) by (apply Z.pow_le_mono_r; lia). lia.
Qed.

(** ** Values on a grid *)

Lemma inb_bracket (g m : Z) (l : location) (N : Z) :
  0 < g -> inb g m l N -> m * g <= N < (m + 1) * g.
Proof.
  intros Hg. destruct l as [|[]]; simpl; nia.
Qed.

Lemma shr_1_inb (g : Z) (mrs : shr_record) (N : Z) :
  0 < g -> inb_rec g mrs N -> inb_rec (2 * g) (shr_1 mrs) N.
Proof.
  intros Hg [Hm H]. destruct mrs as [m r s]. simpl in Hm.
  destruct m as [|[p|p|]|p]; try lia; destruct r, s; unfold inb_rec; simpl in *;
    rewrite ?(Pos2Z.inj_xI p), ?(Pos2Z.inj_xO p) in *; (split; [lia|]); lia.
Qed.

Lemma pow2_xO (n : positive) : 2 ^ Z.pos n~0 = 2 ^ Z.pos n * 2 ^ Z.pos n.
Proof.
  rewrite (Pos2Z.inj_xO n).
  replace (2 * Z.pos n) with (Z.pos n + Z.pos n) by lia.
  apply Z.pow_add_r; lia.
Qed.

Lemma pow2_xI (n : positive) : 2 ^ Z.pos n~1 = 2 * (2 ^ Z.pos n * 2 ^ Z.pos n).
Proof.
  rewrite (Pos2Z.inj_xI n).
  replace (2 * Z.pos n + 1) with (Z.succ (Z.pos n + Z.pos n)) by lia.
  rewrite Z.pow_succ_r, Z.pow_add_r by lia. reflexivity.
Qed.

Lemma iter_pos_shr_1_inb (n : positive) (g : Z) (mrs : shr_record) (N : Z) :
  0 < g -> inb_rec g mrs N ->
  inb_rec (2 ^ Zpos n * g) (SpecFloat.iter_pos shr_1 n mrs) N.
Proof.
  revert g mrs. induction n as [n IH|n IH|]; intros g mrs Hg H;
    simpl SpecFloat.iter_pos.
  - assert (Hp : 0 < 2 ^ Z.pos n) by (apply Z.pow_pos_nonneg; lia).
    apply shr_1_inb in H; [|exact Hg].
    apply IH in H; [|lia]. apply IH in H; [|nia].
    rewrite pow2_xI.
    replace (2 * (2 ^ Z.pos n * 2 ^ Z.pos n) * g)
      with (2 ^ Z.pos n * (2 ^ Z.pos n * (2 * g))) by ring.
    exact H.
  - assert (Hp : 0 < 2 ^ Z.pos n) by (apply Z.pow_pos_nonneg; lia).
    apply IH in H; [|lia]. apply IH in H; [|nia].
    rewrite pow2_xO.
    replace (2 ^ Z.pos n * 2 ^ Z.pos n * g)
      with (2 ^ Z.pos n * (2 ^ Z.pos n * g)) by ring.
    exact H.
  - apply shr_1_inb in H; [|exact Hg]. exact H.
Qed.

Lemma Zdigits2_unique (m d : Z) :
  0 < d -> 2 ^ (d - 1) <= m < 2 ^ d -> Zdigits2 m = d.
Proof.
  intros Hd [Hlo Hhi].
  assert (Hm : 0 < m) by (pose proof (Z.pow_pos_nonneg 2 (d - 1)); lia).
  destruct (Zdigits2_bounds m Hm) as (Hd' & Hlo' & Hhi').
  assert (d - 1 < Zdigits2 m) by (apply pow2_lt_exp; lia).
  assert (Zdigits2 m - 1 < d) by (apply pow2_lt_exp; lia).
  lia.
Qed.

Lemma Zdigits2_nonneg (m : Z) : 0 <= Zdigits2 m.
Proof. destruct m; simpl; lia. Qed.

Lemma loc_of_record_of_loc (m : Z) (l : location) :
  shr_m (shr_record_of_loc m l) = m
  /\ loc_of_shr_record (shr_record_of_loc m l) = l.
Proof. destruct l as [|[]]; split; reflexivity. Qed.

Lemma rne_cases (m : Z) (l : location) :
  round_nearest_even m l = m \/ round_nearest_even m l = m + 1.
Proof.
  destruct l as [|[]]; simpl; auto. destruct (Z.even m); auto.
Qed.

(** A value has one position only on a grid. *)
Lemma inb_unique (g m1 m2 : Z) (l1 l2 : location) (N : Z) :
  0 < g -> inb g m1 l1 N -> inb g m2 l2 N -> m1 = m2 /\ l1 = l2.
Proof.
  intros Hg H1 H2.
  assert (Hm : m1 = m2).
  { apply (inb_bracket g m1 l1 N Hg) in H1 as B1.
    apply (inb_bracket g m2 l2 N Hg) in H2 as B2. nia. }
  subst m2. split; [reflexivity|].
  destruct l1 as [|[]], l2 as [|[]]; simpl in *; try reflexivity; exfalso; lia.
Qed.

Lemma canonical_bounds (mo : positive) (eo : Z) :
  canonical mo eo ->
  -1074 <= eo /\ Zpos mo < 2 ^ 53 /\ (-1074 < eo -> 2 ^ 52 <= Zpos mo).
Proof.
  unfold canonical. rewrite fexp_eq. intros H.
  pose proof (digits2_bounds mo) as [Hlo Hhi].
  assert (Hd : Zpos (digits2_pos mo) <= 53) by lia.
  split; [lia|]. split.
  - assert (2 ^ Zpos (digits2_pos mo) <= 2 ^ 53) by (apply Z.pow_le_mono_r; lia). lia.
  - intros He. assert (Zpos (digits2_pos mo) = 53) as Hd53 by lia.
    rewrite Hd53 in Hlo. exact Hlo.
Qed.

Lemma valid_canonical (s : bool) (m : positive) (e : Z) :
  valid_binary (S754_finite s m e) = true <-> canonical m e /\ e <= 971.
Proof.
  unfold SpecFloat.valid_binary, bounded, canonical_mantissa, canonical.
  rewrite andb_true_iff, Z.eqb_eq, Z.leb_le. reflexivity.
Qed.

Lemma float_of_pair_valid (s : bool) (mo : positive) (eo : Z) :
  canonical mo eo -> valid_binary (float_of_pair s mo eo) = true.
Proof.
  intros Hc. unfold float_of_pair. destruct (Z.leb_spec eo (emax - prec)) as [H|H].
  - apply valid_canonical. split; [exact Hc|exact H].
  - reflexivity.
Qed.

Lemma iter_xO (p d : positive) : Zpos (Pos.iter xO p d) = Zpos p * 2 ^ Zpos d.
Proof.
  induction d as [|d IH] using Pos.peano_ind.
  - simpl. rewrite (Pos2Z.inj_xO p). lia.
  - rewrite Pos.iter_succ, (Pos2Z.inj_xO (Pos.iter xO p d)), IH, Pos2Z.inj_succ.
    rewrite Z.pow_succ_r by lia. ring.
Qed.

(** The mantissa [shl_align] returns, for a target exponent not above [e]. *)
Lemma shl_align_le (m : positive) (e e' : Z) :
  e' <= e ->
  Zpos (fst (shl_align m e e')) = Zpos m * 2 ^ (e - e')
  /\ snd (shl_align m e e') = e'.
Proof.
  intros Hle. unfold shl_align. destruct (e' - e) as [|d|d] eqn:Hd; try lia.
  - simpl. replace (e - e') with 0 by lia. split; lia.
  - simpl. rewrite iter_xO. replace (e - e') with (Z.pos d) by lia. split; reflexivity.
Qed.

Lemma shl_align_gt (m : positive) (e e' : Z) :
  e < e' -> shl_align m e e' = (m, e).
Proof.
  intros Hlt. unfold shl_align. destruct (e' - e) as [|d|d] eqn:Hd; try lia. reflexivity.
Qed.

Lemma Zdigits2_shift (m k : Z) :
  0 < m -> 0 <= k -> Zdigits2 (m * 2 ^ k) = Zdigits2 m + k.
Proof.
  intros Hm Hk. destruct (Zdigits2_bounds m Hm) as (Hd & Hlo & Hhi).
  assert (Hp : 0 < 2 ^ k) by (apply Z.pow_pos_nonneg; lia).
  apply Zdigits2_unique; [lia|].
  replace (Zdigits2 m + k - 1) with (Zdigits2 m - 1 + k) by lia.
  rewrite !Z.pow_add_r by lia. nia.
Qed.

Section Grid.

Variables K E : Z.
Hypothesis K_pos : 0 < K.
Hypothesis E_big : 1074 <= E.

Local Abbreviation grid := (grid K E).
Local Abbreviation located := (located K E).
Local Abbreviation represents := (represents K E).
Local Abbreviation top := (top K E).
Local Abbreviation sval := (sval K E).
Local Abbreviation approx := (approx K E).

Lemma grid_pos (e : Z) : 0 <= e + E -> 0 < grid e.
Proof.
  intros H. unfold grid. apply Z.mul_pos_pos; [exact K_pos|].
  apply Z.pow_pos_nonneg; lia.
Qed.

Lemma grid_shift (e n : Z) : 0 <= e + E -> 0 <= n -> grid (e + n) = 2 ^ n * grid e.
Proof.
  intros He Hn. unfold grid.
  replace (e + n + E) with (n + (e + E)) by lia.
  rewrite Z.pow_add_r by lia. ring.
Qed.

Lemma grid_le (e1 e2 : Z) : 0 <= e1 + E -> e1 <= e2 -> grid e1 <= grid e2.
Proof.
  intros H1 H12. unfold grid. apply Z.mul_le_mono_nonneg_l; [lia|].
  apply Z.pow_le_mono_r; lia.
Qed.

(** [m * grid e1 < 2 ^ k * grid e2] compares the exponents when [m] has
    enough digits. *)
Lemma grid_pow_lt (a b e1 e2 : Z) :
  0 <= a -> 0 <= b -> 0 <= e1 + E -> 0 <= e2 + E ->
  2 ^ a * grid e1 < 2 ^ b * grid e2 -> a + e1 < b + e2.
Proof.
  intros Ha Hb H1 H2 H. unfold grid in H.
  assert (H' : 2 ^ (a + (e1 + E)) < 2 ^ (b + (e2 + E))).
  { rewrite (Z.pow_add_r 2 a (e1 + E)), (Z.pow_add_r 2 b (e2 + E)) by lia. nia. }
  apply pow2_lt_exp in H'; lia.
Qed.

Lemma shr_fexp_inb (m e : Z) (l : location) (N : Z) :
  0 <= m -> 0 <= e + E -> inb (grid e) m l N ->
  exists mrs : shr_record,
    shr_fexp prec emax m e l
    = (mrs, Z.max e (fexp prec emax (Zdigits2 m + e)))
    /\ inb_rec (grid (Z.max e (fexp prec emax (Zdigits2 m + e)))) mrs N
    /\ (fexp prec emax (Zdigits2 m + e) <= e -> mrs = shr_record_of_loc m l).
Proof.
  intros Hm He H. unfold shr_fexp, shr.
  set (c := fexp prec emax (Zdigits2 m + e)).
  destruct (loc_of_record_of_loc m l) as [Hrm Hrl].
  assert (H0 : inb_rec (grid e) (shr_record_of_loc m l) N).
  { unfold inb_rec. rewrite Hrm, Hrl. split; assumption. }
  destruct (c - e) as [|p|p] eqn:Hce.
  - exists (shr_record_of_loc m l). replace (Z.max e c) with e by lia. auto.
  - exists (SpecFloat.iter_pos shr_1 p (shr_record_of_loc m l)).
    replace (Z.max e c) with (e + Z.pos p) by lia.
    split; [reflexivity|]. split; [|lia].
    rewrite grid_shift by lia. apply iter_pos_shr_1_inb; [apply grid_pos; lia|exact H0].
  - exists (shr_record_of_loc m l). replace (Z.max e c) with e by lia. auto.
Qed.

Lemma cexp_ge (m e : Z) : -1074 <= cexp m e.
Proof. unfold cexp. rewrite fexp_eq. lia. Qed.

Lemma located_magnitude (m e : Z) (l : location) (N m' : Z) (l' : location) :
  located m e l N -> 0 <= m' -> inb (grid (cexp m e)) m' l' N ->
  (m' = 0 -> cexp m e = -1074)
  /\ (0 < m' -> 0 < m /\ Zdigits2 m' + cexp m e = Zdigits2 m + e).
Proof.
  intros (Hm & He & HP & Hin) Hm' Hin'.
  pose proof (cexp_ge m e) as Hc.
  assert (Hge : 0 < grid e) by (apply grid_pos; lia).
  assert (Hgc : 0 < grid (cexp m e)) by (apply grid_pos; lia).
  apply (inb_bracket _ _ _ _ Hge) in Hin as [Blo Bhi].
  apply (inb_bracket _ _ _ _ Hgc) in Hin' as [Blo' Bhi'].
  pose proof (Zdigits2_nonneg m) as Hd.
  assert (Hup : N < 2 ^ Zdigits2 m * grid e).
  { destruct (Z.eq_dec m 0) as [->|Hne]; [simpl in *; lia|].
    destruct (Zdigits2_bounds m) as (_ & _ & Hhi); [lia|]. nia. }
  split.
  - intros ->. destruct (Z.eq_dec m 0) as [->|Hne].
    + unfold cexp in *. rewrite fexp_eq in *. simpl Zdigits2 in *. lia.
    + destruct (Zdigits2_bounds m) as (Hdp & Hlo & _); [lia|].
      assert (H : 2 ^ (Zdigits2 m - 1) * grid e < 2 ^ 0 * grid (cexp m e))
        by (change (2 ^ 0) with 1; nia).
      apply grid_pow_lt in H; try lia.
      unfold cexp in *. rewrite fexp_eq in *. lia.
  - intros Hpos.
    assert (Hmpos : 0 < m).
    { destruct (Z.eq_dec m 0) as [->|Hne]; [|lia]. exfalso.
      assert (grid e <= grid (cexp 0 e)) by (apply grid_le; lia).
      simpl in Bhi. nia. }
    split; [exact Hmpos|].
    destruct (Zdigits2_bounds m Hmpos) as (Hdp & Hlo & Hhi).
    destruct (Zdigits2_bounds m' Hpos) as (Hdp' & Hlo' & Hhi').
    assert (H1 : 2 ^ (Zdigits2 m' - 1) * grid (cexp m e) < 2 ^ Zdigits2 m * grid e) by nia.
    assert (H2 : 2 ^ (Zdigits2 m - 1) * grid e < 2 ^ Zdigits2 m' * grid (cexp m e)) by nia.
    apply grid_pow_lt in H1; try lia. apply grid_pow_lt in H2; try lia.
Qed.

Lemma Zpos_ex (z : Z) : 0 < z -> exists p : positive, z = Zpos p.
Proof. destruct z as [|p|p]; try lia. intros _. exists p. reflexivity. Qed.

Lemma record_exact_m (m : Z) : shr_m (shr_record_of_loc m loc_Exact) = m.
Proof. reflexivity. Qed.

(** What [binary_round_aux] returns: the value that is nearest on the grid
    of the canonical exponent, in the binary64 format. *)
Lemma binary_round_aux_spec (s : bool) (m e : Z) (l : location) (N : Z) :
  located m e l N ->
  exists V : Z,
    rounds (grid (cexp m e)) N V
    /\ represents s V (binary_round_aux prec emax s m e l).
Proof.
  intros Hloc. pose proof Hloc as (Hm & He & HP & Hin).
  pose proof (cexp_ge m e) as Hc.
  destruct (shr_fexp_inb m e l N Hm He Hin) as (mrs' & Hshr & [Hm' Hin'] & _).
  fold (cexp m e) in Hshr, Hin'.
  replace (Z.max e (cexp m e)) with (cexp m e) in Hshr, Hin' by lia.
  destruct (located_magnitude m e l N _ _ Hloc Hm' Hin') as [Hzero Hpos].
  set (c := cexp m e) in *.
  set (m' := shr_m mrs') in *. set (l' := loc_of_shr_record mrs') in *.
  set (m1 := round_nearest_even m' l').
  assert (Hgc : 0 < grid c) by (apply grid_pos; lia).
  exists (m1 * grid c). split; [exists m', l'; auto|].
  unfold binary_round_aux. rewrite Hshr. fold m' l' m1.
  assert (Hm1 : 0 <= m1) by (destruct (rne_cases m' l'); unfold m1; lia).
  destruct (shr_fexp_inb m1 c loc_Exact (m1 * grid c) Hm1 ltac:(lia) eq_refl)
    as (mrs'' & Hshr2 & [Hmo Hino] & Hsame).
  rewrite Hshr2. clear Hshr Hshr2.
  set (f2 := fexp prec emax (Zdigits2 m1 + c)) in *.
  assert (Hpair : forall p : positive,
             m1 = Zpos p -> f2 = c -> 
             represents s (m1 * grid c)
               match shr_m mrs'' with
               | 0 => S754_zero s
               | Z.pos m0 =>
                   if Z.max c f2 <=? emax - prec
                   then S754_finite s m0 (Z.max c f2) else S754_infinity s
               | Z.neg _ => S754_nan
               end).
  { intros p Hp Hf. rewrite Hsame by lia. rewrite record_exact_m, Hp.
    replace (Z.max c f2) with c by lia.
    right. exists p, c. split; [|split; reflexivity].
    unfold canonical. rewrite <- Zdigits2_pos, <- Hp. exact Hf. }
  destruct (Z.eq_dec m' 0) as [Hz|Hnz].
  - (* the value is below the smallest positive number *)
    specialize (Hzero Hz).
    destruct (rne_cases m' l') as [H1|H1]; fold m1 in H1; rewrite Hz in H1.
    + rewrite Hsame by (unfold f2; rewrite H1, fexp_eq; simpl; lia).
      rewrite record_exact_m, H1. left. split; [lia|reflexivity].
    + apply (Hpair 1%positive H1). unfold f2. rewrite H1, fexp_eq. simpl. lia.
  - assert (Hm'pos : 0 < m') by lia. destruct (Hpos Hm'pos) as [Hmpos Hdig].
    destruct (Zdigits2_bounds m' Hm'pos) as (Hd' & Hlo' & Hhi').
    assert (Hfc : fexp prec emax (Zdigits2 m' + c) = c) by (rewrite Hdig; reflexivity).
    destruct (Z_lt_ge_dec m1 (2 ^ Zdigits2 m')) as [Hlt|Hge].
    + (* no carry *)
      assert (Hd1 : Zdigits2 m1 = Zdigits2 m').
      { apply Zdigits2_unique; [lia|]. destruct (rne_cases m' l') as [Hr|Hr]; fold m1 in Hr; lia. }
      destruct (Zpos_ex m1) as [p Hp];
        [destruct (rne_cases m' l') as [Hr|Hr]; fold m1 in Hr; lia|].
      apply (Hpair p Hp). unfold f2. rewrite Hd1. exact Hfc.
    + (* the mantissa carries into one more digit *)
      assert (H1 : m1 = 2 ^ Zdigits2 m')
        by (destruct (rne_cases m' l') as [Hr|Hr]; fold m1 in Hr; lia).
      assert (Hd1 : Zdigits2 m1 = Zdigits2 m' + 1).
      { apply Zdigits2_unique; [lia|]. rewrite H1.
        replace (Zdigits2 m' + 1 - 1) with (Zdigits2 m') by lia.
        split; [lia|]. apply Z.pow_lt_mono_r; lia. }
      destruct (Z_le_gt_dec f2 c) as [Hle|Hgt].
      * destruct (Zpos_ex m1) as [p Hp]; [lia|].
        apply (Hpair p Hp). unfold f2 in *. rewrite Hd1 in *.
        rewrite fexp_eq in *. lia.
      * assert (Hf2 : f2 = c + 1)
          by (unfold f2 in *; rewrite Hd1 in *; rewrite fexp_eq in *; lia).
        assert (Hd53 : Zdigits2 m' = 53)
          by (unfold f2 in *; rewrite Hd1 in *; rewrite fexp_eq in *; lia).
        replace (Z.max c f2) with (c + 1) in * by lia.
        assert (HV : m1 * grid c = 2 ^ 52 * grid (c + 1)).
        { rewrite H1, Hd53, grid_shift by lia. change (2 ^ 53) with (2 ^ 52 * 2 ^ 1). ring. }
        assert (Hg1 : 0 < grid (c + 1)) by (apply grid_pos; lia).
        rewrite HV in Hino.
        destruct (inb_unique (grid (c + 1)) _ (2 ^ 52) _ loc_Exact _ Hg1 Hino eq_refl)
          as [Hmo52 _].
        rewrite Hmo52, HV. change (2 ^ 52) with (Zpos 4503599627370496).
        right. exists 4503599627370496%positive, (c + 1).
        split; [|split; reflexivity].
        unfold canonical. change (Z.pos (digits2_pos 4503599627370496)) with 53.
        rewrite fexp_eq. lia.
Qed.

(** Rounding to nearest on one grid is monotone. *)
Lemma rounds_mono_grid (g Na Va Nb Vb : Z) :
  0 < g -> rounds g Na Va -> rounds g Nb Vb -> Na <= Nb -> Va <= Vb.
Proof.
  intros Hg (ma & la & Hma & Ha & ->) (mb & lb & Hmb & Hb & ->) Hle.
  pose proof (inb_bracket _ _ _ _ Hg Ha) as [Alo Ahi].
  pose proof (inb_bracket _ _ _ _ Hg Hb) as [Blo Bhi].
  assert (Hm : ma <= mb) by nia.
  apply Z.mul_le_mono_nonneg_r; [lia|].
  destruct (Z.eq_dec ma mb) as [->|Hne].
  - destruct la as [|[]], lb as [|[]]; simpl in *; try lia;
      destruct (Z.even mb); lia.
  - destruct (rne_cases ma la), (rne_cases mb lb); lia.
Qed.

Lemma rounds_zero (g V : Z) : 0 < g -> rounds g 0 V -> V = 0.
Proof.
  intros Hg (m & l & Hm & H & ->).
  destruct (inb_unique g m 0 l loc_Exact 0 Hg H eq_refl) as [-> ->]. reflexivity.
Qed.

Lemma rounds_nonneg (g N V : Z) : 0 < g -> rounds g N V -> 0 <= V.
Proof.
  intros Hg (m & l & Hm & H & ->). destruct (rne_cases m l); nia.
Qed.

(** The rounded value does not pass the next power of two. *)
Lemma rounds_upper (m e : Z) (l : location) (N V : Z) :
  located m e l N -> rounds (grid (cexp m e)) N V ->
  V <= grid (Z.max (Zdigits2 m + e) (cexp m e)).
Proof.
  intros (Hm & He & HP & Hin) (m' & l' & Hm' & Hin' & ->).
  pose proof (cexp_ge m e) as Hc. pose proof (Zdigits2_nonneg m) as Hd.
  set (c := cexp m e) in *. set (M := Z.max (Zdigits2 m + e) c).
  assert (Hge : 0 < grid e) by (apply grid_pos; lia).
  assert (Hgc : 0 < grid c) by (apply grid_pos; lia).
  apply (inb_bracket _ _ _ _ Hge) in Hin as [Blo Bhi].
  apply (inb_bracket _ _ _ _ Hgc) in Hin' as [Blo' Bhi'].
  assert (HM : grid M = 2 ^ (M - c) * grid c).
  { rewrite <- grid_shift by lia. f_equal. lia. }
  assert (Hup : N < grid M).
  { assert (N < grid (e + Zdigits2 m)).
    { rewrite grid_shift by lia.
      destruct (Z.eq_dec m 0) as [->|Hne]; [simpl in *; lia|].
      destruct (Zdigits2_bounds m) as (_ & _ & Hhi); [lia|]. nia. }
    assert (grid (e + Zdigits2 m) <= grid M) by (apply grid_le; lia). lia. }
  assert (Hp : 0 < 2 ^ (M - c)) by (apply Z.pow_pos_nonneg; lia).
  assert (m' + 1 <= 2 ^ (M - c)) by nia.
  rewrite HM. destruct (rne_cases m' l') as [->| ->]; nia.
Qed.

(** The rounded value is not below the power of two under the value. *)
Lemma rounds_lower (m e : Z) (l : location) (N V : Z) :
  located m e l N -> rounds (grid (cexp m e)) N V ->
  0 < m -> cexp m e < Zdigits2 m + e ->
  grid (Zdigits2 m + e - 1) <= V.
Proof.
  intros (Hm & He & HP & Hin) (m' & l' & Hm' & Hin' & ->) Hmpos Hlt.
  pose proof (cexp_ge m e) as Hc.
  set (c := cexp m e) in *. set (M := Zdigits2 m + e - 1).
  assert (Hge : 0 < grid e) by (apply grid_pos; lia).
  assert (Hgc : 0 < grid c) by (apply grid_pos; lia).
  apply (inb_bracket _ _ _ _ Hge) in Hin as [Blo Bhi].
  apply (inb_bracket _ _ _ _ Hgc) in Hin' as [Blo' Bhi'].
  destruct (Zdigits2_bounds m Hmpos) as (Hdp & Hlo & Hhi).
  assert (HM : grid M = 2 ^ (M - c) * grid c).
  { rewrite <- grid_shift by lia. f_equal. lia. }
  assert (HM' : grid M = 2 ^ (Zdigits2 m - 1) * grid e).
  { rewrite <- grid_shift by lia. f_equal. lia. }
  assert (Hp : 0 < 2 ^ (M - c)) by (apply Z.pow_pos_nonneg; lia).
  assert (grid M <= N) by nia.
  assert (2 ^ (M - c) <= m') by nia.
  rewrite HM. destruct (rne_cases m' l') as [->| ->]; nia.
Qed.

(** Rounding is monotone, whatever the two values are located by. *)
Lemma rounds_mono (ma ea : Z) (la : location) (Na Va : Z)
  (mb eb : Z) (lb : location) (Nb Vb : Z) :
  located ma ea la Na -> rounds (grid (cexp ma ea)) Na Va ->
  located mb eb lb Nb -> rounds (grid (cexp mb eb)) Nb Vb ->
  Na <= Nb -> Va <= Vb.
Proof.
  intros Hla Hra Hlb Hrb Hle.
  pose proof Hla as (Hma & Hea & HPa & Hina).
  pose proof Hlb as (Hmb & Heb & HPb & Hinb).
  pose proof (cexp_ge ma ea) as Hca. pose proof (cexp_ge mb eb) as Hcb.
  pose proof (Zdigits2_nonneg ma) as Hda. pose proof (Zdigits2_nonneg mb) as Hdb.
  assert (Hgea : 0 < grid ea) by (apply grid_pos; lia).
  assert (Hgeb : 0 < grid eb) by (apply grid_pos; lia).
  pose proof (inb_bracket _ _ _ _ Hgea Hina) as [Alo Ahi].
  pose proof (inb_bracket _ _ _ _ Hgeb Hinb) as [Blo Bhi].
  assert (Hupb : Nb < 2 ^ Zdigits2 mb * grid eb).
  { destruct (Z.eq_dec mb 0) as [->|Hne]; [simpl in *; lia|].
    destruct (Zdigits2_bounds mb) as (_ & _ & Hhi); [lia|]. nia. }
  assert (Hmag : ma = 0 \/ Zdigits2 ma + ea <= Zdigits2 mb + eb).
  { destruct (Z.eq_dec ma 0) as [|Hne]; [left; assumption|right].
    destruct (Zdigits2_bounds ma) as (Hdp & Hlo & _); [lia|].
    assert (H : 2 ^ (Zdigits2 ma - 1) * grid ea < 2 ^ Zdigits2 mb * grid eb) by nia.
    apply grid_pow_lt in H. all: lia. }
  assert (Hc : cexp ma ea <= cexp mb eb).
  { destruct Hmag as [->|Hmag].
    - unfold cexp in *. rewrite !fexp_eq in *. simpl Zdigits2 in *. lia.
    - unfold cexp in *. rewrite !fexp_eq in *. lia. }
  destruct (Z.eq_dec (cexp ma ea) (cexp mb eb)) as [Heq|Hne].
  - rewrite Heq in Hra.
    apply (rounds_mono_grid (grid (cexp mb eb)) Na Va Nb Vb); try assumption.
    apply grid_pos; lia.
  - assert (Hmbpos : 0 < mb).
    { destruct (Z.eq_dec mb 0) as [->|]; [|lia]. exfalso.
      unfold cexp in *. rewrite !fexp_eq in *. simpl Zdigits2 in *. lia. }
    assert (Hltb : cexp mb eb < Zdigits2 mb + eb)
      by (unfold cexp in *; rewrite !fexp_eq in *; lia).
    pose proof (rounds_upper _ _ _ _ _ Hla Hra) as HU.
    pose proof (rounds_lower _ _ _ _ _ Hlb Hrb Hmbpos Hltb) as HL.
    assert (grid (Z.max (Zdigits2 ma + ea) (cexp ma ea)) <= grid (Zdigits2 mb + eb - 1)).
    { apply grid_le; [lia|].
      destruct Hmag as [->|Hmag]; unfold cexp in *; rewrite !fexp_eq in *;
        simpl Zdigits2 in *; lia. }
    lia.
Qed.

(** ** The order of binary64 values *)

Lemma pair_lt (ma : positive) (ea : Z) (mb : positive) (eb : Z) :
  canonical ma ea -> canonical mb eb -> ea < eb ->
  Zpos ma * grid ea < Zpos mb * grid eb.
Proof.
  intros Ha Hb Hlt.
  destruct (canonical_bounds _ _ Ha) as (Hea & Hma & _).
  destruct (canonical_bounds _ _ Hb) as (Heb & _ & Hmb). specialize (Hmb ltac:(lia)).
  assert (Hg : 0 < grid ea) by (apply grid_pos; lia).
  assert (H2 : 2 * grid ea <= grid eb).
  { change 2 with (2 ^ 1) at 1. rewrite <- grid_shift by lia. apply grid_le; lia. }
  change (2 ^ 53) with (2 * 2 ^ 52) in Hma. nia.
Qed.

Lemma pair_compare (ma : positive) (ea : Z) (mb : positive) (eb : Z) :
  canonical ma ea -> canonical mb eb ->
  (Zpos ma * grid ea ?= Zpos mb * grid eb)
  = match ea ?= eb with
    | Lt => Lt
    | Gt => Gt
    | Eq => Pos.compare_cont Eq ma mb
    end.
Proof.
  intros Ha Hb. destruct (Z.compare_spec ea eb) as [->|Hlt|Hgt].
  - destruct (canonical_bounds _ _ Hb) as (Heb & _).
    rewrite <- Zmult_compare_compat_r by (pose proof (grid_pos eb); lia).
    reflexivity.
  - apply Z.compare_lt_iff. apply pair_lt; assumption.
  - apply Z.compare_gt_iff. apply pair_lt; assumption.
Qed.

Lemma canonical_top : canonical 4503599627370496 972.
Proof. reflexivity. Qed.

Lemma top_pos : 0 < top.
Proof. unfold top. pose proof (grid_pos 972). lia. Qed.

Lemma finite_below_top (m : positive) (e : Z) :
  canonical m e -> e <= 971 -> 0 < Zpos m * grid e < top.
Proof.
  intros Hc He. destruct (canonical_bounds _ _ Hc) as (Hlo & _).
  split; [pose proof (grid_pos e); lia|].
  apply (pair_lt m e 4503599627370496 972 Hc canonical_top). lia.
Qed.

Lemma sval_fin_bounds (x : spec_float) :
  valid_binary x = true -> SFis_fin x = true -> - top < sval x < top.
Proof.
  pose proof top_pos. destruct x as [s|s| |s m e]; try discriminate; intros Hv _.
  - simpl. lia.
  - apply valid_canonical in Hv as [Hc He].
    pose proof (finite_below_top m e Hc He). destruct s; simpl; lia.
Qed.

Lemma sval_bounds (x : spec_float) :
  valid_binary x = true -> - top <= sval x <= top.
Proof.
  pose proof top_pos. intros Hv. destruct x as [s|s| |s m e].
  - simpl; lia.
  - destruct s; simpl; lia.
  - simpl; lia.
  - pose proof (sval_fin_bounds (S754_finite s m e) Hv eq_refl). lia.
Qed.

(** On valid numbers [SFcompare] compares the values. *)
Lemma SFcompare_sval (x y : spec_float) :
  valid_binary x = true -> valid_binary y = true ->
  SFis_nan x = false -> SFis_nan y = false ->
  SFcompare x y = Some (sval x ?= sval y).
Proof.
  intros Hx Hy Hnx Hny. pose proof top_pos as Ht.
  destruct x as [sx|sx| |sx mx ex]; try discriminate Hnx;
    destruct y as [sy|sy| |sy my ey]; try discriminate Hny.
  all: try (apply valid_canonical in Hx as [Hcx Hex];
            pose proof (finite_below_top mx ex Hcx Hex) as Hbx).
  all: try (apply valid_canonical in Hy as [Hcy Hey];
            pose proof (finite_below_top my ey Hcy Hey) as Hby).
  all: simpl SFcompare; simpl sval.
  all: try (destruct sx); try (destruct sy); simpl cond_Zopp;
    try (rewrite Z.compare_opp); try (rewrite pair_compare by assumption).
  all: try (symmetry; f_equal;
            first [ apply Z.compare_eq_iff; lia
                  | apply Z.compare_lt_iff; lia
                  | apply Z.compare_gt_iff; lia ]).
  - rewrite (Z.compare_antisym ex ey).
    assert (Hm : Pos.compare_cont Eq my mx = CompOpp (Pos.compare_cont Eq mx my))
      by (symmetry; apply (Pos.compare_cont_antisym mx my Eq)).
    rewrite Hm. destruct (ex ?= ey); reflexivity.
Qed.

Lemma SFleb_sval (x y : spec_float) :
  valid_binary x = true -> valid_binary y = true ->
  SFis_nan x = false -> SFis_nan y = false ->
  SFleb x y = true <-> sval x <= sval y.
Proof.
  intros Hx Hy Hnx Hny. unfold SFleb. rewrite (SFcompare_sval x y) by assumption.
  destruct (Z.compare_spec (sval x) (sval y)); split; intros; try lia; try reflexivity;
    try discriminate.
Qed.

Lemma SFltb_sval (x y : spec_float) :
  valid_binary x = true -> valid_binary y = true ->
  SFis_nan x = false -> SFis_nan y = false ->
  SFltb x y = true <-> sval x < sval y.
Proof.
  intros Hx Hy Hnx Hny. unfold SFltb. rewrite (SFcompare_sval x y) by assumption.
  destruct (Z.compare_spec (sval x) (sval y)); split; intros; try lia; try reflexivity;
    try discriminate.
Qed.

(** The number a rounded value is represented by. *)
Lemma represents_sval (s : bool) (V : Z) (o : spec_float) :
  0 <= V -> represents s V o ->
  valid_binary o = true /\ SFis_nan o = false
  /\ sval o = cond_Zopp s (Z.min V top)
  /\ (o = S754_zero s \/ o = S754_infinity s \/ exists m e, o = S754_finite s m e).
Proof.
  intros HV [[-> ->]|(mo & eo & Hc & <- & ->)]; pose proof top_pos.
  - repeat split; auto. simpl. rewrite Z.min_l by lia. destruct s; reflexivity.
  - split; [apply float_of_pair_valid; exact Hc|].
    unfold float_of_pair. change (emax - prec) with 971.
    destruct (Z.leb_spec eo 971) as [He|He].
    + pose proof (finite_below_top mo eo Hc He).
      repeat split; eauto. simpl. rewrite Z.min_l by lia. reflexivity.
    + repeat split; auto. simpl.
      destruct (canonical_bounds _ _ Hc) as (_ & _ & Hmo). specialize (Hmo ltac:(lia)).
      assert (grid 972 <= grid eo) by (apply grid_le; lia).
      assert (0 < grid 972) by (apply grid_pos; lia).
      rewrite Z.min_r; [reflexivity|]. unfold top. nia.
Qed.

Lemma located_nonneg (m e : Z) (l : location) (N : Z) : located m e l N -> 0 <= N.
Proof.
  intros (Hm & He & _ & Hin).
  apply inb_bracket in Hin; [|apply grid_pos; lia].
  pose proof (grid_pos e He). nia.
Qed.

Lemma approx_sval (s : bool) (N : Z) (o : spec_float) :
  approx s N o ->
  exists V : Z,
    0 <= N /\ 0 <= V
    /\ (forall m e l, located m e l N -> rounds (grid (cexp m e)) N V)
    /\ valid_binary o = true /\ SFis_nan o = false
    /\ sval o = cond_Zopp s (Z.min V top).
Proof.
  intros (m & e & l & V & Hl & Hr & Hrep).
  pose proof (cexp_ge m e) as Hc.
  assert (Hg : 0 < grid (cexp m e)) by (apply grid_pos; lia).
  pose proof (rounds_nonneg _ _ _ Hg Hr) as HV.
  destruct (represents_sval s V o HV Hrep) as (Hv & Hn & Hs & _).
  exists V. repeat split; try assumption; [exact (located_nonneg _ _ _ _ Hl)|].
  intros m2 e2 l2 Hl2.
  pose proof (cexp_ge m2 e2) as Hc2.
  assert (Hg2 : 0 < grid (cexp m2 e2)) by (apply grid_pos; lia).
  (* the rounding on the other grid exists and is the same value *)
  destruct Hl2 as (Hm2 & He2 & HP2 & Hin2).
  destruct (shr_fexp_inb m2 e2 l2 N Hm2 He2 Hin2) as (mrs & _ & [Hm' Hin'] & _).
  fold (cexp m2 e2) in Hin'. replace (Z.max e2 (cexp m2 e2)) with (cexp m2 e2) in Hin' by lia.
  set (V2 := round_nearest_even (shr_m mrs) (loc_of_shr_record mrs) * grid (cexp m2 e2)).
  assert (Hr2 : rounds (grid (cexp m2 e2)) N V2) by (exists (shr_m mrs), (loc_of_shr_record mrs); auto).
  assert (Hl2 : located m2 e2 l2 N) by (repeat split; assumption).
  pose proof (rounds_mono _ _ _ _ _ _ _ _ _ _ Hl Hr Hl2 Hr2 ltac:(lia)).
  pose proof (rounds_mono _ _ _ _ _ _ _ _ _ _ Hl2 Hr2 Hl Hr ltac:(lia)).
  replace V with V2 by lia. exact Hr2.
Qed.

(** Rounding is monotone on signed values. *)
Lemma approx_le (sa : bool) (Na : Z) (oa : spec_float)
  (sb : bool) (Nb : Z) (ob : spec_float) :
  approx sa Na oa -> approx sb Nb ob ->
  cond_Zopp sa Na <= cond_Zopp sb Nb ->
  SFleb oa ob = true.
Proof.
  intros Ha Hb Hle.
  destruct Ha as (ma & ea & la & Va & Hla & Hra & Hrepa).
  destruct Hb as (mb & eb & lb & Vb & Hlb & Hrb & Hrepb).
  pose proof (cexp_ge ma ea) as Hca. pose proof (cexp_ge mb eb) as Hcb.
  assert (Hga : 0 < grid (cexp ma ea)) by (apply grid_pos; lia).
  assert (Hgb : 0 < grid (cexp mb eb)) by (apply grid_pos; lia).
  pose proof (rounds_nonneg _ _ _ Hga Hra) as HVa.
  pose proof (rounds_nonneg _ _ _ Hgb Hrb) as HVb.
  pose proof (located_nonneg _ _ _ _ Hla) as HNa.
  pose proof (located_nonneg _ _ _ _ Hlb) as HNb.
  destruct (represents_sval sa Va oa HVa Hrepa) as (Hva & Hna & Hsa & _).
  destruct (represents_sval sb Vb ob HVb Hrepb) as (Hvb & Hnb & Hsb & _).
  apply SFleb_sval; try assumption. rewrite Hsa, Hsb.
  pose proof top_pos.
  destruct sa, sb; simpl in *.
  - assert (Vb <= Va) by (apply (rounds_mono _ _ _ _ _ _ _ _ _ _ Hlb Hrb Hla Hra); lia).
    lia.
  - lia.
  - assert (Na = 0) by lia. assert (Nb = 0) by lia. subst.
    rewrite (rounds_zero _ _ Hga Hra), (rounds_zero _ _ Hgb Hrb). lia.
  - assert (Va <= Vb) by (apply (rounds_mono _ _ _ _ _ _ _ _ _ _ Hla Hra Hlb Hrb); lia).
    lia.
Qed.

(** A number is the nearest one to its own value. *)
Lemma approx_self (s : bool) (m : positive) (e : Z) :
  valid_binary (S754_finite s m e) = true ->
  approx s (Zpos m * grid e) (S754_finite s m e).
Proof.
  intros Hv. apply valid_canonical in Hv as [Hc He].
  destruct (canonical_bounds _ _ Hc) as (Hlo & _).
  assert (Hce : cexp (Zpos m) e = e) by exact Hc.
  exists (Zpos m), e, loc_Exact, (Zpos m * grid e).
  split; [|split].
  - repeat split; first [lia | reflexivity].
  - rewrite Hce. exists (Zpos m), loc_Exact. repeat split; first [lia | reflexivity].
  - right. exists m, e. repeat split; try assumption.
    unfold float_of_pair. change (emax - prec) with 971.
    destruct (Z.leb_spec e 971); [reflexivity|lia].
Qed.

Lemma approx_zero (s : bool) : approx s 0 (S754_zero s).
Proof.
  exists 0, (-1074), loc_Exact, 0.
  split; [|split].
  - repeat split; first [lia | reflexivity].
  - exists 0, loc_Exact. repeat split; first [lia | reflexivity].
  - left. split; reflexivity.
Qed.

Lemma binary_round_approx (s : bool) (p : positive) (e : Z) :
  0 <= e + E ->
  approx s (Zpos p * grid e) (binary_round prec emax s p e).
Proof.
  intros He. unfold binary_round.
  set (f := fexp prec emax (Z.pos (digits2_pos p) + e)).
  assert (Hf : -1074 <= f) by (unfold f; rewrite fexp_eq; lia).
  assert (Hloc : located (Zpos (fst (shl_align p e f))) (snd (shl_align p e f))
                   loc_Exact (Zpos p * grid e)).
  { destruct (Z_lt_ge_dec e f) as [Hlt|Hge].
    - rewrite shl_align_gt by exact Hlt. simpl.
      repeat split; try lia. unfold cexp. simpl Zdigits2. fold f. lia.
    - destruct (shl_align_le p e f) as [Hm Hs]; [lia|]. rewrite Hm, Hs.
      repeat split; try lia.
      + unfold cexp. rewrite Zdigits2_shift by lia. simpl Zdigits2.
        replace (Z.pos (digits2_pos p) + (e - f) + f) with (Z.pos (digits2_pos p) + e) by lia.
        fold f. lia.
      + simpl. replace e with (f + (e - f)) at 1 by lia.
        rewrite grid_shift by lia. ring. }
  destruct (shl_align p e f) as [mz ez]. simpl in Hloc.
  destruct (binary_round_aux_spec s _ _ _ _ Hloc) as (V & Hr & Hrep).
  exists (Zpos mz), ez, loc_Exact, V. auto.
Qed.

Lemma binary_normalize_approx (D e : Z) (szero : bool) :
  0 <= e + E ->
  exists (s : bool) (N : Z),
    approx s N (binary_normalize prec emax D e szero)
    /\ cond_Zopp s N = D * grid e
    /\ (0 < D -> s = false) /\ (D < 0 -> s = true).
Proof.
  intros He. destruct D as [|p|p]; simpl binary_normalize.
  - exists szero, 0. split; [apply approx_zero|].
    split; [destruct szero; reflexivity|]. split; lia.
  - exists false, (Zpos p * grid e). split; [apply binary_round_approx; exact He|].
    split; [reflexivity|]. split; [reflexivity|lia].
  - exists true, (Zpos p * grid e). split; [apply binary_round_approx; exact He|].
    split; [simpl; lia|]. split; [lia|reflexivity].
Qed.

Lemma valid_finite_exp (s : bool) (m : positive) (e : Z) :
  valid_binary (S754_finite s m e) = true -> -1074 <= e <= 971.
Proof.
  intros Hv. apply valid_canonical in Hv as [Hc He].
  destruct (canonical_bounds _ _ Hc) as (Hlo & _). lia.
Qed.

(** Subtraction rounds the difference of the values. *)
Lemma SFsub_approx (x y : spec_float) :
  valid_binary x = true -> valid_binary y = true ->
  SFis_fin x = true -> SFis_fin y = true ->
  exists (s : bool) (N : Z),
    approx s N (SFsub prec emax x y) /\ cond_Zopp s N = sval x - sval y.
Proof.
  intros Hx Hy Hfx Hfy.
  destruct x as [sx|sx| |sx mx ex]; try discriminate Hfx;
    destruct y as [sy|sy| |sy my ey]; try discriminate Hfy.
  - exists (if sx then negb sy else false), 0. split.
    + destruct sx, sy; apply approx_zero.
    + destruct sx, sy; reflexivity.
  - exists (negb sy), (Zpos my * grid ey). split.
    + apply approx_self. exact Hy.
    + destruct sy; simpl; lia.
  - exists sx, (Zpos mx * grid ex). split.
    + apply approx_self. exact Hx.
    + destruct sx; simpl; lia.
  - pose proof (valid_finite_exp _ _ _ Hx) as Hex.
    pose proof (valid_finite_exp _ _ _ Hy) as Hey.
    simpl SFsub. set (ez := Z.min ex ey).
    destruct (shl_align_le mx ex ez) as [Hmx _]; [lia|].
    destruct (shl_align_le my ey ez) as [Hmy _]; [lia|].
    rewrite Hmx, Hmy.
    destruct (binary_normalize_approx
                (cond_Zopp sx (Z.pos mx * 2 ^ (ex - ez))
                 - cond_Zopp sy (Z.pos my * 2 ^ (ey - ez))) ez false)
      as (s & N & Ha & HN & _); [lia|].
    exists s, N. split; [exact Ha|]. rewrite HN.
    assert (Hgx : grid ex = 2 ^ (ex - ez) * grid ez).
    { rewrite <- grid_shift by lia. f_equal. lia. }
    assert (Hgy : grid ey = 2 ^ (ey - ez) * grid ez).
    { rewrite <- grid_shift by lia. f_equal. lia. }
    simpl sval. rewrite Hgx, Hgy. destruct sx, sy; simpl cond_Zopp; ring.
Qed.

End Grid.

(** ** Division and multiplication *)

Lemma new_location_inb (u d q r : Z) :
  0 < u -> 0 < d -> 0 <= r < d ->
  inb (d * u) q (new_location d r) ((d * q + r) * u).
Proof.
  intros Hu Hd Hr. unfold new_location, new_location_even, new_location_odd.
  assert (Hru : forall a b : Z, a < b -> a * u < b * u) by (intros; nia).
  destruct (Z.even d) eqn:Heven; destruct (Z.eqb_spec r 0) as [->|Hr0].
  - simpl. ring.
  - destruct (Z.compare_spec (2 * r) d) as [Heq|Hlt|Hgt]; simpl.
    + rewrite <- Heq. ring.
    + pose proof (Hru 0 r ltac:(lia)). pose proof (Hru (2 * r) d Hlt). lia.
    + pose proof (Hru d (2 * r) Hgt). pose proof (Hru r d ltac:(lia)). lia.
  - simpl. ring.
  - assert (Hodd : d <> 2 * r).
    { intros ->. rewrite Z.even_mul in Heven. discriminate Heven. }
    destruct (Z.compare_spec (2 * r + 1) d) as [Heq|Hlt|Hgt]; simpl.
    + pose proof (Hru 0 r ltac:(lia)). pose proof (Hru (2 * r) d ltac:(lia)). lia.
    + pose proof (Hru 0 r ltac:(lia)). pose proof (Hru (2 * r) d ltac:(lia)). lia.
    + pose proof (Hru d (2 * r) ltac:(lia)). pose proof (Hru r d ltac:(lia)). lia.
Qed.

(** Division rounds the quotient of the values; the unit is the one in
    which the quotient is an integer. *)
Lemma SFdiv_approx (E' : Z) (sx : bool) (mx : positive) (ex : Z)
  (sy : bool) (my : positive) (ey : Z) :
  valid_binary (S754_finite sx mx ex) = true ->
  valid_binary (S754_finite sy my ey) = true ->
  1074 <= E' -> 1074 <= ex - ey + E' ->
  approx (Zpos my) E' (xorb sx sy) (Zpos mx * 2 ^ (ex - ey + E'))
    (SFdiv prec emax (S754_finite sx mx ex) (S754_finite sy my ey)).
Proof.
  intros Hx Hy HE HE2.
  pose proof (valid_finite_exp _ _ _ Hx) as Hex.
  pose proof (valid_finite_exp _ _ _ Hy) as Hey.
  simpl SFdiv. unfold SFdiv_core_binary.
  set (d1 := Zdigits2 (Z.pos mx)). set (d2 := Zdigits2 (Z.pos my)).
  set (e' := Z.min (fexp prec emax (d1 + ex - (d2 + ey))) (ex - ey)).
  assert (He' : -1074 <= e' \/ e' = ex - ey) by (unfold e'; rewrite fexp_eq; lia).
  assert (He'le : e' <= ex - ey) by (unfold e'; lia).
  assert (He'f : e' <= Z.max (d1 + ex - (d2 + ey) - 53) (-1074))
    by (unfold e'; rewrite fexp_eq; lia).
  set (m' := match ex - ey - e' with
             | 0 => Z.pos mx
             | Z.pos _ => Z.shiftl (Z.pos mx) (ex - ey - e')
             | Z.neg _ => 0
             end).
  assert (Hm' : m' = Z.pos mx * 2 ^ (ex - ey - e')).
  { unfold m'. destruct (ex - ey - e') as [|p|p] eqn:Hs; try lia.
    apply Z.shiftl_mul_pow2. lia. }
  clearbody m'.
  pose proof (Z_div_mod m' (Z.pos my) ltac:(lia)) as Hdm.
  destruct (Z.div_eucl m' (Z.pos my)) as [q r]. destruct Hdm as [Hqr Hr].
  set (u := 2 ^ (e' + E')).
  assert (Hu : 0 < u) by (apply Z.pow_pos_nonneg; lia).
  assert (Hp : 0 < 2 ^ (ex - ey - e')) by (apply Z.pow_pos_nonneg; lia).
  assert (HN : Z.pos mx * 2 ^ (ex - ey + E') = (Z.pos my * q + r) * u).
  { rewrite <- Hqr, Hm'. unfold u.
    replace (ex - ey + E') with (ex - ey - e' + (e' + E')) by lia.
    rewrite Z.pow_add_r by lia. ring. }
  assert (Hq : 0 <= q) by nia.
  destruct (Zdigits2_bounds (Z.pos mx) ltac:(lia)) as (Hd1 & Hlo1 & Hhi1).
  destruct (Zdigits2_bounds (Z.pos my) ltac:(lia)) as (Hd2 & Hlo2 & Hhi2).
  fold d1 in Hd1, Hlo1, Hhi1. fold d2 in Hd2, Hlo2, Hhi2.
  assert (Hdq : d1 + (ex - ey - e') - d2 <= Zdigits2 q).
  { pose proof (Zdigits2_nonneg q).
    destruct (Z_le_gt_dec (d1 + (ex - ey - e') - d2) 0) as [|Hpos]; [lia|].
    assert (Hqpos : 0 < q).
    { destruct (Z.eq_dec q 0) as [->|]; [|lia]. exfalso.
      assert (2 ^ (d1 - 1) * 2 ^ (ex - ey - e') < 2 ^ d2) by nia.
      rewrite <- Z.pow_add_r in H0 by lia. apply pow2_lt_exp in H0; lia. }
    destruct (Zdigits2_bounds q Hqpos) as (Hdq & _ & Hhiq).
    assert (H1 : 2 ^ (d1 - 1) * 2 ^ (ex - ey - e') < 2 ^ d2 * 2 ^ Zdigits2 q).
    { assert (2 ^ (d1 - 1) * 2 ^ (ex - ey - e') <= m') by nia.
      assert (m' < Z.pos my * (q + 1)) by nia.
      assert (Z.pos my * (q + 1) <= 2 ^ d2 * 2 ^ Zdigits2 q) by nia. lia. }
    rewrite <- !Z.pow_add_r in H1 by lia. apply pow2_lt_exp in H1; lia. }
  assert (Hloc : located (Zpos my) E' q e' (new_location (Z.pos my) r)
                   (Z.pos mx * 2 ^ (ex - ey + E'))).
  { repeat split; try lia.
    - unfold cexp. rewrite fexp_eq. lia.
    - rewrite HN. unfold grid. fold u. apply new_location_inb; lia. }
  destruct (binary_round_aux_spec (Zpos my) E' ltac:(lia) HE (xorb sx sy) _ _ _ _ Hloc)
    as (V & Hr' & Hrep).
  exists q, e', (new_location (Z.pos my) r), V. auto.
Qed.

(** Multiplication rounds the product of the values. *)
Lemma SFmul_approx (E' : Z) (sx : bool) (mx : positive) (ex : Z)
  (sy : bool) (my : positive) (ey : Z) :
  valid_binary (S754_finite sx mx ex) = true ->
  valid_binary (S754_finite sy my ey) = true ->
  1074 <= E' -> 0 <= ex + ey + E' ->
  approx 1 E' (xorb sx sy) (Zpos mx * Zpos my * 2 ^ (ex + ey + E'))
    (SFmul prec emax (S754_finite sx mx ex) (S754_finite sy my ey)).
Proof.
  intros Hx Hy HE HE2. simpl SFmul.
  apply valid_canonical in Hx as [Hcx Hex]. apply valid_canonical in Hy as [Hcy Hey].
  unfold canonical in Hcx, Hcy. rewrite fexp_eq in Hcx, Hcy.
  destruct (Zdigits2_bounds (Z.pos mx) ltac:(lia)) as (Hd1 & Hlo1 & Hhi1).
  destruct (Zdigits2_bounds (Z.pos my) ltac:(lia)) as (Hd2 & Hlo2 & Hhi2).
  destruct (Zdigits2_bounds (Z.pos (mx * my)) ltac:(lia)) as (Hd & Hlo & Hhi).
  simpl Zdigits2 in *.
  assert (Hdig : Z.pos (digits2_pos mx) + Z.pos (digits2_pos my) - 1
                 <= Z.pos (digits2_pos (mx * my))).
  { assert (H : 2 ^ (Z.pos (digits2_pos mx) - 1) * 2 ^ (Z.pos (digits2_pos my) - 1)
                < 2 ^ Z.pos (digits2_pos (mx * my))).
    { rewrite Pos2Z.inj_mul in Hhi. nia. }
    rewrite <- Z.pow_add_r in H by lia. apply pow2_lt_exp in H; lia. }
  assert (Hloc : located 1 E' (Zpos (mx * my)) (ex + ey) loc_Exact
                   (Zpos mx * Zpos my * 2 ^ (ex + ey + E'))).
  { repeat split; try lia.
    - unfold cexp. rewrite fexp_eq. simpl Zdigits2. lia.
    - simpl. unfold grid. rewrite Pos2Z.inj_mul. ring. }
  destruct (binary_round_aux_spec 1 E' ltac:(lia) HE (xorb sx sy) _ _ _ _ Hloc)
    as (V & Hr' & Hrep).
  exists (Zpos (mx * my)), (ex + ey), loc_Exact, V. auto.
Qed.

(** ** Monotone operations *)

Lemma SFleb_not_nan (x y : spec_float) :
  SFleb x y = true -> SFis_nan x = false /\ SFis_nan y = false.
Proof.
  destruct x as [sx|sx| |sx mx ex], y as [sy|sy| |sy my ey];
    try discriminate; auto.
Qed.

Lemma not_fin_infinity (x : spec_float) :
  SFis_nan x = false -> SFis_fin x = false -> exists s : bool, x = S754_infinity s.
Proof. destruct x as [s|s| |s m e]; try discriminate. intros _ _. exists s. reflexivity. Qed.

Lemma SFcompare_opp (x y : spec_float) :
  SFcompare (SFopp x) (SFopp y) = SFcompare y x.
Proof.
  rewrite (SFcompare_swap x y).
  destruct x as [sx|sx| |sx mx ex], y as [sy|sy| |sy my ey]; simpl;
    try reflexivity;
    try (destruct sx; reflexivity); try (destruct sy; reflexivity);
    try (destruct sx, sy; reflexivity).
  destruct sx, sy; simpl; try reflexivity;
    destruct (ex ?= ey); simpl; try reflexivity;
    destruct (Pos.compare_cont Eq mx my); reflexivity.
Qed.

Lemma SFleb_opp (x y : spec_float) : SFleb (SFopp x) (SFopp y) = SFleb y x.
Proof. unfold SFleb. rewrite SFcompare_opp. reflexivity. Qed.

Lemma approx_opp (K E : Z) (s : bool) (N : Z) (o : spec_float) :
  approx K E s N o -> approx K E (negb s) N (SFopp o).
Proof.
  intros (m & e & l & V & Hl & Hr & Hrep). exists m, e, l, V.
  split; [exact Hl|]. split; [exact Hr|].
  destruct Hrep as [[-> ->]|(mo & eo & Hc & HV & ->)].
  - left. split; reflexivity.
  - right. exists mo, eo. split; [exact Hc|]. split; [exact HV|].
    unfold float_of_pair. destruct (eo <=? emax - prec); reflexivity.
Qed.

(** An operation that maps the infinities to themselves and rounds a
    monotone function of the value of its argument is monotone. *)
Lemma lift_mono (K' E' : Z) (f : spec_float -> spec_float) (phi : Z -> Z) :
  0 < K' -> 1074 <= E' ->
  (forall s : bool, f (S754_infinity s) = S754_infinity s) ->
  (forall u : spec_float,
      valid_binary u = true -> SFis_fin u = true ->
      exists (s : bool) (N : Z),
        approx K' E' s N (f u) /\ cond_Zopp s N = phi (sval 1 E0 u)) ->
  (forall a b : Z, a <= b -> phi a <= phi b) ->
  forall u1 u2 : spec_float,
    valid_binary u1 = true -> valid_binary u2 = true ->
    SFleb u1 u2 = true -> SFleb (f u1) (f u2) = true.
Proof.
  intros HK HE Hinf Hfin Hphi u1 u2 Hv1 Hv2 Hle.
  assert (H1 : 0 < 1) by lia. assert (HE0 : 1074 <= E0) by (unfold E0; lia).
  destruct (SFleb_not_nan _ _ Hle) as [Hn1 Hn2].
  apply (SFleb_sval 1 E0 H1 HE0 u1 u2 Hv1 Hv2 Hn1 Hn2) in Hle.
  pose proof (top_pos 1 E0 H1 HE0) as Ht.
  pose proof (top_pos K' E' HK HE) as Ht'.
  destruct (SFis_fin u1) eqn:Hf1; destruct (SFis_fin u2) eqn:Hf2.
  - destruct (Hfin u1 Hv1 Hf1) as (s1 & N1 & Ha1 & HN1).
    destruct (Hfin u2 Hv2 Hf2) as (s2 & N2 & Ha2 & HN2).
    apply (approx_le K' E' HK HE _ _ _ _ _ _ Ha1 Ha2).
    rewrite HN1, HN2. apply Hphi. exact Hle.
  - destruct (not_fin_infinity u2 Hn2 Hf2) as [s2 ->]. rewrite Hinf.
    pose proof (sval_fin_bounds 1 E0 H1 HE0 u1 Hv1 Hf1) as Hb.
    destruct s2; simpl in Hle; [lia|].
    destruct (Hfin u1 Hv1 Hf1) as (s1 & N1 & Ha1 & _).
    destruct (approx_sval K' E' HK HE _ _ _ Ha1) as (V & _ & HV & _ & Hvo & Hno & Hso).
    apply (SFleb_sval K' E' HK HE); try assumption; try reflexivity.
    rewrite Hso. simpl. destruct s1; simpl; lia.
  - destruct (not_fin_infinity u1 Hn1 Hf1) as [s1 ->]. rewrite Hinf.
    pose proof (sval_fin_bounds 1 E0 H1 HE0 u2 Hv2 Hf2) as Hb.
    destruct s1; simpl in Hle; [|lia].
    destruct (Hfin u2 Hv2 Hf2) as (s2 & N2 & Ha2 & _).
    destruct (approx_sval K' E' HK HE _ _ _ Ha2) as (V & _ & HV & _ & Hvo & Hno & Hso).
    apply (SFleb_sval K' E' HK HE); try assumption; try reflexivity.
    rewrite Hso. simpl. destruct s2; simpl; lia.
  - destruct (not_fin_infinity u1 Hn1 Hf1) as [s1 ->].
    destruct (not_fin_infinity u2 Hn2 Hf2) as [s2 ->]. rewrite !Hinf.
    destruct s1, s2; simpl in Hle; try reflexivity. lia.
Qed.

(** [c - u] does not grow with [u]. *)
Lemma SFsub_mono (c u1 u2 : spec_float) :
  valid_binary c = true -> SFis_fin c = true ->
  valid_binary u1 = true -> valid_binary u2 = true ->
  SFleb u1 u2 = true ->
  SFleb (SFsub prec emax c u2) (SFsub prec emax c u1) = true.
Proof.
  intros Hvc Hfc Hv1 Hv2 Hle.
  rewrite <- SFleb_opp.
  apply (lift_mono 1 E0 (fun u => SFopp (SFsub prec emax c u))
           (fun v => v - sval 1 E0 c));
    [lia | unfold E0; lia | | | | assumption | assumption | assumption].
  - intros s. destruct c as [sc|sc| |sc mc ec]; try discriminate Hfc;
      destruct s; reflexivity.
  - intros u Hvu Hfu.
    destruct (SFsub_approx 1 E0 ltac:(lia) ltac:(unfold E0; lia) c u Hvc Hvu Hfc Hfu)
      as (s & N & Ha & HN).
    exists (negb s), N. split; [apply approx_opp; exact Ha|].
    destruct s; simpl in *; lia.
  - intros a b Hab. lia.
Qed.

(** [x / c] grows with [x], for a positive finite [c]. *)
Lemma SFdiv_mono (mc : positive) (ec : Z) (x1 x2 : spec_float) :
  valid_binary (S754_finite false mc ec) = true ->
  valid_binary x1 = true -> valid_binary x2 = true ->
  SFleb x1 x2 = true ->
  SFleb (SFdiv prec emax x1 (S754_finite false mc ec))
        (SFdiv prec emax x2 (S754_finite false mc ec)) = true.
Proof.
  intros Hvc Hv1 Hv2 Hle.
  pose proof (valid_finite_exp _ _ _ Hvc) as Hec.
  apply (lift_mono (Zpos mc) (E0 + ec)
           (fun x => SFdiv prec emax x (S754_finite false mc ec))
           (fun v => v));
    [lia | unfold E0; lia | | | | assumption | assumption | assumption].
  - intros s. destruct s; reflexivity.
  - intros u Hvu Hfu. destruct u as [su|su| |su mu eu]; try discriminate Hfu.
    + exists su, 0. split; [|destruct su; reflexivity].
      replace (SFdiv prec emax (S754_zero su) (S754_finite false mc ec))
        with (S754_zero su) by (destruct su; reflexivity).
      apply approx_zero; unfold E0; lia.
    + pose proof (valid_finite_exp _ _ _ Hvu) as Heu.
      exists su, (Z.pos mu * 2 ^ (eu - ec + (E0 + ec))). split.
      * replace su with (xorb su false) at 1 by (destruct su; reflexivity).
        apply SFdiv_approx; try assumption; unfold E0; lia.
      * simpl sval. unfold grid.
        replace (eu - ec + (E0 + ec)) with (eu + E0) by lia.
        destruct su; simpl; lia.
  - intros a b Hab. exact Hab.
Qed.

(** [y * w] grows with [y], for a positive finite [w]. *)
Lemma SFmul_mono (mw : positive) (ew : Z) (y1 y2 : spec_float) :
  valid_binary (S754_finite false mw ew) = true ->
  valid_binary y1 = true -> valid_binary y2 = true ->
  SFleb y1 y2 = true ->
  SFleb (SFmul prec emax y1 (S754_finite false mw ew))
        (SFmul prec emax y2 (S754_finite false mw ew)) = true.
Proof.
  intros Hvw Hv1 Hv2 Hle.
  pose proof (valid_finite_exp _ _ _ Hvw) as Hew.
  apply (lift_mono 1 (E0 - ew)
           (fun y => SFmul prec emax y (S754_finite false mw ew))
           (fun v => Zpos mw * v));
    [lia | unfold E0; lia | | | | assumption | assumption | assumption].
  - intros s. destruct s; reflexivity.
  - intros u Hvu Hfu. destruct u as [su|su| |su mu eu]; try discriminate Hfu.
    + exists su, 0. split; [|destruct su; reflexivity].
      replace (SFmul prec emax (S754_zero su) (S754_finite false mw ew))
        with (S754_zero su) by (destruct su; reflexivity).
      apply approx_zero; unfold E0; lia.
    + pose proof (valid_finite_exp _ _ _ Hvu) as Heu.
      exists su, (Z.pos mu * Z.pos mw * 2 ^ (eu + ew + (E0 - ew))). split.
      * replace su with (xorb su false) at 1 by (destruct su; reflexivity).
        apply SFmul_approx; try assumption; unfold E0; lia.
      * simpl sval. unfold grid.
        replace (eu + ew + (E0 - ew)) with (eu + E0) by lia.
        destruct su; simpl; lia.
  - intros a b Hab. nia.
Qed.

(** ** The primitive operations *)

Lemma leb_sub_mono (c u1 u2 : float) :
  SFis_fin (Prim2SF c) = true ->
  (u1 <=? u2)%float = true -> (c - u2 <=? c - u1)%float = true.
Proof.
  intros Hc. rewrite !FloatAxioms.leb_spec, !sub_spec.
  apply SFsub_mono; try apply Prim2SF_valid. exact Hc.
Qed.

Lemma leb_div_mono (c x1 x2 : float) (mc : positive) (ec : Z) :
  Prim2SF c = S754_finite false mc ec ->
  (x1 <=? x2)%float = true -> (x1 / c <=? x2 / c)%float = true.
Proof.
  intros Hc. rewrite !FloatAxioms.leb_spec, !div_spec, Hc.
  apply SFdiv_mono; try apply Prim2SF_valid. rewrite <- Hc. apply Prim2SF_valid.
Qed.

Lemma leb_mul_mono (w y1 y2 : float) (mw : positive) (ew : Z) :
  Prim2SF w = S754_finite false mw ew ->
  (y1 <=? y2)%float = true -> (y1 * w <=? y2 * w)%float = true.
Proof.
  intros Hw. rewrite !FloatAxioms.leb_spec, !mul_spec, Hw.
  apply SFmul_mono; try apply Prim2SF_valid. rewrite <- Hw. apply Prim2SF_valid.
Qed.

Lemma ltb_leb (x y : float) : (x <? y)%float = true -> (x <=? y)%float = true.
Proof.
  rewrite FloatAxioms.ltb_spec, FloatAxioms.leb_spec. unfold SFltb, SFleb.
  destruct (SFcompare (Prim2SF x) (Prim2SF y)) as [[]|]; auto.
Qed.

(** A value between two finite ones is finite. *)
Lemma between_fin (a x b : spec_float) :
  SFis_fin a = true -> SFis_fin b = true ->
  SFleb a x = true -> SFleb x b = true -> SFis_fin x = true.
Proof.
  intros Ha Hb Hax Hxb.
  destruct x as [s|s| |s m e]; try reflexivity.
  - destruct s.
    + destruct a as [sa|sa| |sa ma ea]; try discriminate Ha; try discriminate Hax;
        destruct sa; discriminate Hax.
    + destruct b as [sb|sb| |sb mb eb]; try discriminate Hb; try discriminate Hxb;
        destruct sb; discriminate Hxb.
  - destruct a; discriminate Hax.
Qed.

(** The conversion of an integer *)

Lemma float64_of_int_approx (z : Z) :
  exists (s : bool) (N : Z),
    approx 1 E0 s N (binary_normalize prec emax z 0 false)
    /\ cond_Zopp s N = z * grid 1 E0 0.
Proof.
  destruct (binary_normalize_approx 1 E0 ltac:(lia) ltac:(unfold E0; lia) z 0 false)
    as (s & N & Ha & HN & _); [unfold E0; lia|].
  exists s, N. auto.
Qed.

Lemma float64_of_int_spec (z : Z) :
  Prim2SF (float64_of_int z) = binary_normalize prec emax z 0 false.
Proof.
  unfold float64_of_int. apply Prim2SF_SF2Prim.
  destruct (float64_of_int_approx z) as (s & N & Ha & _).
  destruct (approx_sval 1 E0 ltac:(lia) ltac:(unfold E0; lia) _ _ _ Ha)
    as (V & _ & _ & _ & Hv & _). exact Hv.
Qed.

Lemma float64_of_int_mono (z1 z2 : Z) :
  z1 <= z2 -> (float64_of_int z1 <=? float64_of_int z2)%float = true.
Proof.
  intros Hle. rewrite FloatAxioms.leb_spec, !float64_of_int_spec.
  destruct (float64_of_int_approx z1) as (s1 & N1 & Ha1 & HN1).
  destruct (float64_of_int_approx z2) as (s2 & N2 & Ha2 & HN2).
  apply (approx_le 1 E0 ltac:(lia) ltac:(unfold E0; lia) _ _ _ _ _ _ Ha1 Ha2).
  rewrite HN1, HN2.
  assert (0 < grid 1 E0 0) by (apply grid_pos; unfold E0; lia). nia.
Qed.

(** The conversion of a 64-bit integer is zero or finite. *)
Lemma float64_of_int_fin (z : Z) :
  - 2 ^ 63 <= z <= 2 ^ 63 -> SFis_fin (Prim2SF (float64_of_int z)) = true.
Proof.
  intros [Hlo Hhi].
  pose proof (float64_of_int_mono _ _ Hlo) as H1.
  pose proof (float64_of_int_mono _ _ Hhi) as H2.
  rewrite FloatAxioms.leb_spec in H1, H2.
  apply (between_fin _ _ _ (eq_refl : SFis_fin (Prim2SF (float64_of_int (- 2 ^ 63))) = true)
           (eq_refl : SFis_fin (Prim2SF (float64_of_int (2 ^ 63))) = true) H1 H2).
Qed.

(** The conversion of a positive 64-bit integer is positive and finite. *)
Lemma float64_of_int_pos (z : Z) :
  0 < z <= 2 ^ 63 ->
  exists (m : positive) (e : Z), Prim2SF (float64_of_int z) = S754_finite false m e.
Proof.
  intros [Hlo Hhi].
  pose proof (float64_of_int_fin z ltac:(lia)) as Hfin.
  pose proof (float64_of_int_mono 1 z ltac:(lia)) as H1.
  rewrite FloatAxioms.leb_spec in H1.
  change (Prim2SF (float64_of_int 1)) with (S754_finite false 4503599627370496 (-52)) in H1.
  destruct (Prim2SF (float64_of_int z)) as [s|s| |s m e]; try discriminate.
  destruct s; [discriminate H1|]. exists m, e. reflexivity.
Qed.

Lemma SFltb_not_nan (x y : spec_float) :
  SFltb x y = true -> SFis_nan x = false /\ SFis_nan y = false.
Proof.
  destruct x as [sx|sx| |sx mx ex], y as [sy|sy| |sy my ey];
    try discriminate; auto.
Qed.

Lemma leb_ltb_trans (x y z : float) :
  (x <=? y)%float = true -> (y <? z)%float = true -> (x <? z)%float = true.
Proof.
  rewrite FloatAxioms.leb_spec, !FloatAxioms.ltb_spec. intros Hxy Hyz.
  assert (H1 : 0 < 1) by lia. assert (HE : 1074 <= E0) by (unfold E0; lia).
  destruct (SFleb_not_nan _ _ Hxy) as [Hnx Hny].
  destruct (SFltb_not_nan _ _ Hyz) as [_ Hnz].
  apply (SFleb_sval 1 E0 H1 HE) in Hxy; try assumption; try apply Prim2SF_valid.
  apply (SFltb_sval 1 E0 H1 HE) in Hyz; try assumption; try apply Prim2SF_valid.
  apply (SFltb_sval 1 E0 H1 HE); try assumption; try apply Prim2SF_valid. lia.
Qed.

(** The conversion of a negative integer is negative. *)
Lemma float64_of_int_neg (z : Z) : z < 0 -> (float64_of_int z <? 0)%float = true.
Proof.
  intros Hz. apply (leb_ltb_trans _ (float64_of_int (-1))).
  - apply float64_of_int_mono. lia.
  - reflexivity.
Qed.

Lemma represents_unique (K E : Z) (s : bool) (V : Z) (o1 o2 : spec_float) :
  0 < K -> 1074 <= E ->
  represents K E s V o1 -> represents K E s V o2 -> o1 = o2.
Proof.
  intros HK HE [[HV1 ->]|(m1 & e1 & Hc1 & HV1 & ->)]
         [[HV2 ->]|(m2 & e2 & Hc2 & HV2 & ->)].
  - reflexivity.
  - exfalso. destruct (canonical_bounds _ _ Hc2) as (Hlo & _).
    pose proof (grid_pos K E HK e2 ltac:(lia)). nia.
  - exfalso. destruct (canonical_bounds _ _ Hc1) as (Hlo & _).
    pose proof (grid_pos K E HK e1 ltac:(lia)). nia.
  - assert (Hcmp : (Z.pos m1 * grid K E e1 ?= Z.pos m2 * grid K E e2) = Eq)
      by (apply Z.compare_eq_iff; lia).
    rewrite (pair_compare K E HK HE m1 e1 m2 e2 Hc1 Hc2) in Hcmp.
    destruct (Z.compare_spec e1 e2) as [He| |]; try discriminate Hcmp.
    apply Pos.compare_eq in Hcmp. subst. reflexivity.
Qed.

Lemma approx_unique (K E : Z) (s : bool) (N : Z) (o1 o2 : spec_float) :
  0 < K -> 1074 <= E ->
  approx K E s N o1 -> approx K E s N o2 -> o1 = o2.
Proof.
  intros HK HE (m1 & e1 & l1 & V1 & Hl1 & Hr1 & Hrep1)
         (m2 & e2 & l2 & V2 & Hl2 & Hr2 & Hrep2).
  pose proof (rounds_mono K E HK HE _ _ _ _ _ _ _ _ _ _ Hl1 Hr1 Hl2 Hr2 ltac:(lia)).
  pose proof (rounds_mono K E HK HE _ _ _ _ _ _ _ _ _ _ Hl2 Hr2 Hl1 Hr1 ltac:(lia)).
  assert (V1 = V2) by lia. subst V2.
  exact (represents_unique K E s V1 o1 o2 HK HE Hrep1 Hrep2).
Qed.

Lemma SFmul_one_l (x : spec_float) :
  valid_binary x = true -> SFmul prec emax SFone x = x.
Proof.
  intros Hv. destruct x as [s|s| |s m e]; try reflexivity.
  pose proof (valid_finite_exp _ _ _ Hv) as He.
  assert (HE : 1074 <= E0) by (unfold E0; lia).
  apply (approx_unique 1 E0 s (Zpos m * grid 1 E0 e)); [lia|exact HE| |].
  - replace (Z.pos m * grid 1 E0 e)
      with (Z.pos 4503599627370496 * Z.pos m * 2 ^ (-52 + e + E0)).
    + apply (SFmul_approx E0 false 4503599627370496 (-52) s m e);
        [reflexivity|exact Hv|exact HE|unfold E0; lia].
    + unfold grid. replace (e + E0) with (52 + (-52 + e + E0)) by lia.
      rewrite (Z.pow_add_r 2 52 (-52 + e + E0)) by (unfold E0; lia).
      change (2 ^ 52) with (Z.pos 4503599627370496). ring.
  - apply approx_self; first [exact Hv | exact HE | lia].
Qed.

Lemma mul_one_l (w : float) : (1 * w)%float = w.
Proof.
  apply Prim2SF_inj. rewrite mul_spec.
  change (Prim2SF 1) with SFone. apply SFmul_one_l. apply Prim2SF_valid.
Qed.

Lemma SFeqb_finite (x : spec_float) (s : bool) (m : positive) (e : Z) :
  SFeqb x (S754_finite s m e) = true -> x = S754_finite s m e.
Proof.
  unfold SFeqb. destruct x as [sx|sx| |sx mx ex]; simpl;
    try discriminate; try (destruct s; discriminate); try (destruct sx; discriminate).
  destruct sx, s; try discriminate;
    destruct (Z.compare_spec ex e) as [->| |]; try discriminate;
    rewrite Pos.compare_cont_spec; simpl;
    destruct (Pos.compare_spec mx m) as [->| |]; try discriminate; reflexivity.
Qed.

Lemma SFeqb_zero (x : spec_float) (s : bool) :
  SFeqb x (S754_zero s) = true -> exists sx : bool, x = S754_zero sx.
Proof.
  unfold SFeqb. destruct x as [sx|sx| |sx mx ex]; simpl;
    try discriminate; try (destruct sx; discriminate).
  intros _. exists sx. reflexivity.
Qed.

(** A reading that equals 0 leaves 100 as it is. *)
Lemma hundred_minus_zero (u : float) :
  (u =? 0)%float = true -> (100 - u)%float = 100%float.
Proof.
  rewrite FloatAxioms.eqb_spec. change (Prim2SF 0) with (S754_zero false).
  intros H. apply SFeqb_zero in H as [su Hu].
  apply Prim2SF_inj. rewrite sub_spec, Hu. reflexivity.
Qed.

(** The only number that equals 100 is 100. *)
Lemma eqb_hundred (u : float) : (u =? 100)%float = true -> u = 100%float.
Proof.
  rewrite FloatAxioms.eqb_spec. change (Prim2SF 100) with SFhundred.
  intros H. apply SFeqb_finite in H. apply Prim2SF_inj. exact H.
Qed.

(** Zero times a finite number is a zero. *)
Lemma zero_mul_fin (w : float) :
  SFis_fin (Prim2SF w) = true -> (0 * w =? 0)%float = true.
Proof.
  intros Hw. rewrite FloatAxioms.eqb_spec, mul_spec.
  change (Prim2SF 0) with (S754_zero false).
  destruct (Prim2SF w) as [s|s| |s m e]; try discriminate Hw; reflexivity.
Qed.

Lemma fin_mul_zero (y1 y2 : float) :
  SFis_fin (Prim2SF y1) = true -> SFis_fin (Prim2SF y2) = true ->
  (y1 * 0 <=? y2 * 0)%float = true.
Proof.
  intros H1 H2. rewrite FloatAxioms.leb_spec, !mul_spec.
  change (Prim2SF 0) with (S754_zero false).
  destruct (Prim2SF y1) as [s1|s1| |s1 m1 e1]; try discriminate H1;
    destruct (Prim2SF y2) as [s2|s2| |s2 m2 e2]; try discriminate H2; reflexivity.
Qed.

Lemma is_finite_fin (u : float) :
  is_finite u = true -> SFis_fin (Prim2SF u) = true.
Proof.
  unfold is_finite, PrimFloat.is_nan, is_infinity.
  rewrite !FloatAxioms.eqb_spec, abs_spec.
  change (Prim2SF infinity) with (S754_infinity false).
  destruct (Prim2SF u) as [s|s| |s m e]; try reflexivity.
  - destruct s; discriminate.
  - discriminate.
Qed.

Lemma fin_bounded (x : spec_float) :
  valid_binary x = true -> SFis_fin x = true ->
  SFleb (SFopp SFmax) x = true /\ SFleb x SFmax = true.
Proof.
  intros Hv Hf.
  assert (HE : 1074 <= E0) by (unfold E0; lia). assert (H1 : 0 < 1) by lia.
  assert (Hb : - (Z.pos 9007199254740991 * grid 1 E0 971) <= sval 1 E0 x
               <= Z.pos 9007199254740991 * grid 1 E0 971).
  { pose proof (grid_pos 1 E0 H1 971 ltac:(unfold E0; lia)).
    destruct x as [s|s| |s m e]; try discriminate Hf; [simpl; lia|].
    apply valid_canonical in Hv as [Hc He].
    destruct (canonical_bounds _ _ Hc) as (Hlo & Hm & _).
    assert (Z.pos m * grid 1 E0 e <= Z.pos 9007199254740991 * grid 1 E0 971).
    { destruct (Z.eq_dec e 971) as [->|Hne].
      - change (2 ^ 53) with 9007199254740992 in Hm. nia.
      - apply Z.lt_le_incl.
        apply (pair_lt 1 E0 H1 HE m e 9007199254740991 971 Hc eq_refl). lia. }
    pose proof (grid_pos 1 E0 H1 e ltac:(unfold E0; lia)).
    destruct s; simpl; lia. }
  assert (Hn : SFis_nan x = false) by (destruct x; try discriminate Hf; reflexivity).
  split; apply (SFleb_sval 1 E0 H1 HE); try assumption; try reflexivity; simpl; lia.
Qed.

(** For a finite reading [u] the ratio [(100 - u) / 100] is finite. *)
Lemma ratio_fin (u : float) :
  SFis_fin (Prim2SF u) = true -> SFis_fin (Prim2SF ((100 - u) / 100)) = true.
Proof.
  intros Hu.
  destruct (fin_bounded (Prim2SF u) (Prim2SF_valid u) Hu) as [Hlo Hhi].
  set (maxf := SF2Prim SFmax).
  assert (Hmax : Prim2SF maxf = SFmax) by reflexivity.
  assert (Hmin : Prim2SF (- maxf) = SFopp SFmax) by reflexivity.
  rewrite <- Hmin, <- FloatAxioms.leb_spec in Hlo.
  rewrite <- Hmax, <- FloatAxioms.leb_spec in Hhi.
  apply (leb_sub_mono 100 _ _ eq_refl) in Hlo, Hhi.
  apply (leb_div_mono 100 _ _ 7036874417766400 (-46) eq_refl) in Hlo, Hhi.
  rewrite FloatAxioms.leb_spec in Hlo, Hhi.
  apply (between_fin (Prim2SF ((100 - maxf) / 100)) _
           (Prim2SF ((100 - - maxf) / 100))); try assumption; reflexivity.
Qed.

(** ** Resolution of the arguments *)

Lemma thresholdStep_keeps (up : usagePlugin) (kv : value * value) :
  pluginArguments (thresholdStep up kv) = pluginArguments up
  /\ weight (thresholdStep up kv) = weight up
  /\ usageType (thresholdStep up kv) = usageType up
  /\ SamplePeriods (thresholdStep up kv) = SamplePeriods up.
Proof.
  unfold thresholdStep.
  destruct (String.eqb _ "cpu"); [simpl; auto|].
  destruct (String.eqb _ "mem"); simpl; auto.
Qed.

Lemma fold_thresholdStep_keeps (kvs : list (value * value)) (up : usagePlugin) :
  pluginArguments (fold_left thresholdStep kvs up) = pluginArguments up
  /\ weight (fold_left thresholdStep kvs up) = weight up
  /\ usageType (fold_left thresholdStep kvs up) = usageType up
  /\ SamplePeriods (fold_left thresholdStep kvs up) = SamplePeriods up.
Proof.
  revert up. induction kvs as [|kv kvs IH]; intros up; simpl; [auto|].
  destruct (IH (thresholdStep up kv)) as (-> & -> & -> & ->).
  apply thresholdStep_keeps.
Qed.

Lemma resolveThresholds_keeps (up : usagePlugin) :
  pluginArguments (resolveThresholds up) = pluginArguments up
  /\ weight (resolveThresholds up) = weight up
  /\ usageType (resolveThresholds up) = usageType up
  /\ SamplePeriods (resolveThresholds up) = SamplePeriods up.
Proof.
  unfold resolveThresholds.
  destruct (pluginArguments up !! thresholdSection); [|auto].
  apply fold_thresholdStep_keeps.
Qed.

(** The order in which [range] visits the bindings does not matter: the
    keys of a map are distinct, and iterations on distinct keys commute. *)
Lemma thresholdStep_comm (up : usagePlugin) (kv1 kv2 : value * value) :
  kv1.1 <> kv2.1 ->
  thresholdStep (thresholdStep up kv1) kv2 = thresholdStep (thresholdStep up kv2) kv1.
Proof.
  destruct kv1 as [k1 v1], kv2 as [k2 v2]. cbn [fst]. intros Hne.
  assert (Hkey : forall (k : value) (s : string),
             String.eqb (match k with VString s' => s' | _ => EmptyString end) s = true ->
             s <> EmptyString -> k = VString s).
  { intros k s Hs Hnonempty. apply String.eqb_eq in Hs.
    destruct k; try congruence. }
  unfold thresholdStep. cbn [fst snd].
  destruct (String.eqb (match k1 with VString s' => s' | _ => EmptyString end) "cpu") eqn:Hc1;
    destruct (String.eqb (match k2 with VString s' => s' | _ => EmptyString end) "cpu") eqn:Hc2;
    destruct (String.eqb (match k1 with VString s' => s' | _ => EmptyString end) "mem") eqn:Hm1;
    destruct (String.eqb (match k2 with VString s' => s' | _ => EmptyString end) "mem") eqn:Hm2;
    try reflexivity; exfalso; apply Hne.
  all: first [ rewrite (Hkey k1 "cpu"%string Hc1), (Hkey k2 "cpu"%string Hc2) by discriminate
             | rewrite (Hkey k1 "mem"%string Hm1), (Hkey k2 "mem"%string Hm2) by discriminate ];
    reflexivity.
Qed.

Lemma fold_thresholdStep_perm (kvs kvs' : list (value * value)) (up : usagePlugin) :
  Permutation kvs kvs' -> NoDup (map fst kvs) ->
  fold_left thresholdStep kvs up = fold_left thresholdStep kvs' up.
Proof.
  intros Hperm. revert up.
  induction Hperm as [|kv l l' Hperm IH|kv1 kv2 l|l l' l'' H1 IH1 H2 IH2];
    intros up Hnd; simpl.
  - reflexivity.
  - apply IH. simpl in Hnd. inversion Hnd; assumption.
  - simpl in Hnd. inversion Hnd as [|k ks Hnotin _]; subst.
    rewrite (thresholdStep_comm up kv2 kv1); [reflexivity|].
    intros Heq. apply Hnotin. rewrite Heq. left.
  - rewrite IH1 by exact Hnd. apply IH2.
    rewrite <- (Permutation_map fst H1). exact Hnd.
Qed.

(** C1 (as the code has it): a threshold section that binds "cpu" (or
    "mem") to a value that is not an integer does not leave the threshold
    at its default 80: the discarded assertion reads the value as 0, and
    the threshold becomes 0. *)
Theorem threshold_not_int_reads_zero (args : Arguments) (v : value) :
  isInt v = false ->
  (args !! thresholdSection = Some (VMap [(VString "cpu", v)]) ->
   cpuThresholds (New args) = 80%float
   /\ cpuThresholds (resolveThresholds (New args)) = 0%float
   /\ (cpuThresholds (resolveThresholds (New args)) =? 80)%float = false)
  /\ (args !! thresholdSection = Some (VMap [(VString "mem", v)]) ->
      memThresholds (New args) = 80%float
      /\ memThresholds (resolveThresholds (New args)) = 0%float
      /\ (memThresholds (resolveThresholds (New args)) =? 80)%float = false).
Proof.
  intros Hv. split; intros Hargs; (split; [reflexivity|]);
    unfold resolveThresholds; cbn [pluginArguments New]; rewrite Hargs;
    cbn [thresholdArgs fold_left thresholdStep fst snd];
    destruct v; try discriminate Hv; split; vm_compute; reflexivity.
Qed.

Lemma threshold_not_int_reads_zero_witness :
  let args : Arguments := <["thresholds" := VMap [(VString "cpu", VString "70")]]> ∅ in
  isInt (VString "70") = false
  /\ args !! thresholdSection = Some (VMap [(VString "cpu", VString "70")])
  /\ cpuThresholds (resolveThresholds (New args)) = 0%float.
Proof.
  intros args. split; [reflexivity|]. split; [reflexivity|].
  apply (proj1 (threshold_not_int_reads_zero args (VString "70") eq_refl) eq_refl).
Defined.

(** ** The filter and the score *)

(** C4: with the empty sample period the filter passes and the score is
    0, whatever the snapshot of the node holds. *)
Theorem empty_period_passes_scores_zero
  (up : usagePlugin) (task : TaskInfo) (node : NodeInfo) :
  SamplePeriods up = ""%string ->
  predicateFn up task node = None
  /\ nodeOrderFn up task node = (0%float, None).
Proof.
  intros H. unfold predicateFn, nodeOrderFn. rewrite H. split; reflexivity.
Qed.

Lemma empty_period_passes_scores_zero_witness :
  let up := resolveThresholds (New (<["period" := VString ""]> sampleArgs)) in
  SamplePeriods up = ""%string
  /\ predicateFn up sampleTask (sampleNode "b" 85 95) = None
  /\ nodeOrderFn up sampleTask (sampleNode "b" 85 95) = (0%float, None).
Proof.
  intros up. split; [reflexivity|].
  apply (empty_period_passes_scores_zero up sampleTask (sampleNode "b" 85 95)).
  reflexivity.
Defined.

(** The filter passes exactly when neither reading exceeds its threshold. *)
Lemma predicateFn_passes_iff (up : usagePlugin) (task : TaskInfo) (node : NodeInfo) :
  SamplePeriods up <> ""%string ->
  predicateFn up task node = None <->
  (cpuThresholds up <? index (CPUUsageAvg (ResourceUsage node)) (SamplePeriods up))%float = false
  /\ (memThresholds up <? index (MEMUsageAvg (ResourceUsage node)) (SamplePeriods up))%float = false.
Proof.
  intros Hp. unfold predicateFn. rewrite (period_nonempty _ Hp). cbn [negb].
  destruct (cpuThresholds up <? _)%float; [intuition discriminate|].
  destruct (memThresholds up <? _)%float; intuition discriminate.
Qed.

(** C2: with a non-empty sample period, a reading equal to its threshold
    does not reject (the filter passes when the CPU reading equals the CPU
    threshold and the memory reading equals or does not exceed the memory
    threshold, and likewise with the roles exchanged), and a reading
    strictly greater than its threshold rejects: the CPU one with the
    error that names the node, the reading and the threshold, the memory
    one with an error in any case. *)
Theorem threshold_boundary (up : usagePlugin) (task : TaskInfo) (node : NodeInfo) :
  SamplePeriods up <> ""%string ->
  let cpu := index (CPUUsageAvg (ResourceUsage node)) (SamplePeriods up) in
  let mem := index (MEMUsageAvg (ResourceUsage node)) (SamplePeriods up) in
  ((cpu =? cpuThresholds up)%float = true ->
   (mem =? memThresholds up)%float = true ->
   predicateFn up task node = None)
  /\ ((cpu =? cpuThresholds up)%float = true ->
      (memThresholds up <? mem)%float = false ->
      predicateFn up task node = None)
  /\ ((cpuThresholds up <? cpu)%float = false ->
      (mem =? memThresholds up)%float = true ->
      predicateFn up task node = None)
  /\ ((cpuThresholds up <? cpu)%float = true ->
      predicateFn up task node
      = Some (ErrCpuUsage (Name up) (api.Name node) cpu (cpuThresholds up)))
  /\ ((cpuThresholds up <? cpu)%float = false ->
      (memThresholds up <? mem)%float = true ->
      predicateFn up task node
      = Some (ErrMemUsage (Name up) (api.Name node) mem (memThresholds up)))
  /\ ((memThresholds up <? mem)%float = true ->
      predicateFn up task node <> None).
Proof.
  intros Hp cpu mem.
  pose proof (predicateFn_passes_iff up task node Hp) as Hiff.
  fold cpu mem in Hiff.
  repeat split.
  - intros Hc Hm. apply Hiff. split.
    + apply (eqb_not_ltb _ _ Hc).
    + apply (eqb_not_ltb _ _ Hm).
  - intros Hc Hm. apply Hiff. split; [apply (eqb_not_ltb _ _ Hc) | exact Hm].
  - intros Hc Hm. apply Hiff. split; [exact Hc | apply (eqb_not_ltb _ _ Hm)].
  - intros Hc. unfold predicateFn. rewrite (period_nonempty _ Hp). cbn [negb].
    fold cpu. rewrite Hc. reflexivity.
  - intros Hc Hm. unfold predicateFn. rewrite (period_nonempty _ Hp). cbn [negb].
    fold cpu mem. rewrite Hc, Hm. reflexivity.
  - intros Hm Hnone. apply Hiff in Hnone. destruct Hnone as [_ Hm'].
    rewrite Hm in Hm'. discriminate.
Qed.

Lemma threshold_boundary_witness :
  SamplePeriods samplePlugin <> ""%string
  /\ predicateFn samplePlugin sampleTask (sampleNode "a" 70 70) = None.
Proof.
  assert (Hp : SamplePeriods samplePlugin <> ""%string) by discriminate.
  split; [exact Hp|].
  apply (threshold_boundary samplePlugin sampleTask (sampleNode "a" 70 70) Hp);
    reflexivity.
Defined.

Example usage_just_above_threshold :
  predicateFn samplePlugin sampleTask (sampleNode "a" 0x1.1800000000001p+6 0)
  = Some (ErrCpuUsage "usage" "a" 0x1.1800000000001p+6 70)
  /\ predicateFn samplePlugin sampleTask (sampleNode "a" 70 0x1.1800000000001p+6)
     = Some (ErrMemUsage "usage" "a" 0x1.1800000000001p+6 70).
Proof. split; vm_compute; reflexivity. Qed.

(** C5 as stated fails: a node without any entry for the period is
    rejected when a threshold is negative. *)
Lemma missing_entry_rejected_below_zero :
  let up := resolveThresholds (New negativeThresholdArgs) in
  SamplePeriods up <> ""%string
  /\ CPUUsageAvg (ResourceUsage (freshNode "n")) !! SamplePeriods up = None
  /\ MEMUsageAvg (ResourceUsage (freshNode "n")) !! SamplePeriods up = None
  /\ predicateFn up sampleTask (freshNode "n") <> None.
Proof.
  intros up. split; [discriminate|]. split; [reflexivity|]. split; [reflexivity|].
  vm_compute. discriminate.
Qed.

(** C5 (amended): with a non-empty sample period, a node whose snapshot
    has no CPU entry for the period scores 0, without an error, whatever
    the thresholds are; its CPU reading is 0, so it passes the filter
    exactly when the CPU threshold is not below 0 and the memory reading
    does not exceed its threshold.  When the memory entry is missing too,
    both readings are 0 and the node passes exactly when neither threshold
    is below 0. *)
Theorem missing_entry_passes_scores_zero
  (up : usagePlugin) (task : TaskInfo) (node : NodeInfo) :
  SamplePeriods up <> ""%string ->
  CPUUsageAvg (ResourceUsage node) !! SamplePeriods up = None ->
  nodeOrderFn up task node = (0%float, None)
  /\ index (CPUUsageAvg (ResourceUsage node)) (SamplePeriods up) = 0%float
  /\ (predicateFn up task node = None <->
      (cpuThresholds up <? 0)%float = false
      /\ (memThresholds up
          <? index (MEMUsageAvg (ResourceUsage node)) (SamplePeriods up))%float = false)
  /\ (MEMUsageAvg (ResourceUsage node) !! SamplePeriods up = None ->
      index (MEMUsageAvg (ResourceUsage node)) (SamplePeriods up) = 0%float
      /\ (predicateFn up task node = None <->
          (cpuThresholds up <? 0)%float = false
          /\ (memThresholds up <? 0)%float = false)).
Proof.
  intros Hp Hc.
  assert (Hic : index (CPUUsageAvg (ResourceUsage node)) (SamplePeriods up) = 0%float)
    by (unfold index; rewrite Hc; reflexivity).
  pose proof (predicateFn_passes_iff up task node Hp) as Hiff. rewrite Hic in Hiff.
  split; [|split; [exact Hic|split; [exact Hiff|]]].
  - unfold nodeOrderFn. rewrite (period_nonempty _ Hp), Hc. reflexivity.
  - intros Hm.
    assert (Him : index (MEMUsageAvg (ResourceUsage node)) (SamplePeriods up) = 0%float)
      by (unfold index; rewrite Hm; reflexivity).
    rewrite Him in Hiff. split; [exact Him | exact Hiff].
Qed.

Lemma missing_entry_passes_scores_zero_witness :
  SamplePeriods samplePlugin <> ""%string
  /\ CPUUsageAvg (ResourceUsage (freshNode "n")) !! SamplePeriods samplePlugin = None
  /\ nodeOrderFn samplePlugin sampleTask (freshNode "n") = (0%float, None)
  /\ predicateFn samplePlugin sampleTask (freshNode "n") = None.
Proof.
  assert (Hp : SamplePeriods samplePlugin <> ""%string) by discriminate.
  split; [exact Hp|]. split; [reflexivity|].
  destruct (missing_entry_passes_scores_zero samplePlugin sampleTask (freshNode "n")
              Hp eq_refl) as (Hscore & _ & _ & Hboth).
  split; [exact Hscore|].
  destruct (Hboth eq_refl) as [_ Hiff]. apply Hiff. split; reflexivity.
Defined.

(** C10: the thresholds are not checked against the range 0..100.  With
    "cpu" bound to a negative integer the threshold is that integer, and a
    node without a CPU entry for the period, which reads as 0, is rejected:
    0 exceeds the threshold. *)
Theorem negative_threshold_rejects_idle_node
  (args : Arguments) (z : Z) (mem : value) (task : TaskInfo) (node : NodeInfo) :
  z < 0 ->
  args !! thresholdSection = Some (thresholdsOf (VInt z) mem) ->
  let up := resolveThresholds (New args) in
  SamplePeriods up <> ""%string ->
  CPUUsageAvg (ResourceUsage node) !! SamplePeriods up = None ->
  cpuThresholds up = float64_of_int z
  /\ (cpuThresholds up <? 0)%float = true
  /\ index (CPUUsageAvg (ResourceUsage node)) (SamplePeriods up) = 0%float
  /\ predicateFn up task node
     = Some (ErrCpuUsage "usage" (api.Name node) 0 (float64_of_int z)).
Proof.
  intros Hz Hargs up Hp Hnone.
  assert (Hc : cpuThresholds up = float64_of_int z).
  { unfold up, resolveThresholds. cbn [pluginArguments New]. rewrite Hargs.
    reflexivity. }
  assert (Hi : index (CPUUsageAvg (ResourceUsage node)) (SamplePeriods up) = 0%float)
    by (unfold index; rewrite Hnone; reflexivity).
  assert (Hlt : (cpuThresholds up <? 0)%float = true)
    by (rewrite Hc; apply float64_of_int_neg; exact Hz).
  repeat split; try assumption.
  unfold predicateFn. rewrite (period_nonempty _ Hp). cbn [negb].
  rewrite Hi, Hlt, Hc. reflexivity.
Qed.

Lemma negative_threshold_rejects_idle_node_witness :
  let args : Arguments := <["thresholds" := thresholdsOf (VInt (-1)) (VInt 70)]> ∅ in
  let up := resolveThresholds (New args) in
  -1 < 0
  /\ SamplePeriods up <> ""%string
  /\ CPUUsageAvg (ResourceUsage (freshNode "n")) !! SamplePeriods up = None
  /\ predicateFn up sampleTask (freshNode "n")
     = Some (ErrCpuUsage "usage" "n" 0 (-1)).
Proof.
  intros args up.
  assert (Hz : -1 < 0) by lia.
  assert (Hp : SamplePeriods up <> ""%string) by discriminate.
  split; [exact Hz|]. split; [exact Hp|]. split; [reflexivity|].
  apply (negative_threshold_rejects_idle_node args (-1) (VInt 70) sampleTask
           (freshNode "n") Hz eq_refl Hp eq_refl).
Defined.

(** *** The score *)

Lemma wrap64_range (z : Z) : - 2 ^ 63 <= wrap64 z < 2 ^ 63.
Proof.
  unfold wrap64. pose proof (Z.mod_pos_bound (z + 2 ^ 63) (2 ^ 64) ltac:(lia)). lia.
Qed.

Lemma wrap64_small (z : Z) : - 2 ^ 63 <= z < 2 ^ 63 -> wrap64 z = z.
Proof. intros H. unfold wrap64. rewrite Z.mod_small by lia. lia. Qed.

(** The product with [MaxNodeScore] is exact for every weight of this size. *)
Lemma int64_mul_small (weight : Z) :
  - 92233720368547758 <= weight <= 92233720368547758 ->
  int64_mul MaxNodeScore weight = MaxNodeScore * weight.
Proof.
  intros H. unfold int64_mul, MaxNodeScore. apply wrap64_small. lia.
Qed.

Lemma nodeOrderFn_entry (up : usagePlugin) (task : TaskInfo) (node : NodeInfo) (u : float) :
  SamplePeriods up <> ""%string ->
  CPUUsageAvg (ResourceUsage node) !! SamplePeriods up = Some u ->
  nodeOrderFn up task node
  = (((100 - u) / 100 * float64_of_int (int64_mul MaxNodeScore (weight up)))%float,
     None).
Proof.
  intros Hp Hu. unfold nodeOrderFn. rewrite (period_nonempty _ Hp), Hu. reflexivity.
Qed.

(** C3 as stated fails: the code computes the product of [MaxNodeScore]
    and the weight on [int64], where it wraps around.  With the weight
    92233720368547759, a non-empty sample period and the CPU entry 0, the
    score is not [MaxNodeScore * weight], which is positive: it is
    negative. *)
Lemma score_wraps_around :
  let up := New (<["usage.weight" := VInt 92233720368547759]> ∅) in
  let node := sampleNode "n" 0 0 in
  let score := fst (nodeOrderFn up sampleTask node) in
  SamplePeriods up <> ""%string
  /\ CPUUsageAvg (ResourceUsage node) !! SamplePeriods up = Some 0%float
  /\ 0 < MaxNodeScore * weight up
  /\ (0 <? float64_of_int (MaxNodeScore * weight up))%float = true
  /\ score = float64_of_int (- 2 ^ 63)
  /\ (score <? 0)%float = true
  /\ (score =? float64_of_int (MaxNodeScore * weight up))%float = false
  /\ (score =? (100 - 0) / 100 * float64_of_int MaxNodeScore
               * float64_of_int (weight up))%float = false.
Proof.
  intros up node score. split; [discriminate|].
  repeat split; vm_compute; reflexivity.
Qed.

(** C3 (amended): the scoring function never returns an error.  For a
    non-empty sample period, a CPU entry [u] for it and a weight from
    -92233720368547758 to 92233720368547758 (the weights whose product
    with [MaxNodeScore] the code computes without wrapping around), the
    score is [((100 - u) / 100) * (MaxNodeScore * weight)], the ratio and
    the last product in binary64; a reading equal to 0 yields
    [MaxNodeScore * weight] and a reading equal to 100 yields 0.  A
    reading equal to 100 yields 0 whatever the weight. *)
Theorem score_formula :
  (forall (up : usagePlugin) (task : TaskInfo) (node : NodeInfo),
      snd (nodeOrderFn up task node) = None)
  /\ (forall (up : usagePlugin) (task : TaskInfo) (node : NodeInfo) (u : float),
         SamplePeriods up <> ""%string ->
         CPUUsageAvg (ResourceUsage node) !! SamplePeriods up = Some u ->
         - 92233720368547758 <= weight up <= 92233720368547758 ->
         let W := float64_of_int (MaxNodeScore * weight up) in
         nodeOrderFn up task node = (((100 - u) / 100 * W)%float, None)
         /\ ((u =? 0)%float = true -> fst (nodeOrderFn up task node) = W)
         /\ ((u =? 100)%float = true ->
             (fst (nodeOrderFn up task node) =? 0)%float = true))
  /\ (forall (up : usagePlugin) (task : TaskInfo) (node : NodeInfo) (u : float),
         SamplePeriods up <> ""%string ->
         CPUUsageAvg (ResourceUsage node) !! SamplePeriods up = Some u ->
         (u =? 100)%float = true ->
         (fst (nodeOrderFn up task node) =? 0)%float = true).
Proof.
  assert (Hfull : forall (up : usagePlugin) (task : TaskInfo) (node : NodeInfo) (u : float),
             SamplePeriods up <> ""%string ->
             CPUUsageAvg (ResourceUsage node) !! SamplePeriods up = Some u ->
             (u =? 100)%float = true ->
             (fst (nodeOrderFn up task node) =? 0)%float = true).
  { intros up task node u Hp Hu H100.
    rewrite (nodeOrderFn_entry up task node u Hp Hu). cbn [fst].
    rewrite (eqb_hundred u H100).
    change ((100 - 100) / 100)%float with 0%float.
    apply zero_mul_fin. apply float64_of_int_fin.
    pose proof (wrap64_range (MaxNodeScore * weight up)). unfold int64_mul. lia. }
  split; [|split; [|exact Hfull]].
  - intros up task node. unfold nodeOrderFn.
    destruct (String.eqb (SamplePeriods up) ""); [reflexivity|].
    destruct (CPUUsageAvg (ResourceUsage node) !! SamplePeriods up); reflexivity.
  - intros up task node u Hp Hu Hw W.
    split; [|split; [|apply (Hfull up task node u Hp Hu)]].
    + rewrite (nodeOrderFn_entry up task node u Hp Hu).
      rewrite (int64_mul_small _ Hw). reflexivity.
    + intros H0. rewrite (nodeOrderFn_entry up task node u Hp Hu). cbn [fst].
      rewrite (int64_mul_small _ Hw). fold W. rewrite (hundred_minus_zero u H0).
      change (100 / 100)%float with 1%float. apply mul_one_l.
Qed.

Lemma score_formula_witness :
  SamplePeriods samplePlugin <> ""%string
  /\ CPUUsageAvg (ResourceUsage (sampleNode "a" 0 40)) !! SamplePeriods samplePlugin
     = Some 0%float
  /\ - 92233720368547758 <= weight samplePlugin <= 92233720368547758
  /\ nodeOrderFn samplePlugin sampleTask (sampleNode "a" 0 40) = (1000%float, None).
Proof.
  assert (Hp : SamplePeriods samplePlugin <> ""%string) by discriminate.
  assert (Hw : - 92233720368547758 <= weight samplePlugin <= 92233720368547758)
    by (change (- 92233720368547758 <= 10 <= 92233720368547758); lia).
  split; [exact Hp|]. split; [reflexivity|]. split; [exact Hw|].
  exact (proj1 (proj1 (proj2 score_formula) samplePlugin sampleTask
                  (sampleNode "a" 0 40) 0%float Hp eq_refl Hw)).
Defined.

Example score_extremes :
  fst (nodeOrderFn samplePlugin sampleTask (sampleNode "a" 0 40)) = 1000%float
  /\ fst (nodeOrderFn samplePlugin sampleTask (sampleNode "a" (-0) 40)) = 1000%float
  /\ fst (nodeOrderFn samplePlugin sampleTask (sampleNode "a" 100 40)) = 0%float.
Proof. repeat split; vm_compute; reflexivity. Qed.

(** The plugin with the given weight and the defaults otherwise. *)
Lemma weightedPlugin_fields (z : Z) :
  weight (New (<["usage.weight" := VInt z]> ∅)) = z
  /\ SamplePeriods (New (<["usage.weight" := VInt z]> ∅)) = "10m"%string.
Proof. split; reflexivity. Qed.

(** C7 as stated fails: with the weight -1 the score grows with the
    utilization; so it does with a weight whose product with
    [MaxNodeScore] wraps around to a negative [int64]; and with the weight
    0 an infinite reading has no score that compares (it is not a number). *)
Lemma score_not_monotone :
  (0 <? 100)%float = true
  /\ scoreOf (-1) 0 = (-100)%float
  /\ scoreOf (-1) 100 = (-0)%float
  /\ (scoreOf (-1) 100 <=? scoreOf (-1) 0)%float = false
  /\ (scoreOf 92233720368547759 100 <=? scoreOf 92233720368547759 0)%float = false
  /\ (100 <? infinity)%float = true
  /\ (scoreOf 0 infinity <=? scoreOf 0 100)%float = false.
Proof. repeat split; vm_compute; reflexivity. Qed.

(** C7 (amended): for a fixed sample period and a fixed weight whose
    product with [MaxNodeScore], as computed on [int64], is not negative,
    the score does not grow with the CPU utilization: of two entries
    [u1 < u2], the second has a score less than or equal to the first;
    when the product is 0 the two readings are required to be finite. *)
Theorem score_monotone
  (up : usagePlugin) (task : TaskInfo) (node1 node2 : NodeInfo) (u1 u2 : float) :
  SamplePeriods up <> ""%string ->
  CPUUsageAvg (ResourceUsage node1) !! SamplePeriods up = Some u1 ->
  CPUUsageAvg (ResourceUsage node2) !! SamplePeriods up = Some u2 ->
  (u1 <? u2)%float = true ->
  0 <= int64_mul MaxNodeScore (weight up) ->
  (int64_mul MaxNodeScore (weight up) = 0 ->
   is_finite u1 = true /\ is_finite u2 = true) ->
  (fst (nodeOrderFn up task node2) <=? fst (nodeOrderFn up task node1))%float = true.
Proof.
  intros Hp H1 H2 Hlt Hpos Hzero.
  rewrite (nodeOrderFn_entry up task node1 u1 Hp H1).
  rewrite (nodeOrderFn_entry up task node2 u2 Hp H2). cbn [fst].
  assert (Hratio : ((100 - u2) / 100 <=? (100 - u1) / 100)%float = true).
  { apply (leb_div_mono 100 _ _ 7036874417766400 (-46) eq_refl).
    apply (leb_sub_mono 100 _ _ eq_refl). apply ltb_leb. exact Hlt. }
  set (P := int64_mul MaxNodeScore (weight up)) in *.
  destruct (Z.eq_dec P 0) as [HP0|HPne].
  - destruct (Hzero HP0) as [Hf1 Hf2]. rewrite HP0.
    change (float64_of_int 0) with 0%float.
    apply fin_mul_zero; apply ratio_fin; apply is_finite_fin; assumption.
  - destruct (float64_of_int_pos P) as (mw & ew & Hw).
    { pose proof (wrap64_range (MaxNodeScore * weight up)). unfold P, int64_mul in *. lia. }
    apply (leb_mul_mono _ _ _ mw ew Hw). exact Hratio.
Qed.

Lemma score_monotone_witness :
  SamplePeriods samplePlugin <> ""%string
  /\ (50 <? 85)%float = true
  /\ 0 <= int64_mul MaxNodeScore (weight samplePlugin)
  /\ (fst (nodeOrderFn samplePlugin sampleTask (sampleNode "b" 85 40))
      <=? fst (nodeOrderFn samplePlugin sampleTask (sampleNode "a" 50 40)))%float = true.
Proof.
  assert (Hp : SamplePeriods samplePlugin <> ""%string) by discriminate.
  assert (Hw : 0 <= int64_mul MaxNodeScore (weight samplePlugin))
    by (vm_compute; discriminate).
  split; [exact Hp|]. split; [reflexivity|]. split; [exact Hw|].
  apply (score_monotone samplePlugin sampleTask (sampleNode "a" 50 40)
           (sampleNode "b" 85 40) 50 85 Hp eq_refl eq_refl eq_refl Hw).
  intros H0. vm_compute in H0. discriminate H0.
Defined.

(** The weights from 0 to 92233720368547758 have such a product. *)
Lemma int64_mul_nonneg (weight : Z) :
  0 <= weight <= 92233720368547758 -> 0 <= int64_mul MaxNodeScore weight.
Proof.
  intros H. rewrite int64_mul_small by lia. unfold MaxNodeScore. lia.
Qed.

(** ** The bootstrap *)

Lemma refreshes_app (t1 t2 : list Event) :
  refreshes (t1 ++ t2) = (refreshes t1 + refreshes t2)%nat.
Proof.
  induction t1 as [|e t1 IH]; simpl; [reflexivity|].
  destruct e; simpl; rewrite IH; reflexivity.
Qed.

(** What a successful copy leaves in the node list: every node keeps its
    name and holds the snapshot of the cache's node of that name. *)
Lemma copyUsage_lookup (Nodes : gmap string NodeInfo) (nl nl' : list NodeInfo) :
  copyUsage Nodes nl = Some nl' ->
  length nl' = length nl
  /\ forall (i : nat) (node : NodeInfo), nl !! i = Some node ->
       exists cached : NodeInfo,
         Nodes !! api.Name node = Some cached
         /\ nl' !! i = Some {| api.Name := api.Name node;
                               ResourceUsage := ResourceUsage cached |}.
Proof.
  revert nl'. induction nl as [|n nl IH]; intros nl' H; simpl in H.
  - injection H as <-. split; [reflexivity|]. intros i node Hi. discriminate Hi.
  - destruct (Nodes !! api.Name n) as [cached|] eqn:Hn; [|discriminate H].
    destruct (copyUsage Nodes nl) as [rest|]; [|discriminate H].
    injection H as <-. destruct (IH rest eq_refl) as [Hlen Hall].
    split; [simpl; rewrite Hlen; reflexivity|].
    intros [|i] node Hi; simpl in Hi.
    + injection Hi as <-. exists cached. split; [exact Hn|reflexivity].
    + apply (Hall i node Hi).
Qed.

(** The copy panics exactly when a node of the list is unknown to the cache. *)
Lemma copyUsage_panics (Nodes : gmap string NodeInfo) (nl : list NodeInfo) :
  copyUsage Nodes nl = None <->
  exists node : NodeInfo, In node nl /\ Nodes !! api.Name node = None.
Proof.
  induction nl as [|n nl IH]; simpl.
  - split; [discriminate|]. intros (node & [] & _).
  - destruct (Nodes !! api.Name n) as [cached|] eqn:Hn.
    + destruct (copyUsage Nodes nl) as [rest|].
      * split; [discriminate|]. intros (node & [<-|Hin] & Hnone); [congruence|].
        destruct IH as [_ IH]. discriminate IH. exists node. auto.
      * split; [|reflexivity]. intros _. destruct IH as [IH _].
        destruct (IH eq_refl) as (node & Hin & Hnone). exists node. auto.
    + split; [|reflexivity]. intros _. exists n. auto.
Qed.

Section Bootstrap.

Variable refreshNodes : string -> gmap string NodeInfo -> gmap string NodeInfo.

Lemma open_without_bootstrap (up : usagePlugin) (ssn : Session) (w : Process) :
  bootstraps up w = false ->
  OnSessionOpen refreshNodes up ssn w
  = Done (resolveThresholds up, register (resolveThresholds up) ssn, w).
Proof.
  unfold bootstraps, OnSessionOpen, resolveThresholds. intros H.
  destruct (pluginArguments up !! thresholdSection); [|reflexivity].
  rewrite H. reflexivity.
Qed.

Lemma open_with_bootstrap (up : usagePlugin) (ssn : Session) (w : Process) :
  bootstraps up w = true ->
  OnSessionOpen refreshNodes up ssn w
  = match bootstrap refreshNodes (resolveThresholds up) ssn w with
    | Done (ssn', w') =>
        Done (resolveThresholds up, register (resolveThresholds up) ssn', w')
    | Panic w' => Panic w'
    end.
Proof.
  unfold bootstraps, OnSessionOpen, resolveThresholds. intros H.
  destruct (pluginArguments up !! thresholdSection); [|discriminate H].
  rewrite H. reflexivity.
Qed.

Lemma refreshed_fields (up : usagePlugin) (w : Process) :
  Period (refreshed refreshNodes up w) = SamplePeriods up
  /\ trace (refreshed refreshNodes up w)
     = trace w ++ [EvSetPeriod (SamplePeriods up); EvGetMetricsData]
  /\ cache (refreshed refreshNodes up w)
     = match cache w with
       | SchedulerCache Nodes =>
           SchedulerCache (refreshNodes (SamplePeriods up) Nodes)
       | OtherCache => OtherCache
       end.
Proof.
  unfold refreshed, GetMetricsData, setPeriod. simpl.
  rewrite <- app_assoc. auto.
Qed.

Lemma bootstrap_scheduler_cache
  (up : usagePlugin) (ssn : Session) (w : Process) (Nodes : gmap string NodeInfo) :
  cache w = SchedulerCache Nodes ->
  bootstrap refreshNodes up ssn w
  = match copyUsage (refreshNodes (SamplePeriods up) Nodes) (NodeList ssn) with
    | Some nl => Done (withNodeList nl ssn, refreshed refreshNodes up w)
    | None => Panic (refreshed refreshNodes up w)
    end.
Proof.
  intros Hc. unfold bootstrap. fold (refreshed refreshNodes up w).
  destruct (refreshed_fields up w) as (_ & _ & ->). rewrite Hc. reflexivity.
Qed.

Lemma bootstrap_other_cache (up : usagePlugin) (ssn : Session) (w : Process) :
  cache w = OtherCache ->
  bootstrap refreshNodes up ssn w
  = Done (ssn, logError "chane cache to schedulerCache error" (refreshed refreshNodes up w)).
Proof.
  intros Hc. unfold bootstrap. fold (refreshed refreshNodes up w).
  destruct (refreshed_fields up w) as (_ & _ & ->). rewrite Hc. reflexivity.
Qed.

(** Once [source.Period] is set, no later session changes the process. *)
Lemma run_after_bootstrap (sessions : list (Arguments * Session)) (w : Process) :
  Period w <> ""%string -> run refreshNodes sessions w = w.
Proof.
  intros Hp. induction sessions as [|[args ssn] rest IH]; simpl; [reflexivity|].
  rewrite open_without_bootstrap; [exact IH|].
  unfold bootstraps. destruct (pluginArguments (New args) !! thresholdSection);
    [apply period_nonempty; exact Hp | reflexivity].
Qed.

Lemma refreshed_count (up : usagePlugin) (w : Process) :
  refreshes (trace (refreshed refreshNodes up w)) = S (refreshes (trace w)).
Proof.
  destruct (refreshed_fields up w) as (_ & -> & _).
  rewrite refreshes_app. simpl. lia.
Qed.

Lemma run_refreshes_once (sessions : list (Arguments * Session)) (w : Process) :
  Forall (fun s : Arguments * Session =>
            s.1 !! thresholdSection <> None -> SamplePeriods (New s.1) <> ""%string)
         sessions ->
  (refreshes (trace (run refreshNodes sessions w)) <= S (refreshes (trace w)))%nat.
Proof.
  revert w. induction sessions as [|[args ssn] rest IH]; intros w Hall; simpl; [lia|].
  apply Forall_cons in Hall. destruct Hall as [Hargs Hrest]. simpl in Hargs.
  destruct (bootstraps (New args) w) eqn:Hb.
  - rewrite (open_with_bootstrap _ _ _ Hb).
    assert (Hp : SamplePeriods (resolveThresholds (New args)) <> ""%string).
    { destruct (resolveThresholds_keeps (New args)) as (_ & _ & _ & ->).
      apply Hargs. unfold bootstraps in Hb. cbn [pluginArguments New] in Hb.
      destruct (args !! thresholdSection); [discriminate|discriminate Hb]. }
    set (up := resolveThresholds (New args)) in *.
    assert (Hw : Period (refreshed refreshNodes up w) <> ""%string)
      by (destruct (refreshed_fields up w) as (-> & _); exact Hp).
    destruct (cache w) as [Nodes|] eqn:Hc.
    + rewrite (bootstrap_scheduler_cache up ssn w Nodes Hc).
      destruct (copyUsage _ _).
      * rewrite (run_after_bootstrap rest _ Hw), refreshed_count. lia.
      * rewrite refreshed_count. lia.
    + rewrite (bootstrap_other_cache up ssn w Hc).
      rewrite run_after_bootstrap by exact Hw.
      unfold logError. cbn [trace]. rewrite refreshes_app, refreshed_count.
      simpl. lia.
  - rewrite (open_without_bootstrap _ _ _ Hb). apply IH. exact Hrest.
Qed.

End Bootstrap.

(** C6 as stated fails, in three ways.  A plugin whose sample period is
    empty sets the indicator to the empty string, so the bootstrap runs
    again in the next session.  With a cache that is not the scheduler's
    own, the bootstrap runs and copies nothing: the nodes of the session
    keep the snapshots they had.  With the scheduler's cache and a session
    node that the cache does not hold, the bootstrap runs and the call
    panics: no snapshot is copied. *)
Lemma bootstrap_twice_with_empty_period :
  let refreshNodes := fun (_ : string) (Nodes : gmap string NodeInfo) => Nodes in
  (let sessions := [(emptyPeriodArgs, emptySession []); (emptyPeriodArgs, emptySession [])] in
   let w := run refreshNodes sessions (startedProcess (SchedulerCache ∅)) in
   trace w = [EvSetPeriod ""; EvGetMetricsData; EvSetPeriod ""; EvGetMetricsData]
   /\ ~ (refreshes (trace w) <= 1)%nat)
  /\ (let ssn := emptySession [sampleNode "a" 50 40] in
      let w := startedProcess OtherCache in
      bootstraps (New sampleArgs) w = true
      /\ exists (ssn' : Session) (w' : Process),
           OnSessionOpen refreshNodes (New sampleArgs) ssn w = Done (samplePlugin, ssn', w')
           /\ NodeList ssn' = [sampleNode "a" 50 40])
  /\ (let ssn := emptySession [sampleNode "a" 50 40] in
      let w := startedProcess (SchedulerCache ∅) in
      bootstraps (New sampleArgs) w = true
      /\ exists w' : Process,
           OnSessionOpen refreshNodes (New sampleArgs) ssn w = Panic w').
Proof.
  intros refreshNodes. split; [|split].
  - intros sessions w.
    assert (Ht : trace w
                 = [EvSetPeriod ""; EvGetMetricsData; EvSetPeriod ""; EvGetMetricsData])
      by (vm_compute; reflexivity).
    split; [exact Ht|]. rewrite Ht. simpl. lia.
  - intros ssn w. split; [reflexivity|]. eexists _, _. split; reflexivity.
  - intros ssn w. split; [reflexivity|]. eexists. reflexivity.
Qed.

(** C6 (amended): the bootstrap runs exactly when the arguments have a
    threshold section and the process-wide indicator is empty.  When it
    runs, the indicator is set to the sample period of the plugin, then
    the metrics refresh is invoked (it sees the new indicator), then, when
    the cache is the scheduler's own: if the refreshed cache holds a node
    for the name of every node of the session, the call ends normally and
    every node of the session has taken the snapshot the refreshed cache
    holds for its name; if it holds none for some node of the session, the
    call panics.  When the sample periods of the plugins that have a
    threshold section are not empty, the refresh is invoked at most once
    over all the sessions of a process. *)
Theorem bootstrap_runs_once
  (refreshNodes : string -> gmap string NodeInfo -> gmap string NodeInfo) :
  (forall (up : usagePlugin) (w : Process),
      bootstraps up w = true <->
      pluginArguments up !! thresholdSection <> None /\ Period w = ""%string)
  /\ (forall (up : usagePlugin) (ssn : Session) (w : Process),
        bootstraps up w = false ->
        OnSessionOpen refreshNodes up ssn w
        = Done (resolveThresholds up, register (resolveThresholds up) ssn, w))
  /\ (forall (up : usagePlugin) (ssn : Session) (w : Process),
        bootstraps up w = true ->
        let up' := resolveThresholds up in
        let w' := refreshed refreshNodes up' w in
        Period w' = SamplePeriods up
        /\ trace w' = trace w ++ [EvSetPeriod (SamplePeriods up); EvGetMetricsData]
        /\ forall Nodes : gmap string NodeInfo,
             cache w = SchedulerCache Nodes ->
             let Nodes' := refreshNodes (SamplePeriods up) Nodes in
             cache w' = SchedulerCache Nodes'
             /\ ((forall node : NodeInfo,
                     In node (NodeList ssn) -> Nodes' !! api.Name node <> None) ->
                 exists nl : list NodeInfo,
                   OnSessionOpen refreshNodes up ssn w
                   = Done (up', register up' (withNodeList nl ssn), w')
                   /\ length nl = length (NodeList ssn)
                   /\ forall (i : nat) (node : NodeInfo),
                        NodeList ssn !! i = Some node ->
                        exists cached : NodeInfo,
                          Nodes' !! api.Name node = Some cached
                          /\ nl !! i
                             = Some {| api.Name := api.Name node;
                                       ResourceUsage := ResourceUsage cached |})
             /\ ((exists node : NodeInfo,
                     In node (NodeList ssn) /\ Nodes' !! api.Name node = None) ->
                 OnSessionOpen refreshNodes up ssn w = Panic w'))
  /\ (forall (sessions : list (Arguments * Session)) (w : Process),
        Forall (fun s : Arguments * Session =>
                  s.1 !! thresholdSection <> None ->
                  SamplePeriods (New s.1) <> ""%string) sessions ->
        (refreshes (trace (run refreshNodes sessions w))
         <= S (refreshes (trace w)))%nat).
Proof.
  split; [|split; [|split]].
  - intros up w. unfold bootstraps.
    destruct (pluginArguments up !! thresholdSection).
    + rewrite String.eqb_eq. intuition discriminate.
    + intuition discriminate.
  - apply open_without_bootstrap.
  - intros up ssn w Hb up' w'.
    destruct (resolveThresholds_keeps up) as (_ & _ & _ & Hsp). fold up' in Hsp.
    destruct (refreshed_fields refreshNodes up' w) as (Hper & Htr & Hca).
    fold w' in Hper, Htr, Hca. rewrite Hsp in Hper, Htr, Hca.
    split; [exact Hper|]. split; [exact Htr|].
    intros Nodes Hc Nodes'. rewrite Hc in Hca. split; [exact Hca|].
    assert (Hopen : OnSessionOpen refreshNodes up ssn w
                    = match copyUsage Nodes' (NodeList ssn) with
                      | Some nl => Done (up', register up' (withNodeList nl ssn), w')
                      | None => Panic w'
                      end).
    { rewrite (open_with_bootstrap refreshNodes up ssn w Hb). fold up'.
      rewrite (bootstrap_scheduler_cache refreshNodes up' ssn w Nodes Hc).
      fold w'. rewrite Hsp. fold Nodes'.
      destruct (copyUsage Nodes' (NodeList ssn)); reflexivity. }
    rewrite Hopen. split.
    + intros Hall.
      destruct (copyUsage Nodes' (NodeList ssn)) as [nl|] eqn:Hcopy.
      * exists nl. split; [reflexivity|]. apply copyUsage_lookup. exact Hcopy.
      * apply copyUsage_panics in Hcopy as (node & Hin & Hnone).
        destruct (Hall node Hin Hnone).
    + intros Hmiss. apply copyUsage_panics in Hmiss. rewrite Hmiss. reflexivity.
  - apply run_refreshes_once.
Qed.

Lemma bootstrap_runs_once_witness :
  let refreshNodes := fun (_ : string) (Nodes : gmap string NodeInfo) => Nodes in
  let sessions := [(sampleArgs, emptySession []); (sampleArgs, emptySession [])] in
  let w := startedProcess (SchedulerCache {["a" := sampleNode "a" 85 40]}) in
  let ssn := emptySession [sampleNode "a" 50 40] in
  Forall (fun s : Arguments * Session =>
            s.1 !! thresholdSection <> None ->
            SamplePeriods (New s.1) <> ""%string) sessions
  /\ (refreshes (trace (run refreshNodes sessions w)) <= S (refreshes (trace w)))%nat
  /\ bootstraps (New sampleArgs) w = true
  /\ exists nl : list NodeInfo,
       OnSessionOpen refreshNodes (New sampleArgs) ssn w
       = Done (samplePlugin, register samplePlugin (withNodeList nl ssn),
               refreshed refreshNodes samplePlugin w)
       /\ nl !! 0%nat = Some (sampleNode "a" 85 40).
Proof.
  intros refreshNodes sessions w ssn.
  assert (H : Forall (fun s : Arguments * Session =>
                        s.1 !! thresholdSection <> None ->
                        SamplePeriods (New s.1) <> ""%string) sessions)
    by (repeat constructor; discriminate).
  assert (Hb : bootstraps (New sampleArgs) w = true) by reflexivity.
  split; [exact H|].
  split; [exact (proj2 (proj2 (proj2 (bootstrap_runs_once refreshNodes))) sessions w H)|].
  split; [exact Hb|].
  destruct (proj1 (proj2 (proj2 (bootstrap_runs_once refreshNodes)))
              (New sampleArgs) ssn w Hb) as (_ & _ & Hcopy).
  destruct (Hcopy {["a" := sampleNode "a" 85 40]} eq_refl) as (_ & Hdone & _).
  destruct Hdone as (nl & Hopen & _ & Hnl).
  { intros node [<-|[]]. discriminate. }
  exists nl. split; [exact Hopen|].
  destruct (Hnl 0%nat (sampleNode "a" 50 40) eq_refl) as (cached & Hcached & Hi).
  injection Hcached as <-. exact Hi.
Defined.

Example bootstrap_sample_trace :
  trace (run (fun _ Nodes => Nodes)
             [(sampleArgs, emptySession []); (sampleArgs, emptySession [])]
             (startedProcess (SchedulerCache ∅)))
  = [EvSetPeriod "10m"; EvGetMetricsData].
Proof. vm_compute. reflexivity. Qed.

(** C9: when the bootstrap runs and the cache of the session is not the
    scheduler's own, the copy of the snapshots is skipped: the call ends
    normally, the session keeps its node list as it was, and still the
    indicator is set and the metrics refresh is invoked (then the error is
    logged). *)
Theorem bootstrap_unrecognized_cache
  (refreshNodes : string -> gmap string NodeInfo -> gmap string NodeInfo)
  (up : usagePlugin) (ssn : Session) (w : Process) :
  bootstraps up w = true ->
  cache w = OtherCache ->
  exists (ssn' : Session) (w' : Process),
    OnSessionOpen refreshNodes up ssn w = Done (resolveThresholds up, ssn', w')
    /\ NodeList ssn' = NodeList ssn
    /\ Period w' = SamplePeriods up
    /\ cache w' = OtherCache
    /\ trace w' = trace w ++ [EvSetPeriod (SamplePeriods up); EvGetMetricsData;
                              EvLogError "chane cache to schedulerCache error"].
Proof.
  intros Hb Hc.
  destruct (resolveThresholds_keeps up) as (_ & _ & _ & Hsp).
  destruct (refreshed_fields refreshNodes (resolveThresholds up) w) as (Hper & Htr & Hca).
  rewrite Hsp in Hper, Htr. rewrite Hc in Hca.
  eexists _, _. split.
  - rewrite (open_with_bootstrap refreshNodes up ssn w Hb).
    rewrite (bootstrap_other_cache refreshNodes _ ssn w Hc). reflexivity.
  - unfold logError. cbn [NodeList register Period cache trace].
    rewrite Hper, Hca, Htr, <- app_assoc. auto.
Qed.

Lemma bootstrap_unrecognized_cache_witness :
  let refreshNodes := fun (_ : string) (Nodes : gmap string NodeInfo) => Nodes in
  let up := New sampleArgs in
  let ssn := emptySession [sampleNode "a" 50 40] in
  let w := startedProcess OtherCache in
  bootstraps up w = true
  /\ cache w = OtherCache
  /\ exists (ssn' : Session) (w' : Process),
       OnSessionOpen refreshNodes up ssn w = Done (resolveThresholds up, ssn', w')
       /\ NodeList ssn' = NodeList ssn
       /\ Period w' = SamplePeriods up
       /\ cache w' = OtherCache
       /\ trace w' = trace w ++ [EvSetPeriod (SamplePeriods up); EvGetMetricsData;
                                 EvLogError "chane cache to schedulerCache error"].
Proof.
  intros refreshNodes up ssn w.
  split; [reflexivity|]. split; [reflexivity|].
  apply (bootstrap_unrecognized_cache refreshNodes up ssn w); reflexivity.
Defined.

(** ** Resolution of the arguments never fails *)

(** Each threshold that the loop leaves is the one it found or the
    conversion of a value the section binds. *)
Lemma fold_thresholdStep_values (kvs : list (value * value)) (up : usagePlugin) :
  (cpuThresholds (fold_left thresholdStep kvs up) = cpuThresholds up
   \/ exists k v, In (k, v) kvs
        /\ cpuThresholds (fold_left thresholdStep kvs up) = float64_of_int (asInt v))
  /\ (memThresholds (fold_left thresholdStep kvs up) = memThresholds up
      \/ exists k v, In (k, v) kvs
           /\ memThresholds (fold_left thresholdStep kvs up) = float64_of_int (asInt v)).
Proof.
  revert up. induction kvs as [|[k v] kvs IH]; intros up; [split; left; reflexivity|].
  simpl fold_left. destruct (IH (thresholdStep up (k, v))) as [IHc IHm].
  assert (Hlater : forall P : value -> Prop,
             (exists k' v', In (k', v') kvs /\ P v') ->
             exists k' v', In (k', v') ((k, v) :: kvs) /\ P v').
  { intros P (k' & v' & Hin & HP). exists k', v'. split; [right; exact Hin | exact HP]. }
  split.
  - destruct IHc as [->|Hex]; [|right; apply (Hlater _ Hex)].
    unfold thresholdStep. cbn [fst snd]. fold (asInt v).
    destruct (String.eqb _ "cpu");
      [right; exists k, v; split; [left; reflexivity | reflexivity]|].
    destruct (String.eqb _ "mem"); left; reflexivity.
  - destruct IHm as [->|Hex]; [|right; apply (Hlater _ Hex)].
    unfold thresholdStep. cbn [fst snd]. fold (asInt v).
    destruct (String.eqb _ "cpu"); [left; reflexivity|].
    destruct (String.eqb _ "mem");
      [right; exists k, v; split; [left; reflexivity | reflexivity] | left; reflexivity].
Qed.

(** C8: resolving the empty arguments yields weight 1, type "average",
    period "10m" and both thresholds 80.  Resolution cannot fail: for any
    arguments, of whatever types, the plugin keeps the arguments; its
    weight, type and period are the arguments "usage.weight", "type" and
    "period" when they are an integer, a string and a string, and the
    defaults 1, "average" and "10m" in every other case (argument absent
    or of another type); each threshold is 80 unless the threshold
    section is a mapping, and then it is 80 or the conversion of a value
    the section binds (of 0 for a value that is not an integer).
    [OnSessionOpen] goes on with that plugin, and does not fail either but
    in the copy of the snapshots, when a node of the session is unknown to
    the scheduler's cache. *)
Theorem resolve_empty_defaults
  (refreshNodes : string -> gmap string NodeInfo -> gmap string NodeInfo) :
  resolveThresholds (New ∅)
  = {| pluginArguments := ∅; weight := 1; usageType := "average";
       cpuThresholds := 80; memThresholds := 80; SamplePeriods := "10m" |}
  /\ (forall args : Arguments,
         let up := resolveThresholds (New args) in
         pluginArguments up = args
         /\ weight up = match args !! "usage.weight" with
                        | Some (VInt z) => z
                        | _ => 1
                        end
         /\ usageType up = match args !! "type" with
                           | Some (VString s) => s
                           | _ => "average"%string
                           end
         /\ SamplePeriods up = match args !! "period" with
                               | Some (VString s) => s
                               | _ => "10m"%string
                               end
         /\ match args !! thresholdSection with
            | Some (VMap kvs) =>
                (cpuThresholds up = 80%float
                 \/ exists k v, In (k, v) kvs
                      /\ cpuThresholds up = float64_of_int (asInt v))
                /\ (memThresholds up = 80%float
                    \/ exists k v, In (k, v) kvs
                         /\ memThresholds up = float64_of_int (asInt v))
            | _ => cpuThresholds up = 80%float /\ memThresholds up = 80%float
            end)
  /\ (forall (args : Arguments) (ssn : Session) (w : Process),
         match OnSessionOpen refreshNodes (New args) ssn w with
         | Done (up, _, _) => up = resolveThresholds (New args)
         | Panic _ =>
             exists (Nodes : gmap string NodeInfo) (node : NodeInfo),
               cache w = SchedulerCache Nodes
               /\ In node (NodeList ssn)
               /\ refreshNodes (SamplePeriods (New args)) Nodes !! api.Name node = None
         end).
Proof.
  split; [reflexivity|]. split.
  - intros args up.
    destruct (resolveThresholds_keeps (New args)) as (Ha & Hw & Ht & Hp).
    fold up in Ha, Hw, Ht, Hp.
    split; [exact Ha|]. split; [exact Hw|]. split; [exact Ht|]. split; [exact Hp|].
    unfold up, resolveThresholds. cbn [pluginArguments New].
    destruct (args !! thresholdSection) as [section|]; [|split; reflexivity].
    destruct section; try (split; reflexivity).
    apply (fold_thresholdStep_values kvs (New args)).
  - intros args ssn w.
    destruct (bootstraps (New args) w) eqn:Hb.
    + rewrite (open_with_bootstrap refreshNodes _ ssn w Hb).
      destruct (resolveThresholds_keeps (New args)) as (_ & _ & _ & Hsp).
      destruct (cache w) as [Nodes|] eqn:Hc.
      * rewrite (bootstrap_scheduler_cache refreshNodes _ ssn w Nodes Hc), Hsp.
        destruct (copyUsage _ _) as [nl|] eqn:Hcopy; [reflexivity|].
        apply copyUsage_panics in Hcopy as (node & Hin & Hnone).
        exists Nodes, node. auto.
      * rewrite (bootstrap_other_cache refreshNodes _ ssn w Hc). reflexivity.
    + rewrite (open_without_bootstrap refreshNodes _ ssn w Hb). reflexivity.
Qed.

Lemma resolve_empty_defaults_witness :
  let args : Arguments :=
    <["usage.weight" := VString "3"]>
      (<["type" := VInt 5]>
         (<["period" := VBool true]> (<["thresholds" := VString "70"]> ∅))) in
  let up := resolveThresholds (New args) in
  weight up = 1 /\ usageType up = "average"%string /\ SamplePeriods up = "10m"%string
  /\ cpuThresholds up = 80%float /\ memThresholds up = 80%float.
Proof.
  intros args up.
  destruct (proj1 (proj2 (resolve_empty_defaults (fun _ Nodes => Nodes))) args)
    as (_ & Hw & Ht & Hp & Hc & Hm).
  split; [exact Hw|]. split; [exact Ht|]. split; [exact Hp|].
  split; [exact Hc | exact Hm].
Defined.

(** * Further properties *)

(** ** The threshold section *)

Lemma thresholdStep_cpu (up : usagePlugin) (k v : value) :
  (k = VString "cpu" ->
   cpuThresholds (thresholdStep up (k, v)) = float64_of_int (asInt v))
  /\ (k <> VString "cpu" ->
      cpuThresholds (thresholdStep up (k, v)) = cpuThresholds up).
Proof.
  split.
  - intros ->. reflexivity.
  - intros Hk. unfold thresholdStep. cbn [fst snd].
    destruct (String.eqb _ "cpu") eqn:Hc.
    + exfalso. apply Hk. apply String.eqb_eq in Hc. destruct k; try discriminate Hc.
      congruence.
    + destruct (String.eqb _ "mem"); reflexivity.
Qed.

Lemma thresholdStep_mem (up : usagePlugin) (k v : value) :
  (k = VString "mem" ->
   memThresholds (thresholdStep up (k, v)) = float64_of_int (asInt v))
  /\ (k <> VString "mem" ->
      memThresholds (thresholdStep up (k, v)) = memThresholds up).
Proof.
  split.
  - intros ->. reflexivity.
  - intros Hk. unfold thresholdStep. cbn [fst snd].
    destruct (String.eqb _ "cpu") eqn:Hc; [reflexivity|].
    destruct (String.eqb _ "mem") eqn:Hm; [|reflexivity].
    exfalso. apply Hk. apply String.eqb_eq in Hm. destruct k; try discriminate Hm.
    congruence.
Qed.

Lemma fold_thresholdStep_unbound (key : string) (kvs : list (value * value)) (up : usagePlugin) :
  (forall v : value, ~ In (VString key, v) kvs) ->
  (key = "cpu"%string ->
   cpuThresholds (fold_left thresholdStep kvs up) = cpuThresholds up)
  /\ (key = "mem"%string ->
      memThresholds (fold_left thresholdStep kvs up) = memThresholds up).
Proof.
  revert up. induction kvs as [|[k v] kvs IH]; intros up Hno; [split; reflexivity|].
  assert (Hk : k <> VString key) by (intros ->; apply (Hno v); left; reflexivity).
  assert (Hrest : forall v' : value, ~ In (VString key, v') kvs)
    by (intros v' Hin; apply (Hno v'); right; exact Hin).
  destruct (IH (thresholdStep up (k, v)) Hrest) as [IHc IHm].
  split; intros ->; simpl fold_left.
  - rewrite (IHc eq_refl). apply thresholdStep_cpu. exact Hk.
  - rewrite (IHm eq_refl). apply thresholdStep_mem. exact Hk.
Qed.

Lemma fold_thresholdStep_bound (key : string) (kvs : list (value * value))
  (v : value) (up : usagePlugin) :
  NoDup (map fst kvs) -> In (VString key, v) kvs ->
  (key = "cpu"%string ->
   cpuThresholds (fold_left thresholdStep kvs up) = float64_of_int (asInt v))
  /\ (key = "mem"%string ->
      memThresholds (fold_left thresholdStep kvs up) = float64_of_int (asInt v)).
Proof.
  revert up. induction kvs as [|[k v'] kvs IH]; intros up Hnd Hin; [destruct Hin|].
  simpl in Hnd. inversion Hnd as [|k0 ks Hnotin Hnd']; subst.
  destruct Hin as [Heq|Hin].
  - injection Heq as -> ->.
    assert (Hrest : forall v0 : value, ~ In (VString key, v0) kvs).
    { intros v0 Hin. apply Hnotin. apply list_elem_of_In.
      apply (in_map fst) in Hin. exact Hin. }
    destruct (fold_thresholdStep_unbound key kvs (thresholdStep up (VString key, v)) Hrest)
      as [Hc Hm].
    split; intros ->; simpl fold_left.
    + rewrite (Hc eq_refl). reflexivity.
    + rewrite (Hm eq_refl). reflexivity.
  - simpl fold_left. apply IH; assumption.
Qed.

(** X1: in a threshold section with distinct keys, the binding of "cpu" (of
    "mem") decides the threshold, whatever else the section binds and
    wherever the binding stands; without such a binding the threshold keeps
    its default 80. *)
Theorem thresholds_by_binding (args : Arguments) (kvs : list (value * value)) :
  args !! thresholdSection = Some (VMap kvs) ->
  NoDup (map fst kvs) ->
  let up := resolveThresholds (New args) in
  (forall v : value, In (VString "cpu", v) kvs ->
                     cpuThresholds up = float64_of_int (asInt v))
  /\ (forall v : value, In (VString "mem", v) kvs ->
                        memThresholds up = float64_of_int (asInt v))
  /\ ((forall v : value, ~ In (VString "cpu", v) kvs) -> cpuThresholds up = 80%float)
  /\ ((forall v : value, ~ In (VString "mem", v) kvs) -> memThresholds up = 80%float).
Proof.
  intros Hargs Hnd up.
  assert (Hup : up = fold_left thresholdStep kvs (New args)).
  { unfold up, resolveThresholds. cbn [pluginArguments New]. rewrite Hargs. reflexivity. }
  rewrite Hup. repeat split.
  - intros v Hin. apply (fold_thresholdStep_bound "cpu" kvs v _ Hnd Hin). reflexivity.
  - intros v Hin. apply (fold_thresholdStep_bound "mem" kvs v _ Hnd Hin). reflexivity.
  - intros Hno.
    rewrite (proj1 (fold_thresholdStep_unbound "cpu" kvs (New args) Hno) eq_refl).
    reflexivity.
  - intros Hno.
    rewrite (proj2 (fold_thresholdStep_unbound "mem" kvs (New args) Hno) eq_refl).
    reflexivity.
Qed.

Lemma thresholds_by_binding_witness :
  let kvs := [(VString "gpu", VInt 5); (VString "mem", VInt 60); (VInt 3, VString "x");
              (VString "cpu", VInt 75)] in
  let args : Arguments := <["thresholds" := VMap kvs]> ∅ in
  args !! thresholdSection = Some (VMap kvs)
  /\ NoDup (map fst kvs)
  /\ cpuThresholds (resolveThresholds (New args)) = 75%float
  /\ memThresholds (resolveThresholds (New args)) = 60%float.
Proof.
  intros kvs args.
  assert (Hnd : NoDup (map fst kvs)).
  { simpl.
    repeat (apply NoDup_cons_2; [rewrite ?elem_of_cons, elem_of_nil; intuition discriminate|]).
    apply NoDup_nil_2. }
  split; [reflexivity|]. split; [exact Hnd|].
  destruct (thresholds_by_binding args kvs eq_refl Hnd) as (Hc & Hm & _).
  split; [apply (Hc (VInt 75)) | apply (Hm (VInt 60))]; simpl; auto.
Defined.

(** The arguments and the usage type a plugin carries play no part in
    the loop over the bindings. *)
Lemma fold_thresholdStep_inert
  (a : Arguments) (t : string) (kvs : list (value * value)) (up : usagePlugin) :
  fold_left thresholdStep kvs
    {| pluginArguments := a; weight := weight up; usageType := t;
       cpuThresholds := cpuThresholds up; memThresholds := memThresholds up;
       SamplePeriods := SamplePeriods up |}
  = let up' := fold_left thresholdStep kvs up in
    {| pluginArguments := a; weight := weight up'; usageType := t;
       cpuThresholds := cpuThresholds up'; memThresholds := memThresholds up';
       SamplePeriods := SamplePeriods up' |}.
Proof.
  revert up. induction kvs as [|kv kvs IH]; intros up; [reflexivity|].
  simpl fold_left. rewrite <- IH. f_equal.
  unfold thresholdStep.
  destruct (String.eqb _ "cpu"); [reflexivity|].
  destruct (String.eqb _ "mem"); reflexivity.
Qed.

(** X2: the order in which the loop visits the bindings of the threshold
    section (Go leaves the order of [range] over a map unspecified) has no
    effect: two sections that hold the same bindings, with distinct keys,
    resolve to the same thresholds, the same filter and the same score. *)
Theorem threshold_order_irrelevant
  (args : Arguments) (kvs kvs' : list (value * value)) :
  args !! thresholdSection = Some (VMap kvs) ->
  Permutation kvs kvs' ->
  NoDup (map fst kvs) ->
  let up := resolveThresholds (New args) in
  let up' := resolveThresholds (New (<[thresholdSection := VMap kvs']> args)) in
  cpuThresholds up' = cpuThresholds up
  /\ memThresholds up' = memThresholds up
  /\ (forall (task : TaskInfo) (node : NodeInfo),
         predicateFn up' task node = predicateFn up task node
         /\ nodeOrderFn up' task node = nodeOrderFn up task node).
Proof.
  intros Hargs Hperm Hnd up up'.
  set (args' := <[thresholdSection := VMap kvs']> args).
  assert (Hnew : New args'
                 = {| pluginArguments := args'; weight := weight (New args);
                      usageType := usageType (New args');
                      cpuThresholds := cpuThresholds (New args);
                      memThresholds := memThresholds (New args);
                      SamplePeriods := SamplePeriods (New args) |}).
  { unfold New, GetInt, args', thresholdSection.
    rewrite !lookup_insert_ne by discriminate. reflexivity. }
  assert (Hup : up = fold_left thresholdStep kvs (New args)).
  { unfold up, resolveThresholds. cbn [pluginArguments New]. rewrite Hargs. reflexivity. }
  assert (Hup' : up' = let u := fold_left thresholdStep kvs (New args) in
                       {| pluginArguments := args'; weight := weight u;
                          usageType := usageType (New args');
                          cpuThresholds := cpuThresholds u;
                          memThresholds := memThresholds u;
                          SamplePeriods := SamplePeriods u |}).
  { unfold up', resolveThresholds. fold args'. cbn [pluginArguments New].
    unfold args' at 1. rewrite lookup_insert_eq. cbn [thresholdArgs].
    rewrite Hnew, fold_thresholdStep_inert.
    rewrite <- (fold_thresholdStep_perm kvs kvs' (New args) Hperm Hnd). reflexivity. }
  rewrite Hup', <- Hup. cbn zeta. repeat split.
Qed.

Lemma threshold_order_irrelevant_witness :
  let kvs := [(VString "cpu", VInt 75); (VString "mem", VInt 60)] in
  let kvs' := [(VString "mem", VInt 60); (VString "cpu", VInt 75)] in
  let args : Arguments := <["thresholds" := VMap kvs]> ∅ in
  Permutation kvs kvs'
  /\ NoDup (map fst kvs)
  /\ cpuThresholds (resolveThresholds (New (<[thresholdSection := VMap kvs']> args)))
     = cpuThresholds (resolveThresholds (New args)).
Proof.
  intros kvs kvs' args.
  assert (Hperm : Permutation kvs kvs') by apply perm_swap.
  assert (Hnd : NoDup (map fst kvs)).
  { simpl.
    repeat (apply NoDup_cons_2; [rewrite ?elem_of_cons, elem_of_nil; intuition discriminate|]).
    apply NoDup_nil_2. }
  split; [exact Hperm|]. split; [exact Hnd|].
  apply (threshold_order_irrelevant args kvs kvs' eq_refl Hperm Hnd).
Defined.

(** X3: arguments other than "usage.weight", "period" and "thresholds" have
    no effect on the filter and on the score. This holds for "type" too: the
    usage type is read into the plugin and never used. *)
Theorem inert_arguments
  (args : Arguments) (key : string) (v : value) (task : TaskInfo) (node : NodeInfo) :
  key <> "usage.weight"%string -> key <> "period"%string -> key <> thresholdSection ->
  let up := resolveThresholds (New args) in
  let up' := resolveThresholds (New (<[key := v]> args)) in
  predicateFn up' task node = predicateFn up task node
  /\ nodeOrderFn up' task node = nodeOrderFn up task node.
Proof.
  intros Hw Hp Ht up up'.
  set (args' := <[key := v]> args).
  assert (Hnew : New args'
                 = {| pluginArguments := args'; weight := weight (New args);
                      usageType := usageType (New args');
                      cpuThresholds := cpuThresholds (New args);
                      memThresholds := memThresholds (New args);
                      SamplePeriods := SamplePeriods (New args) |}).
  { unfold New at 1. unfold GetInt, args'. cbn [weight SamplePeriods New].
    unfold GetInt.
    rewrite (lookup_insert_ne args key "usage.weight" v) by exact Hw.
    rewrite (lookup_insert_ne args key "period" v) by exact Hp. reflexivity. }
  assert (Hsec : args' !! thresholdSection = args !! thresholdSection)
    by (apply lookup_insert_ne; exact Ht).
  assert (Hup' : up' = {| pluginArguments := args'; weight := weight up;
                          usageType := usageType (New args');
                          cpuThresholds := cpuThresholds up;
                          memThresholds := memThresholds up;
                          SamplePeriods := SamplePeriods up |}).
  { unfold up', up, resolveThresholds. fold args'. cbn [pluginArguments New].
    rewrite Hsec. destruct (args !! thresholdSection) as [section|]; [|exact Hnew].
    rewrite Hnew, fold_thresholdStep_inert. reflexivity. }
  rewrite Hup'. split; reflexivity.
Qed.

Lemma inert_arguments_witness :
  let args : Arguments := <["type" := VString "max"]> sampleArgs in
  predicateFn (resolveThresholds (New args)) sampleTask (sampleNode "b" 85 40)
  = predicateFn samplePlugin sampleTask (sampleNode "b" 85 40)
  /\ nodeOrderFn (resolveThresholds (New args)) sampleTask (sampleNode "b" 85 40)
     = nodeOrderFn samplePlugin sampleTask (sampleNode "b" 85 40).
Proof.
  intros args.
  apply (inert_arguments sampleArgs "type" (VString "max") sampleTask (sampleNode "b" 85 40));
    discriminate.
Defined.

(** ** Opening a session *)

Lemma copyUsage_names (Nodes : gmap string NodeInfo) (nl nl' : list NodeInfo) :
  copyUsage Nodes nl = Some nl' -> map api.Name nl' = map api.Name nl.
Proof.
  revert nl'. induction nl as [|n nl IH]; intros nl' H; simpl in H.
  - injection H as <-. reflexivity.
  - destruct (Nodes !! api.Name n) as [cached|]; [|discriminate H].
    destruct (copyUsage Nodes nl) as [rest|]; [|discriminate H].
    injection H as <-. simpl. rewrite (IH rest eq_refl). reflexivity.
Qed.

Section Opening.

Variable refreshNodes : string -> gmap string NodeInfo -> gmap string NodeInfo.

(** The ways in which [OnSessionOpen] ends normally. *)
Lemma open_done (up up' : usagePlugin) (ssn ssn' : Session) (w w' : Process) :
  OnSessionOpen refreshNodes up ssn w = Done (up', ssn', w') ->
  up' = resolveThresholds up
  /\ ((bootstraps up w = false /\ ssn' = register up' ssn /\ w' = w)
      \/ (bootstraps up w = true /\ cache w = OtherCache
          /\ ssn' = register up' ssn
          /\ w' = logError "chane cache to schedulerCache error"
                    (refreshed refreshNodes up' w))
      \/ (bootstraps up w = true
          /\ exists (Nodes : gmap string NodeInfo) (nl : list NodeInfo),
               cache w = SchedulerCache Nodes
               /\ copyUsage (refreshNodes (SamplePeriods up) Nodes) (NodeList ssn) = Some nl
               /\ ssn' = register up' (withNodeList nl ssn)
               /\ w' = refreshed refreshNodes up' w)).
Proof.
  intros H. destruct (bootstraps up w) eqn:Hb.
  - rewrite (open_with_bootstrap refreshNodes up ssn w Hb) in H.
    destruct (resolveThresholds_keeps up) as (_ & _ & _ & Hsp).
    destruct (cache w) as [Nodes|] eqn:Hc.
    + rewrite (bootstrap_scheduler_cache refreshNodes _ ssn w Nodes Hc), Hsp in H.
      destruct (copyUsage _ _) as [nl|] eqn:Hcopy; [|discriminate H].
      injection H as <- <- <-. split; [reflexivity|]. right. right.
      split; [reflexivity|]. exists Nodes, nl. auto.
    + rewrite (bootstrap_other_cache refreshNodes _ ssn w Hc) in H.
      injection H as <- <- <-. split; [reflexivity|]. right. left. auto.
  - rewrite (open_without_bootstrap refreshNodes up ssn w Hb) in H.
    injection H as <- <- <-. split; [reflexivity|]. left. auto.
Qed.

End Opening.

(** X4: a session that opens normally leaves the plugin with the arguments,
    the weight, the usage type and the sample period it was built with: only
    the two thresholds can change, and without a threshold section nothing
    changes. *)
Theorem open_keeps_configuration
  (refreshNodes : string -> gmap string NodeInfo -> gmap string NodeInfo)
  (up up' : usagePlugin) (ssn ssn' : Session) (w w' : Process) :
  OnSessionOpen refreshNodes up ssn w = Done (up', ssn', w') ->
  pluginArguments up' = pluginArguments up
  /\ weight up' = weight up
  /\ usageType up' = usageType up
  /\ SamplePeriods up' = SamplePeriods up
  /\ (pluginArguments up !! thresholdSection = None -> up' = up /\ w' = w).
Proof.
  intros H. pose proof H as Hdone. apply open_done in Hdone as [-> _].
  destruct (resolveThresholds_keeps up) as (Ha & Hw & Ht & Hp).
  split; [exact Ha|]. split; [exact Hw|]. split; [exact Ht|]. split; [exact Hp|].
  intros Hnone. split.
  - unfold resolveThresholds. rewrite Hnone. reflexivity.
  - unfold OnSessionOpen in H. rewrite Hnone in H. congruence.
Qed.

Lemma open_keeps_configuration_witness :
  let refreshNodes := fun (_ : string) (Nodes : gmap string NodeInfo) => Nodes in
  let ssn := emptySession [sampleNode "a" 50 40] in
  let w := startedProcess OtherCache in
  exists (up' : usagePlugin) (ssn' : Session) (w' : Process),
    OnSessionOpen refreshNodes (New sampleArgs) ssn w = Done (up', ssn', w')
    /\ weight up' = 10 /\ SamplePeriods up' = "10m"%string.
Proof.
  intros refreshNodes ssn w.
  eexists _, _, _. split; [reflexivity|].
  pose proof (open_keeps_configuration refreshNodes (New sampleArgs) _ ssn _ w _ eq_refl)
    as (_ & Hw & _ & Hp & _).
  split; [exact Hw | exact Hp].
Defined.

(** X5: a session that opens normally holds, under the name "usage", the
    filter and the score of the plugin with its thresholds resolved (not
    those of the defaults); the callbacks registered under other names are
    kept, and the node list keeps its nodes' names, in order. *)
Theorem open_registers_callbacks
  (refreshNodes : string -> gmap string NodeInfo -> gmap string NodeInfo)
  (up up' : usagePlugin) (ssn ssn' : Session) (w w' : Process) :
  OnSessionOpen refreshNodes up ssn w = Done (up', ssn', w') ->
  predicateFns ssn' !! "usage"%string = Some (predicateFn (resolveThresholds up))
  /\ nodeOrderFns ssn' !! "usage"%string = Some (nodeOrderFn (resolveThresholds up))
  /\ (forall name : string,
         name <> "usage"%string ->
         predicateFns ssn' !! name = predicateFns ssn !! name
         /\ nodeOrderFns ssn' !! name = nodeOrderFns ssn !! name)
  /\ map api.Name (NodeList ssn') = map api.Name (NodeList ssn).
Proof.
  intros H. apply open_done in H as [-> H].
  assert (Hreg : forall s : Session,
             predicateFns (register (resolveThresholds up) s) !! "usage"%string
             = Some (predicateFn (resolveThresholds up))
             /\ nodeOrderFns (register (resolveThresholds up) s) !! "usage"%string
                = Some (nodeOrderFn (resolveThresholds up))
             /\ (forall name : string,
                    name <> "usage"%string ->
                    predicateFns (register (resolveThresholds up) s) !! name
                    = predicateFns s !! name
                    /\ nodeOrderFns (register (resolveThresholds up) s) !! name
                       = nodeOrderFns s !! name)
             /\ NodeList (register (resolveThresholds up) s) = NodeList s).
  { intros s. unfold register, Name, PluginName. cbn [predicateFns nodeOrderFns NodeList].
    rewrite !lookup_insert_eq. repeat split; try reflexivity;
      apply lookup_insert_ne; congruence. }
  destruct H as [(_ & -> & _)|[(_ & _ & -> & _)|(_ & Nodes & nl & _ & Hcopy & -> & _)]];
    [destruct (Hreg ssn) as (Hp & Hn & Hother & Hnl);
     rewrite Hnl; auto ..|].
  destruct (Hreg (withNodeList nl ssn)) as (Hp & Hn & Hother & Hnl).
  rewrite Hnl. cbn [withNodeList NodeList predicateFns nodeOrderFns] in *.
  rewrite (copyUsage_names _ _ _ Hcopy). auto.
Qed.

Lemma open_registers_callbacks_witness :
  let refreshNodes := fun (_ : string) (Nodes : gmap string NodeInfo) => Nodes in
  let ssn := emptySession [sampleNode "a" 50 40] in
  let w := startedProcess (SchedulerCache {["a" := sampleNode "a" 85 40]}) in
  exists (up' : usagePlugin) (ssn' : Session) (w' : Process),
    OnSessionOpen refreshNodes (New sampleArgs) ssn w = Done (up', ssn', w')
    /\ predicateFns ssn' !! "usage"%string = Some (predicateFn samplePlugin)
    /\ map api.Name (NodeList ssn') = ["a"%string].
Proof.
  intros refreshNodes ssn w.
  eexists _, _, _. split; [vm_compute; reflexivity|].
  pose proof (open_registers_callbacks refreshNodes (New sampleArgs) _ ssn _ w _ eq_refl)
    as (Hp & _ & _ & Hnl).
  split; [exact Hp | exact Hnl].
Defined.

(** X6: [OnSessionOpen] panics in one case only: the bootstrap runs (the
    arguments have a threshold section and the indicator is empty), the
    cache is the scheduler's own, and the refreshed cache holds no node for
    the name of some node of the session. By then the indicator is set and
    the metrics refresh has been invoked. *)
Theorem open_panics_iff
  (refreshNodes : string -> gmap string NodeInfo -> gmap string NodeInfo)
  (up : usagePlugin) (ssn : Session) (w w' : Process) :
  OnSessionOpen refreshNodes up ssn w = Panic w' <->
  pluginArguments up !! thresholdSection <> None
  /\ Period w = ""%string
  /\ (exists (Nodes : gmap string NodeInfo) (node : NodeInfo),
         cache w = SchedulerCache Nodes
         /\ In node (NodeList ssn)
         /\ refreshNodes (SamplePeriods up) Nodes !! api.Name node = None)
  /\ w' = {| Period := SamplePeriods up;
             cache := match cache w with
                      | SchedulerCache Nodes =>
                          SchedulerCache (refreshNodes (SamplePeriods up) Nodes)
                      | OtherCache => OtherCache
                      end;
             trace := trace w ++ [EvSetPeriod (SamplePeriods up); EvGetMetricsData] |}.
Proof.
  destruct (resolveThresholds_keeps up) as (_ & _ & _ & Hsp).
  assert (Hw : refreshed refreshNodes (resolveThresholds up) w
               = {| Period := SamplePeriods up;
                    cache := match cache w with
                             | SchedulerCache Nodes =>
                                 SchedulerCache (refreshNodes (SamplePeriods up) Nodes)
                             | OtherCache => OtherCache
                             end;
                    trace := trace w ++ [EvSetPeriod (SamplePeriods up); EvGetMetricsData] |}).
  { unfold refreshed, GetMetricsData, setPeriod. cbn [Period cache trace].
    rewrite Hsp, <- app_assoc. reflexivity. }
  assert (Hguard : bootstraps up w = true <->
                   pluginArguments up !! thresholdSection <> None /\ Period w = ""%string).
  { unfold bootstraps. destruct (pluginArguments up !! thresholdSection).
    - rewrite String.eqb_eq. intuition discriminate.
    - intuition discriminate. }
  split.
  - intros H. destruct (bootstraps up w) eqn:Hb.
    + destruct (proj1 Hguard eq_refl) as [Hsec Hper].
      rewrite (open_with_bootstrap refreshNodes up ssn w Hb) in H.
      destruct (cache w) as [Nodes|] eqn:Hc.
      * rewrite (bootstrap_scheduler_cache refreshNodes _ ssn w Nodes Hc), Hsp in H.
        destruct (copyUsage _ _) as [nl|] eqn:Hcopy; [discriminate H|].
        injection H as <-. apply copyUsage_panics in Hcopy as (node & Hin & Hnone).
        repeat split; try assumption.
        exists Nodes, node. auto.
      * rewrite (bootstrap_other_cache refreshNodes _ ssn w Hc) in H. discriminate H.
    + rewrite (open_without_bootstrap refreshNodes up ssn w Hb) in H. discriminate H.
  - intros (Hsec & Hper & (Nodes & node & Hc & Hin & Hnone) & ->).
    assert (Hb : bootstraps up w = true) by (apply Hguard; auto).
    rewrite (open_with_bootstrap refreshNodes up ssn w Hb).
    rewrite (bootstrap_scheduler_cache refreshNodes _ ssn w Nodes Hc), Hsp.
    assert (Hcopy : copyUsage (refreshNodes (SamplePeriods up) Nodes) (NodeList ssn) = None)
      by (apply copyUsage_panics; exists node; auto).
    rewrite Hcopy, Hw, Hc. reflexivity.
Qed.

Lemma open_panics_iff_witness :
  let refreshNodes := fun (_ : string) (Nodes : gmap string NodeInfo) => Nodes in
  let ssn := emptySession [sampleNode "a" 50 40; freshNode "b"] in
  let w := startedProcess (SchedulerCache {["a" := sampleNode "a" 85 40]}) in
  OnSessionOpen refreshNodes (New sampleArgs) ssn w
  = Panic {| Period := "10m";
             cache := SchedulerCache {["a" := sampleNode "a" 85 40]};
             trace := [EvSetPeriod "10m"; EvGetMetricsData] |}.
Proof.
  intros refreshNodes ssn w.
  apply (open_panics_iff refreshNodes (New sampleArgs) ssn w).
  split; [discriminate|]. split; [reflexivity|]. split; [|reflexivity].
  exists {["a" := sampleNode "a" 85 40]}, (freshNode "b").
  split; [reflexivity|]. split; [simpl; auto | reflexivity].
Defined.

(** ** The sessions of a process *)

(** X7: a session changes nothing in the process (it sets no indicator,
    invokes no metrics refresh, touches no cache and logs no error) as soon
    as the indicator is not empty or its arguments have no threshold
    section; so no sequence of such sessions changes the process, and none
    of them panics. *)
Theorem sessions_leave_process
  (refreshNodes : string -> gmap string NodeInfo -> gmap string NodeInfo)
  (sessions : list (Arguments * Session)) (w : Process) :
  Period w <> ""%string
  \/ Forall (fun s : Arguments * Session => s.1 !! thresholdSection = None) sessions ->
  run refreshNodes sessions w = w
  /\ Forall (fun s : Arguments * Session =>
               exists (up : usagePlugin) (ssn : Session),
                 OnSessionOpen refreshNodes (New s.1) s.2 w = Done (up, ssn, w))
            sessions.
Proof.
  intros H.
  assert (Hb : Forall (fun s : Arguments * Session => bootstraps (New s.1) w = false)
                      sessions).
  { destruct H as [Hp|Hall].
    - apply Forall_forall. intros s _. unfold bootstraps.
      destruct (pluginArguments (New s.1) !! thresholdSection);
        [apply period_nonempty; exact Hp | reflexivity].
    - apply (Forall_impl _ _ _ Hall). intros s Hs. unfold bootstraps.
      cbn [pluginArguments New]. rewrite Hs. reflexivity. }
  clear H. split.
  - induction Hb as [|[args ssn] rest Hs _ IH]; cbn [run]; [reflexivity|].
    cbn [fst] in Hs.
    rewrite (open_without_bootstrap refreshNodes _ ssn w Hs). exact IH.
  - apply (Forall_impl _ _ _ Hb). intros [args ssn] Hs. cbv beta in *. cbn [fst snd] in *.
    rewrite (open_without_bootstrap refreshNodes _ ssn w Hs). eexists _, _. reflexivity.
Qed.

Lemma sessions_leave_process_witness :
  let refreshNodes := fun (_ : string) (Nodes : gmap string NodeInfo) => Nodes in
  let sessions := [((∅ : Arguments), emptySession [freshNode "a"]);
                   (<["period" := VString "5m"]> ∅, emptySession [])] in
  let w := startedProcess (SchedulerCache ∅) in
  Forall (fun s : Arguments * Session => s.1 !! thresholdSection = None) sessions
  /\ run refreshNodes sessions w = w.
Proof.
  intros refreshNodes sessions w.
  assert (H : Forall (fun s : Arguments * Session => s.1 !! thresholdSection = None)
                     sessions) by (repeat constructor).
  split; [exact H|].
  apply (sessions_leave_process refreshNodes sessions w (or_intror H)).
Defined.

(** X8: the first session that bootstraps decides the indicator for the life
    of the process: when the arguments have a threshold section, the
    indicator is empty and the sample period of the plugin is not, then
    whatever sessions follow, with whatever sample periods, the indicator
    ends as the sample period of that first plugin, and the metrics refresh
    has been invoked exactly once. *)
Theorem first_bootstrap_fixes_period
  (refreshNodes : string -> gmap string NodeInfo -> gmap string NodeInfo)
  (args : Arguments) (ssn : Session) (rest : list (Arguments * Session)) (w : Process) :
  args !! thresholdSection <> None ->
  Period w = ""%string ->
  SamplePeriods (New args) <> ""%string ->
  let w' := run refreshNodes ((args, ssn) :: rest) w in
  Period w' = SamplePeriods (New args)
  /\ refreshes (trace w') = S (refreshes (trace w)).
Proof.
  intros Hsec Hper Hsp w'. unfold w'. simpl run.
  assert (Hb : bootstraps (New args) w = true).
  { unfold bootstraps. cbn [pluginArguments New].
    destruct (args !! thresholdSection); [|congruence].
    rewrite Hper. reflexivity. }
  rewrite (open_with_bootstrap refreshNodes _ ssn w Hb).
  destruct (resolveThresholds_keeps (New args)) as (_ & _ & _ & Hkeep).
  set (up := resolveThresholds (New args)) in *.
  destruct (refreshed_fields refreshNodes up w) as (Hp & _).
  pose proof (refreshed_count refreshNodes up w) as Hcount.
  rewrite Hkeep in Hp.
  assert (Hne : Period (refreshed refreshNodes up w) <> ""%string) by (rewrite Hp; exact Hsp).
  destruct (cache w) as [Nodes|] eqn:Hc.
  - rewrite (bootstrap_scheduler_cache refreshNodes up ssn w Nodes Hc).
    destruct (copyUsage _ _).
    + rewrite (run_after_bootstrap refreshNodes rest _ Hne). auto.
    + auto.
  - rewrite (bootstrap_other_cache refreshNodes up ssn w Hc).
    rewrite run_after_bootstrap by exact Hne.
    unfold logError. cbn [Period trace]. rewrite refreshes_app, Hcount. simpl.
    split; [exact Hp | lia].
Qed.

Lemma first_bootstrap_fixes_period_witness :
  let refreshNodes := fun (_ : string) (Nodes : gmap string NodeInfo) => Nodes in
  let later : Arguments := <["period" := VString "5m"]> sampleArgs in
  let w := startedProcess (SchedulerCache ∅) in
  let w' := run refreshNodes [(sampleArgs, emptySession []); (later, emptySession [])] w in
  sampleArgs !! thresholdSection <> None
  /\ SamplePeriods (New later) = "5m"%string
  /\ Period w' = "10m"%string
  /\ refreshes (trace w') = 1%nat.
Proof.
  intros refreshNodes later w w'.
  assert (Hsec : sampleArgs !! thresholdSection <> None) by discriminate.
  assert (Hsp : SamplePeriods (New sampleArgs) <> ""%string) by discriminate.
  split; [exact Hsec|]. split; [reflexivity|].
  apply (first_bootstrap_fixes_period refreshNodes sampleArgs (emptySession [])
           [(later, emptySession [])] w Hsec eq_refl Hsp).
Defined.

(** X9: the copy of the snapshots looks at the names of the session's nodes
    only: whatever snapshots the nodes held before are overwritten, the
    names are kept in order, and copying again changes nothing. *)
Theorem copyUsage_overwrites (Nodes : gmap string NodeInfo) (nl1 nl2 : list NodeInfo) :
  map api.Name nl1 = map api.Name nl2 ->
  copyUsage Nodes nl1 = copyUsage Nodes nl2
  /\ forall nl' : list NodeInfo,
       copyUsage Nodes nl1 = Some nl' ->
       map api.Name nl' = map api.Name nl1 /\ copyUsage Nodes nl' = Some nl'.
Proof.
  intros Hnames.
  assert (Hsame : forall l1 l2 : list NodeInfo,
             map api.Name l1 = map api.Name l2 -> copyUsage Nodes l1 = copyUsage Nodes l2).
  { induction l1 as [|n1 l1 IH]; intros [|n2 l2] H; try discriminate H; [reflexivity|].
    simpl in H. injection H as Hn Hl. simpl. rewrite Hn, (IH l2 Hl). reflexivity. }
  split; [apply Hsame; exact Hnames|].
  intros nl' Hcopy. pose proof (copyUsage_names _ _ _ Hcopy) as Hn.
  split; [exact Hn|]. rewrite (Hsame nl' nl1 Hn). exact Hcopy.
Qed.

Lemma copyUsage_overwrites_witness :
  let Nodes : gmap string NodeInfo := {["a" := sampleNode "a" 85 40]} in
  map api.Name [sampleNode "a" 50 40] = map api.Name [freshNode "a"]
  /\ copyUsage Nodes [sampleNode "a" 50 40] = copyUsage Nodes [freshNode "a"].
Proof.
  intros Nodes. split; [reflexivity|].
  apply (copyUsage_overwrites Nodes [sampleNode "a" 50 40] [freshNode "a"] eq_refl).
Defined.

(** ** Readings that are not numbers, order of the readings *)

Lemma SFcompare_refl (x : spec_float) : SFis_nan x = false -> SFcompare x x = Some Eq.
Proof.
  destruct x as [s|s| |s m e]; try discriminate; intros _; simpl.
  - reflexivity.
  - destruct s; reflexivity.
  - rewrite Z.compare_refl, Pos.compare_cont_refl. destruct s; reflexivity.
Qed.

Lemma is_nan_spec (u : float) : PrimFloat.is_nan u = SFis_nan (Prim2SF u).
Proof.
  unfold PrimFloat.is_nan. rewrite FloatAxioms.eqb_spec. unfold SFeqb.
  destruct (SFis_nan (Prim2SF u)) eqn:Hn.
  - destruct (Prim2SF u); try discriminate Hn. reflexivity.
  - rewrite (SFcompare_refl _ Hn). reflexivity.
Qed.

Lemma is_finite_spec (u : float) : is_finite u = SFis_fin (Prim2SF u).
Proof.
  unfold is_finite. rewrite is_nan_spec. unfold is_infinity.
  rewrite FloatAxioms.eqb_spec, abs_spec.
  change (Prim2SF infinity) with (S754_infinity false).
  destruct (Prim2SF u) as [s|s| |s m e]; try reflexivity.
Qed.

Lemma ltb_leb_trans (x y z : float) :
  (x <? y)%float = true -> (y <=? z)%float = true -> (x <? z)%float = true.
Proof.
  rewrite FloatAxioms.leb_spec, !FloatAxioms.ltb_spec. intros Hxy Hyz.
  assert (H1 : 0 < 1) by lia. assert (HE : 1074 <= E0) by (unfold E0; lia).
  destruct (SFltb_not_nan _ _ Hxy) as [Hnx Hny].
  destruct (SFleb_not_nan _ _ Hyz) as [_ Hnz].
  apply (SFltb_sval 1 E0 H1 HE) in Hxy; try assumption; try apply Prim2SF_valid.
  apply (SFleb_sval 1 E0 H1 HE) in Hyz; try assumption; try apply Prim2SF_valid.
  apply (SFltb_sval 1 E0 H1 HE); try assumption; try apply Prim2SF_valid. lia.
Qed.

Lemma leb_trans (x y z : float) :
  (x <=? y)%float = true -> (y <=? z)%float = true -> (x <=? z)%float = true.
Proof.
  rewrite !FloatAxioms.leb_spec. intros Hxy Hyz.
  assert (H1 : 0 < 1) by lia. assert (HE : 1074 <= E0) by (unfold E0; lia).
  destruct (SFleb_not_nan _ _ Hxy) as [Hnx Hny].
  destruct (SFleb_not_nan _ _ Hyz) as [_ Hnz].
  apply (SFleb_sval 1 E0 H1 HE) in Hxy; try assumption; try apply Prim2SF_valid.
  apply (SFleb_sval 1 E0 H1 HE) in Hyz; try assumption; try apply Prim2SF_valid.
  apply (SFleb_sval 1 E0 H1 HE); try assumption; try apply Prim2SF_valid. lia.
Qed.

(** A reading does not exceed a threshold that a greater reading does not
    exceed. *)
Lemma not_exceeds_mono (t u u' : float) :
  (t <? u)%float = false -> (u' <=? u)%float = true -> (t <? u')%float = false.
Proof.
  intros Hu Hle. destruct (t <? u')%float eqn:Hlt; [|reflexivity].
  rewrite (ltb_leb_trans _ _ _ Hlt Hle) in Hu. discriminate Hu.
Qed.

(** X10: the filter is downward closed in the readings: a node passes as
    soon as its two readings are at most those of a node that passes. *)
Theorem filter_downward_closed
  (up : usagePlugin) (task task' : TaskInfo) (node node' : NodeInfo) :
  predicateFn up task node = None ->
  (index (CPUUsageAvg (ResourceUsage node')) (SamplePeriods up)
   <=? index (CPUUsageAvg (ResourceUsage node)) (SamplePeriods up))%float = true ->
  (index (MEMUsageAvg (ResourceUsage node')) (SamplePeriods up)
   <=? index (MEMUsageAvg (ResourceUsage node)) (SamplePeriods up))%float = true ->
  predicateFn up task' node' = None.
Proof.
  intros Hpass Hcpu Hmem.
  destruct (String.eqb (SamplePeriods up) "") eqn:Hp.
  - unfold predicateFn. rewrite Hp. reflexivity.
  - apply String.eqb_neq in Hp.
    apply (predicateFn_passes_iff up task node Hp) in Hpass as [Hc Hm].
    apply (predicateFn_passes_iff up task' node' Hp). split.
    + apply (not_exceeds_mono _ _ _ Hc Hcpu).
    + apply (not_exceeds_mono _ _ _ Hm Hmem).
Qed.

Lemma filter_downward_closed_witness :
  predicateFn samplePlugin sampleTask (sampleNode "a" 70 70) = None
  /\ predicateFn samplePlugin sampleTask (sampleNode "b" 12.5 0) = None.
Proof.
  split; [reflexivity|].
  apply (filter_downward_closed samplePlugin sampleTask sampleTask
           (sampleNode "a" 70 70) (sampleNode "b" 12.5 0)); reflexivity.
Defined.

(** X11: raising the integer thresholds of the arguments never makes the
    filter reject more: a node that passes with the thresholds [c1] and [m1]
    passes with any [c2 >= c1] and [m2 >= m1], the sample period being the
    same. *)
Theorem raising_thresholds_passes_more
  (args1 args2 : Arguments) (c1 m1 c2 m2 : Z) (task : TaskInfo) (node : NodeInfo) :
  args1 !! thresholdSection = Some (thresholdsOf (VInt c1) (VInt m1)) ->
  args2 !! thresholdSection = Some (thresholdsOf (VInt c2) (VInt m2)) ->
  SamplePeriods (New args1) = SamplePeriods (New args2) ->
  c1 <= c2 -> m1 <= m2 ->
  predicateFn (resolveThresholds (New args1)) task node = None ->
  predicateFn (resolveThresholds (New args2)) task node = None.
Proof.
  intros Ha1 Ha2 Hsame Hc Hm.
  assert (Hres : forall (args : Arguments) (c m : Z),
             args !! thresholdSection = Some (thresholdsOf (VInt c) (VInt m)) ->
             cpuThresholds (resolveThresholds (New args)) = float64_of_int c
             /\ memThresholds (resolveThresholds (New args)) = float64_of_int m
             /\ SamplePeriods (resolveThresholds (New args)) = SamplePeriods (New args)).
  { intros args c m Ha. split; [|split].
    - unfold resolveThresholds. cbn [pluginArguments New]. rewrite Ha. reflexivity.
    - unfold resolveThresholds. cbn [pluginArguments New]. rewrite Ha. reflexivity.
    - apply resolveThresholds_keeps. }
  destruct (Hres args1 c1 m1 Ha1) as (Hc1 & Hm1 & Hp1).
  destruct (Hres args2 c2 m2 Ha2) as (Hc2 & Hm2 & Hp2).
  set (up1 := resolveThresholds (New args1)) in *.
  set (up2 := resolveThresholds (New args2)) in *.
  assert (Hp : SamplePeriods up2 = SamplePeriods up1) by congruence.
  intros Hpass.
  destruct (String.eqb (SamplePeriods up1) "") eqn:Hempty.
  - unfold predicateFn. rewrite Hp, Hempty. reflexivity.
  - apply String.eqb_neq in Hempty.
    apply (predicateFn_passes_iff up1 task node Hempty) in Hpass as [Hpc Hpm].
    apply (predicateFn_passes_iff up2 task node); [rewrite Hp; exact Hempty|].
    rewrite Hp, Hc2, Hm2. rewrite Hc1 in Hpc. rewrite Hm1 in Hpm.
    split.
    + destruct (float64_of_int c2 <? _)%float eqn:Hlt; [|reflexivity].
      rewrite (leb_ltb_trans _ _ _ (float64_of_int_mono c1 c2 Hc) Hlt) in Hpc.
      discriminate Hpc.
    + destruct (float64_of_int m2 <? _)%float eqn:Hlt; [|reflexivity].
      rewrite (leb_ltb_trans _ _ _ (float64_of_int_mono m1 m2 Hm) Hlt) in Hpm.
      discriminate Hpm.
Qed.

Lemma raising_thresholds_passes_more_witness :
  let args1 : Arguments := <["thresholds" := thresholdsOf (VInt 90) (VInt 50)]> ∅ in
  let args2 : Arguments := <["thresholds" := thresholdsOf (VInt 95) (VInt 50)]> ∅ in
  90 <= 95 /\ 50 <= 50
  /\ predicateFn (resolveThresholds (New args1)) sampleTask (sampleNode "a" 85 40) = None
  /\ predicateFn (resolveThresholds (New args2)) sampleTask (sampleNode "a" 85 40) = None.
Proof.
  intros args1 args2.
  assert (H1 : 90 <= 95) by lia. assert (H2 : 50 <= 50) by lia.
  split; [exact H1|]. split; [exact H2|]. split; [reflexivity|].
  apply (raising_thresholds_passes_more args1 args2 90 50 95 50 sampleTask
           (sampleNode "a" 85 40) eq_refl eq_refl eq_refl H1 H2).
  reflexivity.
Defined.

(** X12: a reading that is not a number exceeds no threshold: the check of a
    NaN reading never rejects (so the filter of a node whose CPU reading is
    NaN is decided by its memory reading alone, and conversely), and the
    score of a NaN CPU reading is NaN whatever the weight. *)
Theorem nan_reading_passes
  (up : usagePlugin) (task : TaskInfo) (node : NodeInfo) :
  SamplePeriods up <> ""%string ->
  let cpu := index (CPUUsageAvg (ResourceUsage node)) (SamplePeriods up) in
  let mem := index (MEMUsageAvg (ResourceUsage node)) (SamplePeriods up) in
  (PrimFloat.is_nan cpu = true ->
   (predicateFn up task node = None <-> (memThresholds up <? mem)%float = false)
   /\ (CPUUsageAvg (ResourceUsage node) !! SamplePeriods up <> None ->
       PrimFloat.is_nan (fst (nodeOrderFn up task node)) = true))
  /\ (PrimFloat.is_nan mem = true ->
      (predicateFn up task node = None <-> (cpuThresholds up <? cpu)%float = false)).
Proof.
  intros Hp cpu mem.
  assert (Hnan : forall t u : float, PrimFloat.is_nan u = true -> (t <? u)%float = false).
  { intros t u Hu. rewrite is_nan_spec in Hu. rewrite FloatAxioms.ltb_spec.
    destruct (Prim2SF u); try discriminate Hu.
    destruct (Prim2SF t) as [s|s| |s m e]; reflexivity. }
  pose proof (predicateFn_passes_iff up task node Hp) as Hiff. fold cpu mem in Hiff.
  split.
  - intros Hc. split.
    + rewrite Hiff, (Hnan _ _ Hc). intuition.
    + intros Hentry. unfold cpu, index in Hc.
      destruct (CPUUsageAvg (ResourceUsage node) !! SamplePeriods up) as [u|] eqn:Hu;
        [|congruence].
      change (PrimFloat.is_nan u = true) in Hc.
      rewrite (nodeOrderFn_entry up task node u Hp Hu). cbn [fst].
      rewrite is_nan_spec in *. rewrite mul_spec, div_spec, sub_spec.
      destruct (Prim2SF u); try discriminate Hc.
      change (Prim2SF 100) with SFhundred. reflexivity.
  - intros Hm. rewrite Hiff, (Hnan _ _ Hm). intuition.
Qed.

Lemma nan_reading_passes_witness :
  SamplePeriods samplePlugin <> ""%string
  /\ PrimFloat.is_nan nan = true
  /\ predicateFn samplePlugin sampleTask (sampleNode "a" nan 40) = None
  /\ PrimFloat.is_nan (fst (nodeOrderFn samplePlugin sampleTask (sampleNode "a" nan 40)))
     = true.
Proof.
  assert (Hp : SamplePeriods samplePlugin <> ""%string) by discriminate.
  split; [exact Hp|]. split; [reflexivity|].
  destruct (nan_reading_passes samplePlugin sampleTask (sampleNode "a" nan 40) Hp)
    as [Hc _].
  destruct (Hc eq_refl) as [Hpass Hscore].
  split; [apply Hpass; reflexivity | apply Hscore; discriminate].
Defined.

(** ** Thresholds are finite numbers *)

Lemma float64_of_int_finite (z : Z) :
  - 2 ^ 63 <= z < 2 ^ 63 -> is_finite (float64_of_int z) = true.
Proof.
  intros H. rewrite is_finite_spec. apply float64_of_int_fin. lia.
Qed.

Lemma thresholdStep_finite (up : usagePlugin) (k v : value) :
  (forall z : Z, v = VInt z -> - 2 ^ 63 <= z < 2 ^ 63) ->
  is_finite (cpuThresholds up) = true -> is_finite (memThresholds up) = true ->
  is_finite (cpuThresholds (thresholdStep up (k, v))) = true
  /\ is_finite (memThresholds (thresholdStep up (k, v))) = true.
Proof.
  intros Hv Hc Hm.
  assert (Hf : is_finite (float64_of_int (asInt v)) = true).
  { apply float64_of_int_finite. destruct v; simpl; try lia. apply Hv. reflexivity. }
  unfold thresholdStep. cbn [fst snd]. fold (asInt v).
  destruct (String.eqb _ "cpu"); [split; assumption|].
  destruct (String.eqb _ "mem"); split; assumption.
Qed.

Lemma fold_thresholdStep_finite (kvs : list (value * value)) (up : usagePlugin) :
  (forall (k : value) (z : Z), In (k, VInt z) kvs -> - 2 ^ 63 <= z < 2 ^ 63) ->
  is_finite (cpuThresholds up) = true -> is_finite (memThresholds up) = true ->
  is_finite (cpuThresholds (fold_left thresholdStep kvs up)) = true
  /\ is_finite (memThresholds (fold_left thresholdStep kvs up)) = true.
Proof.
  revert up. induction kvs as [|[k v] kvs IH]; intros up Hall Hc Hm; [split; assumption|].
  simpl fold_left.
  destruct (thresholdStep_finite up k v) as [Hc' Hm']; try assumption.
  { intros z ->. apply (Hall k z). left. reflexivity. }
  apply IH; try assumption.
  intros k' z Hin. apply (Hall k' z). right. exact Hin.
Qed.

(** X13: whatever the arguments, the two thresholds the plugin filters with
    are finite numbers (the integers of the section being 64-bit ones);
    hence, with a non-empty sample period, a node with a reading of positive
    infinity is always rejected. *)
Theorem thresholds_are_finite (args : Arguments) (task : TaskInfo) (node : NodeInfo) :
  (forall (kvs : list (value * value)) (k : value) (z : Z),
      args !! thresholdSection = Some (VMap kvs) -> In (k, VInt z) kvs ->
      - 2 ^ 63 <= z < 2 ^ 63) ->
  let up := resolveThresholds (New args) in
  is_finite (cpuThresholds up) = true
  /\ is_finite (memThresholds up) = true
  /\ (SamplePeriods up <> ""%string ->
      index (CPUUsageAvg (ResourceUsage node)) (SamplePeriods up) = infinity
      \/ index (MEMUsageAvg (ResourceUsage node)) (SamplePeriods up) = infinity ->
      predicateFn up task node <> None).
Proof.
  intros Hall up.
  assert (Hfin : is_finite (cpuThresholds up) = true /\ is_finite (memThresholds up) = true).
  { unfold up, resolveThresholds. cbn [pluginArguments New].
    destruct (args !! thresholdSection) as [v|] eqn:Hsec; [|split; reflexivity].
    apply fold_thresholdStep_finite; try reflexivity.
    intros k z Hin. destruct v; try destruct Hin.
    apply (Hall kvs k z eq_refl Hin). }
  destruct Hfin as [Hc Hm]. split; [exact Hc|]. split; [exact Hm|].
  assert (Hinf : forall t : float, is_finite t = true -> (t <? infinity)%float = true).
  { intros t Ht. rewrite is_finite_spec in Ht. rewrite FloatAxioms.ltb_spec.
    change (Prim2SF infinity) with (S754_infinity false).
    destruct (Prim2SF t) as [s|s| |s m e]; try discriminate Ht; reflexivity. }
  intros Hp Hreading Hpass.
  apply (predicateFn_passes_iff up task node Hp) in Hpass as [Hpc Hpm].
  destruct Hreading as [Hr|Hr]; rewrite Hr in *.
  - rewrite (Hinf _ Hc) in Hpc. discriminate Hpc.
  - rewrite (Hinf _ Hm) in Hpm. discriminate Hpm.
Qed.

Lemma thresholds_are_finite_witness :
  (forall (kvs : list (value * value)) (k : value) (z : Z),
      sampleArgs !! thresholdSection = Some (VMap kvs) -> In (k, VInt z) kvs ->
      - 2 ^ 63 <= z < 2 ^ 63)
  /\ is_finite (cpuThresholds samplePlugin) = true
  /\ predicateFn samplePlugin sampleTask (sampleNode "a" infinity 40) <> None.
Proof.
  assert (H : forall (kvs : list (value * value)) (k : value) (z : Z),
             sampleArgs !! thresholdSection = Some (VMap kvs) -> In (k, VInt z) kvs ->
             - 2 ^ 63 <= z < 2 ^ 63).
  { intros kvs k z Hsec Hin. injection Hsec as <-.
    destruct Hin as [Heq|[Heq|[]]]; injection Heq as _ <-; lia. }
  split; [exact H|].
  destruct (thresholds_are_finite sampleArgs sampleTask (sampleNode "a" infinity 40) H)
    as (Hc & _ & Hrej).
  split; [exact Hc|]. apply Hrej; [discriminate | left; reflexivity].
Defined.

(** ** Range of the score *)

Lemma multiplier_pos (up : usagePlugin) :
  0 < int64_mul MaxNodeScore (weight up) ->
  exists (m : positive) (e : Z),
    Prim2SF (float64_of_int (int64_mul MaxNodeScore (weight up))) = S754_finite false m e.
Proof.
  intros H. apply float64_of_int_pos.
  pose proof (wrap64_range (MaxNodeScore * weight up)). unfold int64_mul in *. lia.
Qed.

Lemma zero_mul_pos (w : float) (m : positive) (e : Z) :
  Prim2SF w = S754_finite false m e -> (0 * w)%float = 0%float.
Proof.
  intros Hw. apply Prim2SF_inj. rewrite mul_spec, Hw. reflexivity.
Qed.

(** The ratio times a positive multiplier, against the readings 0 and 100. *)
Lemma weighted_ratio_bounds (W : float) (m : positive) (e : Z) (u : float) :
  Prim2SF W = S754_finite false m e ->
  ((0 <=? u)%float = true -> ((100 - u) / 100 * W <=? W)%float = true)
  /\ ((u <=? 100)%float = true -> (0 <=? (100 - u) / 100 * W)%float = true)
  /\ ((100 <=? u)%float = true -> ((100 - u) / 100 * W <=? 0)%float = true)
  /\ ((u <=? 0)%float = true -> (W <=? (100 - u) / 100 * W)%float = true).
Proof.
  intros Hw.
  assert (Hmono : forall u1 u2 : float,
             (u1 <=? u2)%float = true ->
             ((100 - u2) / 100 * W <=? (100 - u1) / 100 * W)%float = true).
  { intros u1 u2 Hle. apply (leb_mul_mono _ _ _ m e Hw).
    apply (leb_div_mono 100 _ _ 7036874417766400 (-46) eq_refl).
    apply (leb_sub_mono 100 _ _ eq_refl). exact Hle. }
  assert (Hfull : ((100 - 0) / 100 * W)%float = W).
  { change ((100 - 0) / 100)%float with 1%float. apply mul_one_l. }
  assert (Hnone : ((100 - 100) / 100 * W)%float = 0%float).
  { change ((100 - 100) / 100)%float with 0%float. apply (zero_mul_pos W m e Hw). }
  repeat split; intros Hle; apply Hmono in Hle.
  - rewrite Hfull in Hle. exact Hle.
  - rewrite Hnone in Hle. exact Hle.
  - rewrite Hnone in Hle. exact Hle.
  - rewrite Hfull in Hle. exact Hle.
Qed.

(** X14: with a positive multiplier [W] (the product of [MaxNodeScore] and
    the weight on [int64]), the score of a reading between 0 and 100 lies
    between 0 and [W]; the score is not clamped: a reading of 100 or more
    has a score of 0 or less, and a reading of 0 or less a score of [W] or
    more. *)
Theorem score_range
  (up : usagePlugin) (task : TaskInfo) (node : NodeInfo) (u : float) :
  SamplePeriods up <> ""%string ->
  CPUUsageAvg (ResourceUsage node) !! SamplePeriods up = Some u ->
  0 < int64_mul MaxNodeScore (weight up) ->
  let W := float64_of_int (int64_mul MaxNodeScore (weight up)) in
  let score := fst (nodeOrderFn up task node) in
  ((0 <=? u)%float = true -> (score <=? W)%float = true)
  /\ ((u <=? 100)%float = true -> (0 <=? score)%float = true)
  /\ ((100 <=? u)%float = true -> (score <=? 0)%float = true)
  /\ ((u <=? 0)%float = true -> (W <=? score)%float = true).
Proof.
  intros Hp Hu HW W score. unfold score.
  rewrite (nodeOrderFn_entry up task node u Hp Hu). cbn [fst]. fold W.
  destruct (multiplier_pos up HW) as (mw & ew & Hw).
  apply (weighted_ratio_bounds W mw ew u Hw).
Qed.

Lemma score_range_witness :
  SamplePeriods samplePlugin <> ""%string
  /\ 0 < int64_mul MaxNodeScore (weight samplePlugin)
  /\ (0 <=? 50)%float = true
  /\ (fst (nodeOrderFn samplePlugin sampleTask (sampleNode "a" 50 40))
      <=? float64_of_int (int64_mul MaxNodeScore (weight samplePlugin)))%float = true.
Proof.
  assert (Hp : SamplePeriods samplePlugin <> ""%string) by discriminate.
  assert (HW : 0 < int64_mul MaxNodeScore (weight samplePlugin)) by reflexivity.
  split; [exact Hp|]. split; [exact HW|]. split; [reflexivity|].
  apply (score_range samplePlugin sampleTask (sampleNode "a" 50 40) 50 Hp eq_refl HW).
  reflexivity.
Defined.

Lemma SFmul_fin_not_nan (x y : spec_float) :
  valid_binary x = true -> valid_binary y = true ->
  SFis_fin x = true -> SFis_fin y = true ->
  SFis_nan (SFmul prec emax x y) = false.
Proof.
  intros Hvx Hvy Hfx Hfy.
  destruct x as [sx|sx| |sx mx ex]; try discriminate Hfx;
    destruct y as [sy|sy| |sy my ey]; try discriminate Hfy; try reflexivity.
  pose proof (valid_finite_exp _ _ _ Hvx). pose proof (valid_finite_exp _ _ _ Hvy).
  assert (HE : 1074 <= E0) by (unfold E0; lia).
  pose proof (SFmul_approx E0 sx mx ex sy my ey Hvx Hvy HE ltac:(unfold E0; lia)) as Ha.
  apply (approx_sval 1 E0 ltac:(lia) HE) in Ha as (V & _ & _ & _ & _ & Hn & _).
  exact Hn.
Qed.

(** X15: the score of a finite reading is a number, whatever the weight is
    (even when the product with [MaxNodeScore] wraps around); with the
    weight 0 it is a zero. *)
Theorem score_of_finite_reading
  (up : usagePlugin) (task : TaskInfo) (node : NodeInfo) (u : float) :
  SamplePeriods up <> ""%string ->
  CPUUsageAvg (ResourceUsage node) !! SamplePeriods up = Some u ->
  is_finite u = true ->
  PrimFloat.is_nan (fst (nodeOrderFn up task node)) = false
  /\ (weight up = 0 -> (fst (nodeOrderFn up task node) =? 0)%float = true).
Proof.
  intros Hp Hu Hfin.
  rewrite (nodeOrderFn_entry up task node u Hp Hu). cbn [fst].
  rewrite is_finite_spec in Hfin. pose proof (ratio_fin u Hfin) as Hr.
  split.
  - rewrite is_nan_spec, mul_spec. apply SFmul_fin_not_nan; try apply Prim2SF_valid.
    + exact Hr.
    + apply float64_of_int_fin.
      pose proof (wrap64_range (MaxNodeScore * weight up)). unfold int64_mul. lia.
  - intros ->. change (float64_of_int (int64_mul MaxNodeScore 0)) with 0%float.
    rewrite FloatAxioms.eqb_spec, mul_spec. change (Prim2SF 0) with (S754_zero false).
    destruct (Prim2SF ((100 - u) / 100)) as [s|s| |s m e]; try discriminate Hr;
      reflexivity.
Qed.

Lemma score_of_finite_reading_witness :
  let up := New (<["usage.weight" := VInt 92233720368547759]> ∅) in
  SamplePeriods up <> ""%string
  /\ is_finite 50 = true
  /\ PrimFloat.is_nan (fst (nodeOrderFn up sampleTask (sampleNode "a" 50 40))) = false.
Proof.
  intros up.
  assert (Hp : SamplePeriods up <> ""%string) by discriminate.
  split; [exact Hp|]. split; [reflexivity|].
  apply (score_of_finite_reading up sampleTask (sampleNode "a" 50 40) 50 Hp eq_refl eq_refl).
Defined.

(** X16: the multiplier of the score is the product of [MaxNodeScore] and
    the weight exactly when the weight lies between -92233720368547758 and
    92233720368547758; for any other weight the product on [int64] wraps
    around. *)
Theorem multiplier_exact_iff (up : usagePlugin) :
  int64_mul MaxNodeScore (weight up) = MaxNodeScore * weight up <->
  - 92233720368547758 <= weight up <= 92233720368547758.
Proof.
  split.
  - intros H. pose proof (wrap64_range (MaxNodeScore * weight up)) as Hr.
    unfold int64_mul in H. rewrite H in Hr. unfold MaxNodeScore in Hr. lia.
  - apply int64_mul_small.
Qed.

(** ** The conversion of integers *)

Lemma rounds_exact (g m N V : Z) :
  0 < g -> 0 <= m -> N = m * g -> rounds g N V -> V = N.
Proof.
  intros Hg Hm HN (m' & l' & Hm' & Hinb & ->).
  assert (Hex : inb g m loc_Exact N) by exact HN.
  destruct (inb_unique g m' m l' loc_Exact N Hg Hinb Hex) as [-> ->].
  simpl. symmetry. exact HN.
Qed.

Lemma float64_of_int_exact (z : Z) :
  - 2 ^ 53 <= z <= 2 ^ 53 ->
  sval 1 E0 (Prim2SF (float64_of_int z)) = z * grid 1 E0 0.
Proof.
  intros Hz.
  assert (H1 : 0 < 1) by lia. assert (HE : 1074 <= E0) by (unfold E0; lia).
  destruct (Z.eq_dec z 0) as [->|Hne]; [reflexivity|].
  destruct (Z.eq_dec (Z.abs z) (2 ^ 53)) as [Hmax|Hlt].
  { assert (Hcase : z = 2 ^ 53 \/ z = - 2 ^ 53) by lia.
    destruct Hcase as [-> | ->]; vm_compute; reflexivity. }
  rewrite float64_of_int_spec.
  destruct (binary_normalize_approx 1 E0 H1 HE z 0 false ltac:(unfold E0; lia))
    as (s & N & Ha & HN & Hpos & Hneg).
  apply (approx_sval 1 E0 H1 HE) in Ha as (V & HN0 & HV0 & Hrounds & _ & _ & Hsval).
  set (a := Z.abs z) in *.
  assert (Ha : 0 < a < 2 ^ 53) by (unfold a; lia).
  assert (HNa : N = a * grid 1 E0 0).
  { destruct (Z_lt_le_dec 0 z) as [Hzpos|Hzneg].
    - rewrite (Hpos Hzpos) in HN. simpl in HN. unfold a. rewrite Z.abs_eq by lia. exact HN.
    - rewrite (Hneg ltac:(lia)) in HN. simpl in HN. unfold a.
      rewrite Z.abs_neq by lia. lia. }
  set (d := Zdigits2 a).
  destruct (Zdigits2_bounds a ltac:(lia)) as [Hd Hbounds]. fold d in Hd, Hbounds.
  assert (Hd53 : d <= 53).
  { destruct (Z_le_gt_dec d 53) as [Hle|Hgt]; [exact Hle|exfalso].
    assert (2 ^ 53 <= 2 ^ (d - 1)) by (apply Z.pow_le_mono_r; lia). lia. }
  set (e := d - 53). set (m := a * 2 ^ (53 - d)).
  assert (Hpow : 0 < 2 ^ (53 - d)) by (apply Z.pow_pos_nonneg; lia).
  assert (Hm : 0 < m) by (unfold m; nia).
  assert (Hdm : Zdigits2 m = 53).
  { unfold m. rewrite Zdigits2_shift by lia. fold d. lia. }
  assert (Hc : cexp m e = e).
  { unfold cexp. rewrite Hdm. unfold fexp, emin, emax, prec, e. lia. }
  assert (Hgrid : grid 1 E0 0 = 2 ^ (53 - d) * grid 1 E0 e).
  { unfold grid, e. rewrite !Z.mul_1_l, <- Z.pow_add_r by (unfold E0; lia).
    f_equal. lia. }
  assert (HNm : N = m * grid 1 E0 e).
  { rewrite HNa, Hgrid. unfold m. ring. }
  assert (Hg : 0 < grid 1 E0 e) by (apply grid_pos; unfold e, E0; lia).
  assert (Hloc : located 1 E0 m e loc_Exact N).
  { unfold located. split; [lia|]. split; [unfold e, E0; lia|].
    split; [rewrite Hc; lia | exact HNm]. }
  pose proof (Hrounds m e loc_Exact Hloc) as Hr. rewrite Hc in Hr.
  rewrite (rounds_exact _ m N V Hg ltac:(lia) HNm Hr) in Hsval.
  assert (Htop : N < top 1 E0).
  { rewrite HNa. unfold top, grid. rewrite !Z.mul_1_l.
    replace (972 + E0) with (972 + (0 + E0)) by lia.
    rewrite (Z.pow_add_r 2 972 (0 + E0)) by (unfold E0; lia).
    assert (0 < 2 ^ (0 + E0)) by (apply Z.pow_pos_nonneg; unfold E0; lia).
    assert (2 ^ 53 <= 2 ^ 52 * 2 ^ 972) by (vm_compute; discriminate).
    nia. }
  rewrite Hsval, Z.min_l by lia. exact HN.
Qed.

(** X17: the conversion [float64(value)] of an integer of magnitude up to
    2^53 is exact: converted thresholds (and multipliers of the score)
    compare as the integers do, so two distinct integer thresholds never
    yield the same threshold. Beyond 2^53 this fails. *)
Theorem float64_of_int_order (z1 z2 : Z) :
  - 2 ^ 53 <= z1 <= 2 ^ 53 ->
  - 2 ^ 53 <= z2 <= 2 ^ 53 ->
  (float64_of_int z1 <? float64_of_int z2)%float = (z1 <? z2)
  /\ (float64_of_int z1 <=? float64_of_int z2)%float = (z1 <=? z2)
  /\ (float64_of_int z1 =? float64_of_int z2)%float = (z1 =? z2)
  /\ float64_of_int (2 ^ 53 + 1) = float64_of_int (2 ^ 53).
Proof.
  intros H1 H2.
  assert (HK : 0 < 1) by lia. assert (HE : 1074 <= E0) by (unfold E0; lia).
  assert (Hnan : forall z : Z, - 2 ^ 53 <= z <= 2 ^ 53 ->
                               SFis_nan (Prim2SF (float64_of_int z)) = false).
  { intros z Hz. pose proof (float64_of_int_fin z ltac:(lia)) as Hf.
    destruct (Prim2SF (float64_of_int z)); try discriminate Hf; reflexivity. }
  pose proof (SFcompare_sval 1 E0 HK HE _ _ (Prim2SF_valid _) (Prim2SF_valid _)
                (Hnan z1 H1) (Hnan z2 H2)) as Hcmp.
  rewrite (float64_of_int_exact z1 H1), (float64_of_int_exact z2 H2) in Hcmp.
  assert (Hg : 0 < grid 1 E0 0) by (apply grid_pos; unfold E0; lia).
  rewrite <- (Zmult_compare_compat_r z1 z2 _ (Z.lt_gt _ _ Hg)) in Hcmp.
  rewrite FloatAxioms.ltb_spec, FloatAxioms.leb_spec, FloatAxioms.eqb_spec.
  unfold SFltb, SFleb, SFeqb. rewrite Hcmp.
  split; [reflexivity|]. split; [reflexivity|]. split; [|reflexivity].
  symmetry. apply Z.eqb_compare.
Qed.

Lemma float64_of_int_order_witness :
  - 2 ^ 53 <= 70 <= 2 ^ 53
  /\ - 2 ^ 53 <= 80 <= 2 ^ 53
  /\ (float64_of_int 70 <? float64_of_int 80)%float = (70 <? 80).
Proof.
  assert (H1 : - 2 ^ 53 <= 70 <= 2 ^ 53) by lia.
  assert (H2 : - 2 ^ 53 <= 80 <= 2 ^ 53) by lia.
  split; [exact H1|]. split; [exact H2|].
  apply (float64_of_int_order 70 80 H1 H2).
Defined.

(** ** The filter and the score together *)

Lemma not_ltb_leb (t u : float) :
  PrimFloat.is_nan t = false -> PrimFloat.is_nan u = false ->
  (t <? u)%float = false -> (u <=? t)%float = true.
Proof.
  rewrite !is_nan_spec, FloatAxioms.ltb_spec, FloatAxioms.leb_spec. intros Ht Hu Hlt.
  assert (H1 : 0 < 1) by lia. assert (HE : 1074 <= E0) by (unfold E0; lia).
  apply (SFleb_sval 1 E0 H1 HE); try assumption; try apply Prim2SF_valid.
  destruct (Z_le_gt_dec (sval 1 E0 (Prim2SF u)) (sval 1 E0 (Prim2SF t))) as [Hle|Hgt];
    [exact Hle|exfalso].
  assert (Htrue : SFltb (Prim2SF t) (Prim2SF u) = true).
  { apply (SFltb_sval 1 E0 H1 HE); try assumption; try apply Prim2SF_valid. lia. }
  rewrite Htrue in Hlt. discriminate Hlt.
Qed.

(** X18: with a CPU threshold of at most 100 and a positive multiplier, a
    node that passes the filter never has a negative score: if its CPU
    reading for the period is a number, its score is 0 or more. *)
Theorem passing_node_scores_nonneg
  (args : Arguments) (c : Z) (mem : value) (task : TaskInfo) (node : NodeInfo) (u : float) :
  args !! thresholdSection = Some (thresholdsOf (VInt c) mem) ->
  c <= 100 ->
  let up := resolveThresholds (New args) in
  SamplePeriods up <> ""%string ->
  CPUUsageAvg (ResourceUsage node) !! SamplePeriods up = Some u ->
  PrimFloat.is_nan u = false ->
  0 < int64_mul MaxNodeScore (weight up) ->
  predicateFn up task node = None ->
  (0 <=? fst (nodeOrderFn up task node))%float = true.
Proof.
  intros Hargs Hc up Hp Hu Hnan HW Hpass.
  assert (Hthr : cpuThresholds up = float64_of_int c).
  { unfold up, resolveThresholds. cbn [pluginArguments New]. rewrite Hargs. reflexivity. }
  apply (predicateFn_passes_iff up task node Hp) in Hpass as [Hpc _].
  unfold index in Hpc. rewrite Hu, Hthr in Hpc.
  change (default 0%float (Some u)) with u in Hpc.
  assert (Hle : (u <=? 100)%float = true).
  { apply (leb_trans _ (float64_of_int c)).
    - apply not_ltb_leb; try assumption.
      rewrite is_nan_spec.
      pose proof (float64_of_int_mono c 100 Hc) as Hm.
      rewrite FloatAxioms.leb_spec in Hm. apply SFleb_not_nan in Hm as [Hm _]. exact Hm.
    - apply (float64_of_int_mono c 100 Hc). }
  rewrite (nodeOrderFn_entry up task node u Hp Hu). cbn [fst].
  destruct (multiplier_pos up HW) as (mw & ew & Hw).
  apply (weighted_ratio_bounds _ mw ew u Hw). exact Hle.
Qed.

Lemma passing_node_scores_nonneg_witness :
  let up := samplePlugin in
  70 <= 100
  /\ SamplePeriods up <> ""%string
  /\ PrimFloat.is_nan 50 = false
  /\ 0 < int64_mul MaxNodeScore (weight up)
  /\ predicateFn up sampleTask (sampleNode "a" 50 40) = None
  /\ (0 <=? fst (nodeOrderFn up sampleTask (sampleNode "a" 50 40)))%float = true.
Proof.
  intros up.
  assert (Hc : 70 <= 100) by lia.
  assert (Hp : SamplePeriods up <> ""%string) by discriminate.
  assert (HW : 0 < int64_mul MaxNodeScore (weight up)) by reflexivity.
  split; [exact Hc|]. split; [exact Hp|]. split; [reflexivity|]. split; [exact HW|].
  split; [reflexivity|].
  apply (passing_node_scores_nonneg sampleArgs 70 (VInt 70) sampleTask
           (sampleNode "a" 50 40) 50 eq_refl Hc Hp eq_refl eq_refl HW eq_refl).
Defined.

(** ** The weight *)

Lemma SFmul_comm (x y : spec_float) : SFmul prec emax x y = SFmul prec emax y x.
Proof.
  destruct x as [sx|sx| |sx mx ex], y as [sy|sy| |sy my ey]; simpl;
    try reflexivity; try (rewrite (xorb_comm sx sy); reflexivity).
  rewrite (xorb_comm sx sy), (Pos.mul_comm mx my), (Z.add_comm ex ey). reflexivity.
Qed.

Lemma mul_comm (x y : float) : (x * y)%float = (y * x)%float.
Proof. apply Prim2SF_inj. rewrite !mul_spec. apply SFmul_comm. Qed.

(** A ratio that is zero or a positive finite number, times growing
    finite multipliers. *)
Lemma leb_mul_mono_l (r w1 w2 : float) :
  (0 <=? r)%float = true -> SFis_fin (Prim2SF r) = true ->
  SFis_fin (Prim2SF w1) = true -> SFis_fin (Prim2SF w2) = true ->
  (w1 <=? w2)%float = true -> (r * w1 <=? r * w2)%float = true.
Proof.
  intros Hr Hfin Hf1 Hf2 Hle.
  destruct (Prim2SF r) as [s|s| |s m e] eqn:Hsf; try discriminate Hfin.
  - rewrite FloatAxioms.leb_spec, !mul_spec, Hsf.
    destruct (Prim2SF w1) as [s1|s1| |s1 m1 e1]; try discriminate Hf1;
      destruct (Prim2SF w2) as [s2|s2| |s2 m2 e2]; try discriminate Hf2; reflexivity.
  - rewrite FloatAxioms.leb_spec, Hsf in Hr.
    destruct s; [discriminate Hr|].
    rewrite (mul_comm r w1), (mul_comm r w2).
    apply (leb_mul_mono r w1 w2 m e Hsf Hle).
Qed.

(** X19: for a reading between 0 and 100, a greater weight never gives a
    lower score, the weights ranging from 0 to 92233720368547758 (where the
    product with [MaxNodeScore] does not wrap around). *)
Theorem score_monotone_in_weight
  (up1 up2 : usagePlugin) (task : TaskInfo) (node : NodeInfo) (u : float) :
  SamplePeriods up1 <> ""%string ->
  SamplePeriods up2 = SamplePeriods up1 ->
  CPUUsageAvg (ResourceUsage node) !! SamplePeriods up1 = Some u ->
  (0 <=? u)%float = true -> (u <=? 100)%float = true ->
  0 <= weight up1 <= weight up2 ->
  weight up2 <= 92233720368547758 ->
  (fst (nodeOrderFn up1 task node) <=? fst (nodeOrderFn up2 task node))%float = true.
Proof.
  intros Hp Hsame Hu Hlo Hhi Hw Hmax.
  rewrite (nodeOrderFn_entry up1 task node u Hp Hu).
  rewrite (nodeOrderFn_entry up2 task node u); [|rewrite Hsame; exact Hp|rewrite Hsame; exact Hu].
  cbn [fst].
  rewrite !int64_mul_small by lia.
  assert (Hfin : SFis_fin (Prim2SF u) = true).
  { rewrite FloatAxioms.leb_spec in Hlo, Hhi.
    apply (between_fin (Prim2SF 0) _ (Prim2SF 100)); try assumption; reflexivity. }
  apply leb_mul_mono_l.
  - change 0%float with ((100 - 100) / 100)%float.
    apply (leb_div_mono 100 _ _ 7036874417766400 (-46) eq_refl).
    apply (leb_sub_mono 100 _ _ eq_refl). exact Hhi.
  - apply ratio_fin. exact Hfin.
  - apply float64_of_int_fin. unfold MaxNodeScore. lia.
  - apply float64_of_int_fin. unfold MaxNodeScore. lia.
  - apply float64_of_int_mono. unfold MaxNodeScore. lia.
Qed.

Lemma score_monotone_in_weight_witness :
  let up1 := New (<["usage.weight" := VInt 2]> ∅) in
  let up2 := New (<["usage.weight" := VInt 5]> ∅) in
  SamplePeriods up1 <> ""%string
  /\ (0 <=? 50)%float = true /\ (50 <=? 100)%float = true
  /\ 0 <= weight up1 <= weight up2
  /\ (fst (nodeOrderFn up1 sampleTask (sampleNode "a" 50 40))
      <=? fst (nodeOrderFn up2 sampleTask (sampleNode "a" 50 40)))%float = true.
Proof.
  intros up1 up2.
  assert (Hp : SamplePeriods up1 <> ""%string) by discriminate.
  assert (Hw : 0 <= weight up1 <= weight up2) by (change (0 <= 2 <= 5); lia).
  assert (Hmax : weight up2 <= 92233720368547758)
    by (change (5 <= 92233720368547758); lia).
  split; [exact Hp|]. split; [reflexivity|]. split; [reflexivity|]. split; [exact Hw|].
  apply (score_monotone_in_weight up1 up2 sampleTask (sampleNode "a" 50 40) 50
           Hp eq_refl eq_refl eq_refl eq_refl Hw Hmax).
Defined.
